(** * Zorvixe backend: a shallow embedding of [backend/app.js]

    The service is an Express application over one PostgreSQL pool.  Every
    handler is [request -> validate -> pool.query -> respond].  The file
    models

    - JavaScript strings as sequences of Unicode code points ([text]),
      with [length], [trim], [substr], [toUpperCase] and [RegExp.test];
    - the five tables of [initializeDb] as lists of records, together with
      the constraints the DDL declares (SERIAL keys, UNIQUE tokens, the
      foreign key of [client_links], VARCHAR widths);
    - [pool.query] as the primitive action of a state-and-exception monad
      that also records which statements were sent;
    - the handlers, statement by statement, in that monad;
    - the order in which the routes are registered.

    Timestamps are the values of TIMESTAMP columns: wall-clock milliseconds.
    [date_now] is what [new Date()] reads in the Node process and [sql_now]
    what [NOW()] reads in the database session.  The store is taken to be
    reachable: the only query failures are those the statement and the
    stored data determine. *)

From Stdlib Require Import ZArith NArith List String Ascii Bool Lia.
From Stdlib Require Import DecimalString.
Import ListNotations.

Local Open Scope string_scope.
Local Open Scope Z_scope.
Local Open Scope list_scope.

Set Implicit Arguments.

(* ===================================================================== *)
(** ** JavaScript strings *)
(* ===================================================================== *)

(** A string value is a sequence of Unicode code points (a string with an
    unpaired surrogate has no counterpart here). *)
Definition text := list N.

Fixpoint text_of_string (s : string) : text :=
  match s with
  | EmptyString => []
  | String a r => N_of_ascii a :: text_of_string r
  end.

Definition text_eqb (a b : text) : bool :=
  if list_eq_dec N.eq_dec a b then true else false.

(** [String.prototype.length] counts UTF-16 code units: a code point above
    the Basic Multilingual Plane takes two. *)
Definition code_units (c : N) : nat :=
  if (c <? 65536)%N then 1%nat else 2%nat.

Fixpoint js_length (s : text) : nat :=
  match s with
  | [] => 0%nat
  | c :: r => (code_units c + js_length r)%nat
  end.

(** WhiteSpace and LineTerminator of ECMAScript: the characters that
    [trim] strips and that [\s] matches. *)
Definition is_js_space (c : N) : bool :=
  ((9 <=? c) && (c <=? 13) || (c =? 32) || (c =? 160) || (c =? 5760)
   || (8192 <=? c) && (c <=? 8202) || (c =? 8232) || (c =? 8233)
   || (c =? 8239) || (c =? 8287) || (c =? 12288) || (c =? 65279))%N.

Fixpoint trim_start (s : text) : text :=
  match s with
  | [] => []
  | c :: r => if is_js_space c then trim_start r else s
  end.

Definition trim (s : text) : text :=
  rev (trim_start (rev (trim_start s))).

(** A request field that the handler destructures from [req.body] or
    [req.query]: missing ([undefined]/[null]) or a string. *)
Definition field := option text.

(** JavaScript truthiness of such a field: [!x] is true for a missing
    value and for the empty string. *)
Definition falsy (x : field) : bool :=
  match x with
  | None => true
  | Some [] => true
  | Some _ => false
  end.

(* --------------------------------------------------------------------- *)
(** *** Regular expressions *)
(* --------------------------------------------------------------------- *)

(** The fragment of RegExp syntax the source uses: character classes,
    concatenation, [+] and bounded repetition.  [^...$] anchors both ends,
    so [test] is a match of the whole string.  Without the [u] flag a
    RegExp steps through UTF-16 code units; the classes below either
    exclude a few BMP characters or hold ASCII characters only, so
    stepping through code points decides the same strings. *)
Inductive regex : Type :=
| Void : regex
| Eps : regex
| Class : (N -> bool) -> regex
| Seq : regex -> regex -> regex
| Alt : regex -> regex -> regex
| Star : regex -> regex.

Definition Plus (r : regex) : regex := Seq r (Star r).

Fixpoint Times (n : nat) (r : regex) : regex :=
  match n with
  | O => Eps
  | S k => Seq r (Times k r)
  end.

Fixpoint nullable (r : regex) : bool :=
  match r with
  | Void => false
  | Eps => true
  | Class _ => false
  | Seq a b => nullable a && nullable b
  | Alt a b => nullable a || nullable b
  | Star _ => true
  end.

Fixpoint deriv (c : N) (r : regex) : regex :=
  match r with
  | Void => Void
  | Eps => Void
  | Class p => if p c then Eps else Void
  | Seq a b =>
      if nullable a then Alt (Seq (deriv c a) b) (deriv c b)
      else Seq (deriv c a) b
  | Alt a b => Alt (deriv c a) (deriv c b)
  | Star a => Seq (deriv c a) (Star a)
  end.

Fixpoint regex_test (r : regex) (s : text) : bool :=
  match s with
  | [] => nullable r
  | c :: rest => regex_test (deriv c r) rest
  end.

(** The language of a regular expression, for the correctness of
    [regex_test]. *)
Inductive Matches : regex -> text -> Prop :=
| MEps : Matches Eps []
| MClass : forall p c, p c = true -> Matches (Class p) [c]
| MSeq : forall a b u v, Matches a u -> Matches b v -> Matches (Seq a b) (u ++ v)
| MAltL : forall a b u, Matches a u -> Matches (Alt a b) u
| MAltR : forall a b u, Matches b u -> Matches (Alt a b) u
| MStar0 : forall a, Matches (Star a) []
| MStarS : forall a c u v,
    Matches a (c :: u) -> Matches (Star a) v -> Matches (Star a) (c :: u ++ v).

(** [[^\s@]] *)
Definition not_space_at (c : N) : bool := negb (is_js_space c) && negb (c =? 64)%N.
(** [@] and [\.] *)
Definition is_at (c : N) : bool := (c =? 64)%N.
Definition is_dot (c : N) : bool := (c =? 46)%N.
(** [[6-9]] and [\d] *)
Definition is_6_to_9 (c : N) : bool := ((54 <=? c) && (c <=? 57))%N.
Definition is_digit (c : N) : bool := ((48 <=? c) && (c <=? 57))%N.

(** [/^[^\s@]+@[^\s@]+\.[^\s@]+$/] *)
Definition email_regex : regex :=
  Seq (Plus (Class not_space_at))
      (Seq (Class is_at)
           (Seq (Plus (Class not_space_at))
                (Seq (Class is_dot) (Plus (Class not_space_at))))).

(** [/^[6-9]\d{9}$/] *)
Definition phone_regex : regex :=
  Seq (Class is_6_to_9) (Times 9 (Class is_digit)).

(* ===================================================================== *)
(** ** The store *)
(* ===================================================================== *)

(** One record per table of [initializeDb]; the field names are the column
    names.  VARCHAR and TEXT columns that are searched or validated hold
    [text]; tokens are only compared for equality and are kept as
    [string].  Nullable columns are options. *)

Record Contact := mkContact {
  ct_id : Z;
  ct_name : text;
  ct_email : text;
  ct_phone : text;
  ct_subject : text;
  ct_message : text;
  ct_created_at : Z
}.

Record PaymentRegistration := mkPaymentRegistration {
  pr_id : Z;
  pr_client_name : text;
  pr_project_name : text;
  pr_client_id : text;
  pr_amount : Z;             (* NUMERIC(10,2), in hundredths *)
  pr_due_date : Z;
  pr_receipt_url : text;
  pr_reference_id : text;
  pr_status : text;
  pr_created_at : Z
}.

Record PaymentLink := mkPaymentLink {
  pl_id : Z;
  pl_token : string;
  pl_active : option bool;   (* BOOLEAN DEFAULT TRUE, nullable *)
  pl_created_at : Z
}.

Record Client := mkClient {
  c_id : Z;
  c_name : text;
  c_email : text;
  c_phone : text;
  c_company : option text;
  c_created_at : Z
}.

Record ClientLink := mkClientLink {
  cl_id : Z;
  cl_client_id : option Z;   (* INTEGER REFERENCES clients(id), nullable *)
  cl_token : string;
  cl_active : option bool;   (* BOOLEAN DEFAULT TRUE, nullable *)
  cl_created_at : Z;
  cl_expires_at : Z
}.

(** The database: the rows of each table in heap order, the SERIAL
    sequences that [INSERT] draws keys from, and whether [payment_links]
    carries the [active] column.  The first revision of [initializeDb]
    declares that column; the second revision's CREATE TABLE omits it, and
    CREATE TABLE IF NOT EXISTS keeps whichever table was created first. *)
Record Db := mkDb {
  contacts : list Contact;
  contacts_id_seq : Z;
  payment_registrations : list PaymentRegistration;
  payment_links : list PaymentLink;
  payment_links_has_active : bool;
  clients : list Client;
  client_links : list ClientLink;
  client_links_id_seq : Z
}.

(** Two states hold the same rows (they may differ in sequence values). *)
Definition same_rows (a b : Db) : Prop :=
  contacts a = contacts b /\
  payment_registrations a = payment_registrations b /\
  payment_links a = payment_links b /\
  payment_links_has_active a = payment_links_has_active b /\
  clients a = clients b /\
  client_links a = client_links b.

(* --------------------------------------------------------------------- *)
(** *** [pool.query] as a monadic action *)
(* --------------------------------------------------------------------- *)

(** What a rejected promise carries into a [catch] block. *)
Inductive exn : Type :=
| unique_violation
| foreign_key_violation
| not_null_violation
| string_data_right_truncation
| invalid_byte_sequence
| invalid_text_representation
| numeric_value_out_of_range
| undefined_column
| TypeError.

(** The statements of the source, by the table and verb they address. *)
Inductive Statement : Type :=
| SelectPaymentLinkByToken
| UpdatePaymentLinkActive
| InsertContact
| SelectPaymentById
| SearchPayments
| InsertClientLink
| SelectClientLinkByToken
| SelectClientById
| SelectLatestPaymentOfClient.

Inductive outcome (A : Type) : Type :=
| Value : A -> outcome A
| Raised : exn -> outcome A.

Arguments Value {A} _.
Arguments Raised {A} _.

(** The world a handler runs in: the store and the log of the statements
    that reached it. *)
Record World := mkWorld {
  store : Db;
  sent : list Statement
}.

Definition M (A : Type) : Type := World -> outcome A * World.

Definition ret {A} (a : A) : M A := fun w => (Value a, w).

Definition bind {A B} (m : M A) (k : A -> M B) : M B :=
  fun w =>
    match m w with
    | (Value a, w') => k a w'
    | (Raised e, w') => (Raised e, w')
    end.

Definition throw {A} (e : exn) : M A := fun w => (Raised e, w).

(** [try { m } catch (error) { h error }] *)
Definition try_catch {A} (m : M A) (h : exn -> M A) : M A :=
  fun w =>
    match m w with
    | (Value a, w') => (Value a, w')
    | (Raised e, w') => h e w'
    end.

(** [await pool.query(...)]: the statement runs against the store and is
    logged. *)
Definition pool_query {A} (tag : Statement) (run : Db -> outcome A * Db) : M A :=
  fun w =>
    let (o, d) := run (store w) in
    (o, {| store := d; sent := sent w ++ [tag] |}).

Declare Scope handler_scope.
Delimit Scope handler_scope with handler.

Notation "'let*' x ':=' m 'in' k" := (bind m (fun x => k))
  (at level 10, x name, m at level 100, k at level 200) : handler_scope.

Local Open Scope handler_scope.

(** Running a handler against a store, with an empty log. *)
Definition run {A} (m : M A) (d : Db) : outcome A * World :=
  m {| store := d; sent := [] |}.

(** A SELECT reads the store and leaves it as it is. *)
Definition reading {A} (rows : Db -> list A) : Db -> outcome (list A) * Db :=
  fun d => (Value (rows d), d).

(** A text parameter that holds a NUL character never reaches the
    statement: PostgreSQL refuses it ("invalid byte sequence for encoding
    UTF8: 0x00") and the promise is rejected.  A path parameter can hold
    one: Express decodes [%00]. *)
Fixpoint string_has_nul (s : string) : bool :=
  match s with
  | EmptyString => false
  | String a r => (N_of_ascii a =? 0)%N || string_has_nul r
  end.

(* --------------------------------------------------------------------- *)
(** *** Responses *)
(* --------------------------------------------------------------------- *)

(** [paymentDetails.amount]: a NUMERIC column value, or the literal
    [5000] of the default object. *)
Inductive JsAmount : Type :=
| Numeric (hundredths : Z)
| Number (n : Z).

(** The JSON bodies the handlers send, one constructor per shape. *)
Inductive Body : Type :=
| Failure (message : string)
| FailureWith (message : string) (error : exn)
| FieldErrors (errors : list (string * string))
| ContactStored (message : string) (data : option Contact)
| LinkStatus (active : option bool)
| LinkUpdated (message : string) (paymentLink : PaymentLink)
| LinkIssued (link : string) (token : string) (expiresAt : Z)
| ClientDetails (client : Client) (clientName : text) (clientId : Z)
    (projectName : text) (amount : JsAmount) (dueDate : Z)
| OnePayment (payment : PaymentRegistration)
| Payments (payments : list PaymentRegistration).

(** [res.status(n).json(body)] *)
Record Response := mkResponse {
  status : Z;
  body : Body
}.

(* ===================================================================== *)
(** ** Client links: issuance and verification *)
(* ===================================================================== *)

Definition opt_is_true (b : option bool) : bool :=
  match b with
  | Some true => true
  | _ => false
  end.

(** [[
SELECT * FROM client_links
 WHERE token = $1 AND active = true AND expires_at > NOW()
]] *)
Definition is_usable (sql_now : Z) (token : string) (l : ClientLink) : bool :=
  String.eqb (cl_token l) token && opt_is_true (cl_active l)
  && (sql_now <? cl_expires_at l).

Definition usable_links (sql_now : Z) (token : string) (d : Db)
  : list ClientLink :=
  filter (is_usable sql_now token) (client_links d).

Definition select_usable_links (sql_now : Z) (token : string) (d : Db)
  : outcome (list ClientLink) * Db :=
  if string_has_nul token then (Raised invalid_byte_sequence, d)
  else (Value (usable_links sql_now token d), d).

(** [SELECT * FROM clients WHERE id = $1]; a NULL parameter selects
    nothing. *)
Definition select_client_by_id (id : option Z) (d : Db) : list Client :=
  match id with
  | None => []
  | Some i => filter (fun c => c_id c =? i) (clients d)
  end.

(** ORDER BY created_at DESC, as a stable insertion sort: rows with equal
    timestamps keep their heap order (PostgreSQL leaves their order open). *)
Fixpoint insert_desc {A} (key : A -> Z) (x : A) (l : list A) : list A :=
  match l with
  | [] => [x]
  | y :: r => if key y <=? key x then x :: l else y :: insert_desc key x r
  end.

Definition order_desc {A} (key : A -> Z) (l : list A) : list A :=
  fold_right (insert_desc key) [] l.

(** The decimal text node-postgres sends for a number parameter. *)
Definition decimal (z : Z) : text :=
  text_of_string (NilZero.string_of_int (Z.to_int z)).

(** [[
SELECT * FROM payment_registrations
 WHERE client_id = $1 ORDER BY created_at DESC LIMIT 1
]]
    [client_id] is VARCHAR: the integer key is compared as its decimal
    text. *)
Definition select_latest_payment (client_id : Z) (d : Db)
  : list PaymentRegistration :=
  firstn 1
    (order_desc pr_created_at
       (filter (fun p => text_eqb (pr_client_id p) (decimal client_id))
          (payment_registrations d))).

(** [expiresAt.setDate(expiresAt.getDate() + 1)] moves the wall clock one
    calendar day ahead: 86,400,000 ms on the scale of a TIMESTAMP column
    (a local time that a daylight-saving change skips aside). *)
Definition one_day : Z := 86400000.

(** [crypto.randomBytes(32).toString('hex')], on the bytes drawn. *)
Definition hex_digit (n : N) : ascii :=
  if (n <? 10)%N then ascii_of_N (48 + n) else ascii_of_N (87 + n).

Fixpoint hex (bytes : list Byte.byte) : string :=
  match bytes with
  | [] => EmptyString
  | b :: r =>
      let n := Byte.to_N b in
      String (hex_digit (n / 16)) (String (hex_digit (n mod 16)) (hex r))
  end.

(** Some row already holds the token (the UNIQUE constraint). *)
Definition token_taken (token : string) (d : Db) : bool :=
  existsb (fun l => String.eqb (cl_token l) token) (client_links d).

(** The key is NULL or the key of a client (the REFERENCES constraint). *)
Definition client_exists (id : option Z) (d : Db) : bool :=
  match id with
  | None => true
  | Some i => existsb (fun c => c_id c =? i) (clients d)
  end.

Definition next_client_link_id (d : Db) : Db :=
  {| contacts := contacts d;
     contacts_id_seq := contacts_id_seq d;
     payment_registrations := payment_registrations d;
     payment_links := payment_links d;
     payment_links_has_active := payment_links_has_active d;
     clients := clients d;
     client_links := client_links d;
     client_links_id_seq := client_links_id_seq d + 1 |}.

Definition add_client_link (row : ClientLink) (d : Db) : Db :=
  {| contacts := contacts d;
     contacts_id_seq := contacts_id_seq d;
     payment_registrations := payment_registrations d;
     payment_links := payment_links d;
     payment_links_has_active := payment_links_has_active d;
     clients := clients d;
     client_links := client_links d ++ [row];
     client_links_id_seq := client_links_id_seq d |}.

(** [[
INSERT INTO client_links (client_id, token, expires_at)
VALUES ($1, $2, $3) RETURNING *
]]
    [id] comes from the sequence, [active] and [created_at] from their
    DEFAULTs.  The statement is rejected when the token does not fit
    VARCHAR(100), when a row already holds the token (UNIQUE), or when
    [client_id] is not NULL and no client has that key (REFERENCES).  An
    INSERT that the UNIQUE or REFERENCES check rejects has already drawn
    its key from the sequence. *)
Definition insert_client_link (sql_now : Z) (client_id : option Z)
  (token : string) (expires_at : Z) (d : Db) : outcome (list ClientLink) * Db :=
  let d' := next_client_link_id d in
  if (100 <? String.length token)%nat then (Raised string_data_right_truncation, d)
  else if token_taken token d then (Raised unique_violation, d')
  else if negb (client_exists client_id d) then (Raised foreign_key_violation, d')
  else
    let row := {| cl_id := client_links_id_seq d;
                  cl_client_id := client_id;
                  cl_token := token;
                  cl_active := Some true;
                  cl_created_at := sql_now;
                  cl_expires_at := expires_at |} in
    (Value [row], add_client_link row d').

(** [POST /api/admin/client-links].  [clientId] is the number in the
    request body, or nothing; [entropy] is what [crypto.randomBytes(32)]
    returned. *)
Definition post_admin_client_links (date_now sql_now : Z)
  (entropy : list Byte.byte) (clientId : option Z) : M Response :=
  let token := hex entropy in
  let expiresAt := date_now + one_day in
  try_catch
    (let* result := pool_query InsertClientLink
                      (insert_client_link sql_now clientId token expiresAt) in
     ret (mkResponse 201
            (LinkIssued
               ("https://www.zorvixetechnologies.com/payment/" ++ token)%string
               token expiresAt)))
    (fun error => ret (mkResponse 500 (Failure "Failed to generate link"))).

Definition link_not_found : Response :=
  mkResponse 404 (Failure "Link not found or expired").

Definition seven_days : Z := 7 * 24 * 60 * 60 * 1000.

(** [a || b] on a string column value. *)
Definition or_else (a : text) (b : text) : text :=
  match a with
  | [] => b
  | _ => a
  end.

(** [GET /api/client-details/:token] *)
Definition get_client_details (date_now sql_now : Z) (token : string)
  : M Response :=
  try_catch
    (let* linkResult := pool_query SelectClientLinkByToken
                          (select_usable_links sql_now token) in
     match linkResult with
     | [] => ret link_not_found
     | link :: _ =>
         let* clientResult := pool_query SelectClientById
                                (reading (select_client_by_id (cl_client_id link))) in
         match clientResult with
         | [] => ret (mkResponse 404 (Failure "Client not found"))
         | client :: _ =>
             let* paymentResult := pool_query SelectLatestPaymentOfClient
                                     (reading (select_latest_payment (c_id client))) in
             ret (mkResponse 200
                    match paymentResult with
                    | p :: _ =>
                        ClientDetails client (c_name client) (c_id client)
                          (or_else (pr_project_name p) (text_of_string "New Project"))
                          (Numeric (pr_amount p)) (pr_due_date p)
                    | [] =>
                        ClientDetails client (c_name client) (c_id client)
                          (text_of_string "New Project")
                          (Number 5000) (date_now + seven_days)
                    end)
         end
     end)
    (fun error => ret (mkResponse 500 (Failure "Failed to fetch client details"))).

(* ===================================================================== *)
(** ** The legacy payment link *)
(* ===================================================================== *)

(** [SELECT * FROM payment_links WHERE token = $1] *)
Definition links_with_token (token : string) (d : Db) : list PaymentLink :=
  filter (fun r => String.eqb (pl_token r) token) (payment_links d).

Definition select_payment_links (token : string) (d : Db)
  : outcome (list PaymentLink) * Db :=
  if string_has_nul token then (Raised invalid_byte_sequence, d)
  else (Value (links_with_token token d), d).

Definition payment_link_not_found : Response :=
  mkResponse 404 (Failure "Payment link not found").

Module Revision1.

(** [GET /api/payment-link/:token], first revision: answers with the
    stored flag. *)
Definition get_payment_link (token : string) : M Response :=
  try_catch
    (let* result := pool_query SelectPaymentLinkByToken
                      (select_payment_links token) in
     match result with
     | [] => ret payment_link_not_found
     | row :: _ => ret (mkResponse 200 (LinkStatus (pl_active row)))
     end)
    (fun error => ret (mkResponse 500 (Failure "Failed to fetch link status"))).

End Revision1.

Module Revision2.

(** [GET /api/payment-link/:token], second revision: "Always return
    active: true". *)
Definition get_payment_link (token : string) : M Response :=
  try_catch
    (let* result := pool_query SelectPaymentLinkByToken
                      (select_payment_links token) in
     match result with
     | [] => ret payment_link_not_found
     | row :: _ => ret (mkResponse 200 (LinkStatus (Some true)))
     end)
    (fun error => ret (mkResponse 500 (Failure "Failed to fetch link status"))).

End Revision2.

Definition set_active (active : option bool) (r : PaymentLink) : PaymentLink :=
  {| pl_id := pl_id r;
     pl_token := pl_token r;
     pl_active := active;
     pl_created_at := pl_created_at r |}.

Definition with_payment_links (rows : list PaymentLink) (d : Db) : Db :=
  {| contacts := contacts d;
     contacts_id_seq := contacts_id_seq d;
     payment_registrations := payment_registrations d;
     payment_links := rows;
     payment_links_has_active := payment_links_has_active d;
     clients := clients d;
     client_links := client_links d;
     client_links_id_seq := client_links_id_seq d |}.

(** [[
UPDATE payment_links SET active = $1 WHERE token = $2 RETURNING *
]]
    The statement names the [active] column: it is rejected when the table
    has none, before its parameters are looked at.  A token with a NUL
    character is refused then. *)
Definition update_payment_link_active (active : option bool) (token : string)
  (d : Db) : outcome (list PaymentLink) * Db :=
  if payment_links_has_active d then
    if string_has_nul token then (Raised invalid_byte_sequence, d)
    else
      let rows :=
        map (fun r => if String.eqb (pl_token r) token then set_active active r else r)
          (payment_links d) in
      (Value (filter (fun r => String.eqb (pl_token r) token) rows),
       with_payment_links rows d)
  else (Raised undefined_column, d).

Definition truthy (b : option bool) : bool := opt_is_true b.

(** [PUT /api/admin/payment-link/:token], the same text in both
    revisions.  [active] is the boolean of the request body, or nothing. *)
Definition put_admin_payment_link (token : string) (active : option bool)
  : M Response :=
  try_catch
    (let* result := pool_query UpdatePaymentLinkActive
                      (update_payment_link_active active token) in
     match result with
     | [] => ret payment_link_not_found
     | row :: _ =>
         ret (mkResponse 200
                (LinkUpdated
                   (if truthy active then "Link activated" else "Link deactivated")
                   row))
     end)
    (fun error => ret (mkResponse 500 (Failure "Failed to update link status"))).

(* ===================================================================== *)
(** ** The contact form *)
(* ===================================================================== *)

Record ContactForm := mkContactForm {
  name : field;
  email : field;
  phone : field;
  subject : field;
  message : field
}.

(** [!x || x.trim().length < n] *)
Definition too_short (n : nat) (x : field) : bool :=
  match x with
  | None => true
  | Some s => falsy x || (js_length (trim s) <? n)%nat
  end.

(** [!x || !re.test(x)] *)
Definition fails_test (re : regex) (x : field) : bool :=
  match x with
  | None => true
  | Some s => falsy x || negb (regex_test re s)
  end.

(** [if (cond) errors.key = msg] *)
Definition set_error (cond : bool) (key msg : string)
  (errors : list (string * string)) : list (string * string) :=
  if cond then errors ++ [(key, msg)] else errors.

Definition validate (f : ContactForm) : list (string * string) :=
  let errors := [] in
  let errors := set_error (too_short 3 (name f)) "name"
                  "Name must be at least 3 characters" errors in
  let errors := set_error (fails_test email_regex (email f)) "email"
                  "Valid email is required" errors in
  let errors := set_error (fails_test phone_regex (phone f)) "phone"
                  "Valid 10-digit phone number starting with 6-9 is required" errors in
  let errors := set_error (falsy (subject f)) "subject"
                  "Please select a service" errors in
  let errors := set_error (too_short 10 (message f)) "message"
                  "Message must be at least 10 characters" errors in
  errors.

(** What PostgreSQL does with a text parameter: a NUL character is
    refused; a VARCHAR(n) column refuses a longer value unless the excess
    is all spaces, which it cuts off. *)
Definition has_nul (s : text) : bool := existsb (N.eqb 0) s.

Definition varchar (n : nat) (s : text) : option text :=
  if (List.length s <=? n)%nat then Some s
  else if forallb (N.eqb 32) (skipn n s) then Some (firstn n s)
  else None.

Definition next_contact_id (d : Db) : Db :=
  {| contacts := contacts d;
     contacts_id_seq := contacts_id_seq d + 1;
     payment_registrations := payment_registrations d;
     payment_links := payment_links d;
     payment_links_has_active := payment_links_has_active d;
     clients := clients d;
     client_links := client_links d;
     client_links_id_seq := client_links_id_seq d |}.

Definition add_contact (row : Contact) (d : Db) : Db :=
  {| contacts := contacts d ++ [row];
     contacts_id_seq := contacts_id_seq d + 1;
     payment_registrations := payment_registrations d;
     payment_links := payment_links d;
     payment_links_has_active := payment_links_has_active d;
     clients := clients d;
     client_links := client_links d;
     client_links_id_seq := client_links_id_seq d |}.

(** [[
INSERT INTO contacts (name, email, phone, subject, message)
VALUES ($1, $2, $3, $4, $5) RETURNING *
]] *)
Definition insert_contact (sql_now : Z) (f : ContactForm) (d : Db)
  : outcome (list Contact) * Db :=
  match name f, email f, phone f, subject f, message f with
  | Some n, Some e, Some p, Some s, Some m =>
      if has_nul n || has_nul e || has_nul p || has_nul s || has_nul m
      then (Raised invalid_byte_sequence, d)
      else
        match varchar 100 n, varchar 100 e, varchar 20 p, varchar 100 s with
        | Some n', Some e', Some p', Some s' =>
            let row := {| ct_id := contacts_id_seq d;
                          ct_name := n';
                          ct_email := e';
                          ct_phone := p';
                          ct_subject := s';
                          ct_message := m;
                          ct_created_at := sql_now |} in
            (Value [row], add_contact row d)
        | _, _, _, _ => (Raised string_data_right_truncation, d)
        end
  | _, _, _, _, _ => (Raised not_null_violation, next_contact_id d)
  end.

(** [POST /api/contact/submit] *)
Definition post_contact_submit (sql_now : Z) (f : ContactForm) : M Response :=
  let errors := validate f in
  match errors with
  | _ :: _ => ret (mkResponse 400 (FieldErrors errors))
  | [] =>
      try_catch
        (let* result := pool_query InsertContact (insert_contact sql_now f) in
         ret (mkResponse 201
                (ContactStored "Form submitted successfully" (hd_error result))))
        (fun error => ret (mkResponse 500 (FailureWith "Failed to submit form" error)))
  end.

(* ===================================================================== *)
(** ** Payment reference identifiers *)
(* ===================================================================== *)

Definition upper_ascii (a : ascii) : ascii :=
  let n := nat_of_ascii a in
  if ((97 <=? n) && (n <=? 122))%nat then ascii_of_nat (n - 32) else a.

Fixpoint toUpperCase (s : string) : string :=
  match s with
  | EmptyString => EmptyString
  | String a r => String (upper_ascii a) (toUpperCase r)
  end.

(** [s.substr(start, len)] for a start inside or past the string: the
    characters from [start], at most [len] of them. *)
Definition substr (start len : nat) (s : string) : string :=
  substring start len s.

Definition decimal_string (z : Z) : string := NilZero.string_of_int (Z.to_int z).

(** The first three statements of [POST /api/payment/submit]:
    [[
const year = new Date().getFullYear();
const randomString = Math.random().toString(36).substr(2, 6).toUpperCase();
const referenceId = `PAY-${year}-${randomString}`;
    ]]
    [year] is what [getFullYear()] returned and [random36] the string that
    [Math.random().toString(36)] returned: the base-36 rendering of a
    double in [0, 1), such as "0.4fzyo82mvyr", "0.i" (for 0.5) or "0". *)
Definition randomString (random36 : string) : string :=
  toUpperCase (substr 2 6 random36).

Definition referenceId (year : Z) (random36 : string) : string :=
  ("PAY-" ++ decimal_string year ++ "-" ++ randomString random36)%string.

(** The format of the comment [PAY-YYYY-RANDOM6] on a generated suffix. *)
Definition is_upper_alnum (a : ascii) : bool :=
  let n := nat_of_ascii a in
  ((48 <=? n) && (n <=? 57) || (65 <=? n) && (n <=? 90))%nat.

Fixpoint all_chars (p : ascii -> bool) (s : string) : bool :=
  match s with
  | EmptyString => true
  | String a r => p a && all_chars p r
  end.

Definition is_random6 (s : string) : bool :=
  (String.length s =? 6)%nat && all_chars is_upper_alnum s.

(** A base-36 rendering of a number in [0, 1): "0", or "0." and at least
    one digit out of [0-9a-z]. *)
Definition is_base36_digit (a : ascii) : bool :=
  let n := nat_of_ascii a in
  ((48 <=? n) && (n <=? 57) || (97 <=? n) && (n <=? 122))%nat.

Definition is_rendering (s : string) : bool :=
  match s with
  | String "0" EmptyString => true
  | String "0" (String "." (String a r)) => all_chars is_base36_digit (String a r)
  | _ => false
  end.

(* ===================================================================== *)
(** ** Payment registrations: lookup and search *)
(* ===================================================================== *)

(** The text of an INTEGER parameter, as PostgreSQL reads it from version
    16 on ([pg_strtoint32_safe]): blanks, an optional sign, then decimal
    digits or a literal with prefix [0x], [0o] or [0b], where single
    underscores may stand between digits; then blanks.  The digits are
    accumulated from left to right, and a value that leaves the 32-bit
    range is reported at the digit where it does, before the rest of the
    text is looked at.  (Before version 16 only the decimal form is read;
    on decimal text without underscores all versions agree.) *)
Definition is_c_space (c : N) : bool := ((9 <=? c) && (c <=? 13) || (c =? 32))%N.

Fixpoint drop_blanks (s : text) : text :=
  match s with
  | [] => []
  | c :: r => if is_c_space c then drop_blanks r else s
  end.

Definition decimal_digit (c : N) : option Z :=
  if is_digit c then Some (Z.of_N c - 48) else None.

Definition hex_digit_value (c : N) : option Z :=
  if is_digit c then Some (Z.of_N c - 48)
  else if ((97 <=? c) && (c <=? 102))%N then Some (Z.of_N c - 87)
  else if ((65 <=? c) && (c <=? 70))%N then Some (Z.of_N c - 55)
  else None.

Definition octal_digit (c : N) : option Z :=
  if ((48 <=? c) && (c <=? 55))%N then Some (Z.of_N c - 48) else None.

Definition binary_digit (c : N) : option Z :=
  if ((48 <=? c) && (c <=? 49))%N then Some (Z.of_N c - 48) else None.

Inductive scan : Type :=
| Scanned (tmp : Z) (rest : text)
| ScanInvalid
| ScanOutOfRange.

(** The digit loop.  [at_first] says that no character has been consumed
    yet; [underscore_first] that an underscore may open the digits (it may
    after a prefix, not in the decimal form).  An underscore must be
    followed by a digit.  At least one character must be consumed. *)
Fixpoint scan_digits (digit : N -> option Z) (base : Z)
  (underscore_first at_first : bool) (tmp : Z) (s : text) : scan :=
  match s with
  | [] => if at_first then ScanInvalid else Scanned tmp []
  | c :: r =>
      match digit c with
      | Some v =>
          if 2147483648 / base <? tmp then ScanOutOfRange
          else scan_digits digit base underscore_first false (tmp * base + v) r
      | None =>
          if (c =? 95)%N then
            if at_first && negb underscore_first then ScanInvalid
            else
              match r with
              | n :: _ =>
                  match digit n with
                  | Some _ => scan_digits digit base underscore_first false tmp r
                  | None => ScanInvalid
                  end
              | [] => ScanInvalid
              end
          else if at_first then ScanInvalid
          else Scanned tmp s
      end
  end.

Inductive int4_text : Type :=
| Int4 (n : Z)
| InvalidSyntax
| OutOfRange.

Definition pg_strtoint32 (s : text) : int4_text :=
  let s1 := drop_blanks s in
  let signed := match s1 with
                | 45%N :: r => (true, r)
                | 43%N :: r => (false, r)
                | _ => (false, s1)
                end in
  let neg := fst signed in
  let s2 := snd signed in
  let scanned :=
    match s2 with
    | 48%N :: p :: r =>
        if ((p =? 120) || (p =? 88))%N then
          scan_digits hex_digit_value 16 true true 0 r
        else if ((p =? 111) || (p =? 79))%N then
          scan_digits octal_digit 8 true true 0 r
        else if ((p =? 98) || (p =? 66))%N then
          scan_digits binary_digit 2 true true 0 r
        else scan_digits decimal_digit 10 false true 0 s2
    | _ => scan_digits decimal_digit 10 false true 0 s2
    end in
  match scanned with
  | ScanInvalid => InvalidSyntax
  | ScanOutOfRange => OutOfRange
  | Scanned tmp rest =>
      match drop_blanks rest with
      | _ :: _ => InvalidSyntax
      | [] =>
          if neg then
            if 2147483648 <? tmp then OutOfRange else Int4 (- tmp)
          else
            if 2147483647 <? tmp then OutOfRange else Int4 tmp
      end
  end.

(** A path segment sent as an INTEGER parameter: refused for a NUL
    character, then read as above. *)
Definition int4_parameter (s : string) : outcome Z :=
  if string_has_nul s then Raised invalid_byte_sequence
  else
    match pg_strtoint32 (text_of_string s) with
    | Int4 n => Value n
    | InvalidSyntax => Raised invalid_text_representation
    | OutOfRange => Raised numeric_value_out_of_range
    end.

(** The integer that the parameter stands for, when it is accepted. *)
Definition pg_int4_in (s : string) : option Z :=
  match int4_parameter s with
  | Value n => Some n
  | Raised _ => None
  end.

(** [SELECT * FROM payment_registrations WHERE id = $1] with the path
    segment as the parameter. *)
Definition select_payment_by_id (id : string) (d : Db)
  : outcome (list PaymentRegistration) * Db :=
  match int4_parameter id with
  | Value n => (Value (filter (fun p => pr_id p =? n) (payment_registrations d)), d)
  | Raised e => (Raised e, d)
  end.

(** [GET /api/admin/payments/:id] *)
Definition get_admin_payment_by_id (id : string) : M Response :=
  try_catch
    (let* result := pool_query SelectPaymentById (select_payment_by_id id) in
     match result with
     | [] => ret (mkResponse 404 (Failure "Payment registration not found"))
     | row :: _ => ret (mkResponse 200 (OnePayment row))
     end)
    (fun error =>
       ret (mkResponse 500 (FailureWith "Failed to fetch payment registration" error))).

(** A LIKE pattern: [%] stands for any run of characters, [_] for one
    character, and a backslash makes the next character literal; a pattern
    that ends in a lone backslash is an error. *)
Inductive like_token : Type :=
| AnyRun
| AnyOne
| Lit (c : N).

Fixpoint like_parse (p : text) : option (list like_token) :=
  match p with
  | [] => Some []
  | c :: r =>
      if (c =? 92)%N then
        match r with
        | [] => None
        | e :: r' => option_map (cons (Lit e)) (like_parse r')
        end
      else if (c =? 37)%N then option_map (cons AnyRun) (like_parse r)
      else if (c =? 95)%N then option_map (cons AnyOne) (like_parse r)
      else option_map (cons (Lit c)) (like_parse r)
  end.

Section Search.

(** The lower-casing of the database locale, which ILIKE applies to both
    sides. *)
Variable lower : N -> N.

Fixpoint like_match (p : list like_token) (s : text) : bool :=
  match p with
  | [] => match s with [] => true | _ => false end
  | AnyRun :: p' =>
      (fix from (s : text) : bool :=
         like_match p' s ||
         match s with
         | [] => false
         | _ :: s' => from s'
         end) s
  | AnyOne :: p' =>
      match s with
      | [] => false
      | _ :: s' => like_match p' s'
      end
  | Lit c :: p' =>
      match s with
      | [] => false
      | x :: s' => (lower x =? lower c)%N && like_match p' s'
      end
  end.

(** [[
client_name ILIKE $1 OR project_name ILIKE $1
 OR client_id ILIKE $1 OR reference_id ILIKE $1
]] *)
Definition search_hit (p : list like_token) (r : PaymentRegistration) : bool :=
  like_match p (pr_client_name r) || like_match p (pr_project_name r)
  || like_match p (pr_client_id r) || like_match p (pr_reference_id r).

(** [[
SELECT * FROM payment_registrations WHERE ... ORDER BY created_at DESC LIMIT 20
]]
    A search term with a NUL character is refused. *)
Definition search_payments (searchTerm : text) (d : Db)
  : outcome (list PaymentRegistration) * Db :=
  if has_nul searchTerm then (Raised invalid_byte_sequence, d)
  else
    match like_parse searchTerm with
    | Some p =>
        (Value (firstn 20
                  (order_desc pr_created_at
                     (filter (search_hit p) (payment_registrations d)))), d)
    | None => (Raised invalid_text_representation, d)
    end.

(** [req.query.query]: missing, a string, or (for a repeated or bracketed
    parameter) an array or object, which has no [trim] method. *)
Inductive QueryParam : Type :=
| QMissing
| QString (s : text)
| QNested.

Definition percent : N := 37%N.

(** The handler registered for [GET /api/admin/payments/search]. *)
Definition get_admin_payments_search (query : QueryParam) : M Response :=
  try_catch
    (match query with
     | QMissing =>
         ret (mkResponse 400 (Failure "Search query must be at least 3 characters"))
     | QNested => throw TypeError
     | QString q =>
         if too_short 3 (Some q) then
           ret (mkResponse 400 (Failure "Search query must be at least 3 characters"))
         else
           let searchTerm := [percent] ++ q ++ [percent] in
           let* result := pool_query SearchPayments (search_payments searchTerm) in
           ret (mkResponse 200 (Payments result))
     end)
    (fun error =>
       ret (mkResponse 500
              (FailureWith "Failed to search payment registrations" error))).

End Search.

(* ===================================================================== *)
(** ** Routing *)
(* ===================================================================== *)

Inductive Method : Type := GET | POST | PUT.

Definition method_eqb (a b : Method) : bool :=
  match a, b with
  | GET, GET | POST, POST | PUT, PUT => true
  | _, _ => false
  end.

(** A segment of a route path: literal text, or a named parameter
    [:name]. *)
Inductive Segment : Type :=
| Exact (s : string)
| Param (p : string).

Inductive Endpoint : Type :=
| Health
| GetPaymentLink
| PutAdminPaymentLink
| PostContactSubmit
| GetContacts
| PostPaymentSubmit
| GetAdminPayments
| GetAdminPaymentById
| PutAdminPaymentStatus
| GetAdminPaymentsSearch
| GetAdminPaymentLink
| PostAdminClients
| GetAdminClients
| PostAdminClientLinks
| GetClientDetails.

(** The [app.get], [app.post] and [app.put] calls of the second revision,
    in the order they are made. *)
Definition routes : list (Method * list Segment * Endpoint) :=
  [ (GET, [Exact "health"], Health);
    (GET, [Exact "api"; Exact "payment-link"; Param "token"], GetPaymentLink);
    (PUT, [Exact "api"; Exact "admin"; Exact "payment-link"; Param "token"],
     PutAdminPaymentLink);
    (POST, [Exact "api"; Exact "contact"; Exact "submit"], PostContactSubmit);
    (GET, [Exact "api"; Exact "contacts"], GetContacts);
    (POST, [Exact "api"; Exact "payment"; Exact "submit"], PostPaymentSubmit);
    (GET, [Exact "api"; Exact "admin"; Exact "payments"], GetAdminPayments);
    (GET, [Exact "api"; Exact "admin"; Exact "payments"; Param "id"],
     GetAdminPaymentById);
    (PUT, [Exact "api"; Exact "admin"; Exact "payments"; Param "id"; Exact "status"],
     PutAdminPaymentStatus);
    (GET, [Exact "api"; Exact "admin"; Exact "payments"; Exact "search"],
     GetAdminPaymentsSearch);
    (GET, [Exact "api"; Exact "admin"; Exact "payment-link"; Param "token"],
     GetAdminPaymentLink);
    (POST, [Exact "api"; Exact "admin"; Exact "clients"], PostAdminClients);
    (GET, [Exact "api"; Exact "admin"; Exact "clients"], GetAdminClients);
    (POST, [Exact "api"; Exact "admin"; Exact "client-links"], PostAdminClientLinks);
    (GET, [Exact "api"; Exact "client-details"; Param "token"], GetClientDetails) ].

(** A path, as its non-empty segments, against a route pattern.  Literal
    segments compare without regard to case (Express's default); a
    parameter takes any segment. *)
Fixpoint match_path (pattern : list Segment) (path : list string)
  : option (list (string * string)) :=
  match pattern, path with
  | [], [] => Some []
  | Exact s :: pattern', x :: path' =>
      if String.eqb (toUpperCase s) (toUpperCase x) then match_path pattern' path'
      else None
  | Param p :: pattern', x :: path' =>
      option_map (cons (p, x)) (match_path pattern' path')
  | _, _ => None
  end.

(** The first registered route that matches answers the request: none of
    the handlers calls [next]. *)
Fixpoint first_match (rs : list (Method * list Segment * Endpoint))
  (m : Method) (path : list string) : option (Endpoint * list (string * string)) :=
  match rs with
  | [] => None
  | (m', pattern, e) :: rs' =>
      if method_eqb m m' then
        match match_path pattern path with
        | Some params => Some (e, params)
        | None => first_match rs' m path
        end
      else first_match rs' m path
  end.

Definition dispatch : Method -> list string -> option (Endpoint * list (string * string)) :=
  first_match routes.

(* ===================================================================== *)
(** ** Vocabulary of the properties *)
(* ===================================================================== *)

(** A row answers for [token] at time [sql_now]. *)
Definition usable (sql_now : Z) (token : string) (l : ClientLink) : Prop :=
  cl_token l = token /\ cl_active l = Some true /\ sql_now < cl_expires_at l.

Definition client_not_found : Response :=
  mkResponse 404 (Failure "Client not found").

(** The 200 body for a client and the rows of the payment query. *)
Definition details_of (date_now : Z) (client : Client)
  (paymentResult : list PaymentRegistration) : Response :=
  mkResponse 200
    match paymentResult with
    | p :: _ =>
        ClientDetails client (c_name client) (c_id client)
          (or_else (pr_project_name p) (text_of_string "New Project"))
          (Numeric (pr_amount p)) (pr_due_date p)
    | [] =>
        ClientDetails client (c_name client) (c_id client)
          (text_of_string "New Project")
          (Number 5000) (date_now + seven_days)
    end.

Definition details_failed : Response :=
  mkResponse 500 (Failure "Failed to fetch client details").

Definition link_status_failed : Response :=
  mkResponse 500 (Failure "Failed to fetch link status").

(** A token as [/api/client-details/%00abc] carries it. *)
Definition nul_token : string := String Ascii.zero "abc".

(** The link check of the handler lets the token pass: the answer is not
    "Link not found or expired". *)
Definition verifies (d : Db) (date_now sql_now : Z) (token : string) : Prop :=
  fst (run (get_client_details date_now sql_now token) d) <> Value link_not_found.

(** The row an accepted issuance stores. *)
Definition issued_row (date_now sql_now : Z) (entropy : list Byte.byte)
  (clientId : option Z) (d : Db) : ClientLink :=
  {| cl_id := client_links_id_seq d;
     cl_client_id := clientId;
     cl_token := hex entropy;
     cl_active := Some true;
     cl_created_at := sql_now;
     cl_expires_at := date_now + one_day |}.

Definition issued_response (date_now : Z) (entropy : list Byte.byte) : Response :=
  mkResponse 201
    (LinkIssued
       ("https://www.zorvixetechnologies.com/payment/" ++ hex entropy)%string
       (hex entropy) (date_now + one_day)).

Definition issue_failed : Response :=
  mkResponse 500 (Failure "Failed to generate link").

(** The token that [initializeDb] seeds. *)
Definition legacy_token : string := "4vXcZpLmKjQ8aTyNfRbEoWg7HdUs29qT".

(** The store after the second revision's [initializeDb] on an empty
    database: [payment_links] is created without an [active] column and
    holds the seeded row; there is no client yet. *)
Definition fresh_db : Db :=
  {| contacts := [];
     contacts_id_seq := 1;
     payment_registrations := [];
     payment_links :=
       [ {| pl_id := 1; pl_token := legacy_token;
            pl_active := None; pl_created_at := 0 |} ];
     payment_links_has_active := false;
     clients := [];
     client_links := [];
     client_links_id_seq := 1 |}.

Definition zero_bytes : list Byte.byte := repeat Byte.x00 32.

(** The store after the first revision's [initializeDb]: the table has the
    [active] column and the seeded row is active. *)
Definition legacy_db : Db :=
  {| contacts := [];
     contacts_id_seq := 1;
     payment_registrations := [];
     payment_links :=
       [ {| pl_id := 1; pl_token := legacy_token;
            pl_active := Some true; pl_created_at := 0 |} ];
     payment_links_has_active := true;
     clients := [];
     client_links := [];
     client_links_id_seq := 1 |}.

(** The PUT handler on a table that has the [active] column. *)
Definition set_matching (active : option bool) (token : string)
  (rows : list PaymentLink) : list PaymentLink :=
  map (fun r => if String.eqb (pl_token r) token then set_active active r else r) rows.

Definition update_failed : Response :=
  mkResponse 500 (Failure "Failed to update link status").

(** The five checks of the handler, as propositions on the form. *)
Definition name_ok (f : ContactForm) : Prop :=
  exists s, name f = Some s /\ (3 <= js_length (trim s))%nat.
Definition email_ok (f : ContactForm) : Prop :=
  exists s, email f = Some s /\ regex_test email_regex s = true.
Definition phone_ok (f : ContactForm) : Prop :=
  exists s, phone f = Some s /\ regex_test phone_regex s = true.
Definition subject_ok (f : ContactForm) : Prop :=
  exists s, subject f = Some s /\ s <> [].
Definition message_ok (f : ContactForm) : Prop :=
  exists s, message f = Some s /\ (10 <= js_length (trim s))%nat.

(** What the store needs of a valid form: no NUL character, and name,
    email and subject within VARCHAR(100). *)
Definition storable (f : ContactForm) : Prop :=
  forall n e s m,
    name f = Some n -> email f = Some e -> subject f = Some s ->
    message f = Some m ->
    has_nul n = false /\ has_nul e = false /\ has_nul s = false
    /\ has_nul m = false
    /\ (List.length n <= 100)%nat /\ (List.length e <= 100)%nat
    /\ (List.length s <= 100)%nat.

Definition blank_name_form : ContactForm :=
  {| name := Some (text_of_string "   ");
     email := Some (text_of_string "asha@example.com");
     phone := Some (text_of_string "9876543210");
     subject := Some (text_of_string "Web Development");
     message := Some (text_of_string "Please call me back.") |}.

Definition long_name_form : ContactForm :=
  {| name := Some (repeat 97%N 101);
     email := Some (text_of_string "asha@example.com");
     phone := Some (text_of_string "9876543210");
     subject := Some (text_of_string "Web Development");
     message := Some (text_of_string "Please call me back.") |}.

Definition good_form : ContactForm :=
  {| name := Some (text_of_string "Asha Rao");
     email := Some (text_of_string "asha@example.com");
     phone := Some (text_of_string "9876543210");
     subject := Some (text_of_string "Web Development");
     message := Some (text_of_string "Please call me back.") |}.

Definition search_too_short : Response :=
  mkResponse 400 (Failure "Search query must be at least 3 characters").

Definition ascii_lower (c : N) : N :=
  if ((65 <=? c) && (c <=? 90))%N then (c + 32)%N else c.

Definition asha : Client :=
  {| c_id := 1;
     c_name := text_of_string "Asha Rao";
     c_email := text_of_string "asha@example.com";
     c_phone := text_of_string "9876543210";
     c_company := None;
     c_created_at := 0 |}.

Definition acme_payment : PaymentRegistration :=
  {| pr_id := 1;
     pr_client_name := text_of_string "ACME Traders";
     pr_project_name := text_of_string "Website";
     pr_client_id := text_of_string "1";
     pr_amount := 1250000;
     pr_due_date := 2000;
     pr_receipt_url := text_of_string "https://example.com/receipt.pdf";
     pr_reference_id := text_of_string "PAY-2025-4FZYO8";
     pr_status := text_of_string "pending";
     pr_created_at := 10 |}.

(** One client with a payment registration and three links: a live one, a
    deactivated one, and one that expires at time 100. *)
Definition sample_db : Db :=
  {| contacts := [];
     contacts_id_seq := 1;
     payment_registrations := [acme_payment];
     payment_links :=
       [ {| pl_id := 1; pl_token := legacy_token;
            pl_active := Some true; pl_created_at := 0 |} ];
     payment_links_has_active := true;
     clients := [asha];
     client_links :=
       [ {| cl_id := 1; cl_client_id := Some 1; cl_token := "live";
            cl_active := Some true; cl_created_at := 0; cl_expires_at := 1000 |};
         {| cl_id := 2; cl_client_id := Some 1; cl_token := "off";
            cl_active := Some false; cl_created_at := 0; cl_expires_at := 1000 |};
         {| cl_id := 3; cl_client_id := Some 1; cl_token := "old";
            cl_active := Some true; cl_created_at := 0; cl_expires_at := 100 |} ];
     client_links_id_seq := 4 |}.

Definition ff_bytes : list Byte.byte := repeat Byte.xff 32.

From Stdlib Require Import Sorted Permutation.

(* ===================================================================== *)
(** ** The other admin routes *)
(* ===================================================================== *)

(** A lower-case hexadecimal digit, [0-9a-f]. *)
Definition is_lower_hex (a : ascii) : bool :=
  let n := nat_of_ascii a in
  ((48 <=? n) && (n <=? 57) || (97 <=? n) && (n <=? 102))%nat.

(** The value of a hexadecimal digit. *)
Definition hex_value (a : ascii) : N :=
  let n := N_of_ascii a in
  if (n <? 58)%N then (n - 48)%N else (n - 87)%N.

(** [q] occurs in [s] as a run of consecutive characters, up to the
    lower-casing [lower]. *)
Definition occurs_in (lower : N -> N) (q s : text) : Prop :=
  exists pre mid suf, s = pre ++ mid ++ suf /\ map lower mid = map lower q.

(** A query without the LIKE metacharacters [%], [_] and backslash. *)
Definition is_plain (q : text) : bool :=
  forallb (fun c => negb ((c =? 92) || (c =? 37) || (c =? 95))%N) q.

(** A link refers to no client or to a client of the store. *)
Definition foreign_key_holds (d : Db) : Prop :=
  forall l, In l (client_links d) ->
    cl_client_id l = None
    \/ exists c, In c (clients d) /\ cl_client_id l = Some (c_id c).

(** [x] may stand before [y] in a list ordered by [key] descending. *)
Definition newest_first {A : Type} (key : A -> Z) (x y : A) : Prop :=
  key y <= key x.

(* --------------------------------------------------------------------- *)
(** *** State, errors and responses of these routes *)
(* --------------------------------------------------------------------- *)

(** The store together with the SERIAL sequence of [clients], which
    [POST /api/admin/clients] draws its keys from. *)
Record AdminStore := mkAdminStore {
  db : Db;
  clients_id_seq : Z
}.

(** The further ways in which PostgreSQL rejects the statements below. *)
Inductive admin_exn : Type :=
| Pg (e : exn)
| invalid_row_count_in_limit_clause
| invalid_row_count_in_result_offset_clause.

Inductive AdminStatement : Type :=
| SelectPaymentsPage
| UpdatePaymentStatus
| SelectPaymentLinkForAdmin
| InsertClient
| SelectClientsWithLinks
| SelectContacts.

Inductive result (A : Type) : Type :=
| Done : A -> result A
| Failed : admin_exn -> result A.

Arguments Done {A} _.
Arguments Failed {A} _.

Record AdminWorld := mkAdminWorld {
  a_store : AdminStore;
  a_sent : list AdminStatement
}.

Definition AM (A : Type) : Type := AdminWorld -> result A * AdminWorld.

Definition a_ret {A} (a : A) : AM A := fun w => (Done a, w).

Definition a_bind {A B} (m : AM A) (k : A -> AM B) : AM B :=
  fun w =>
    match m w with
    | (Done a, w') => k a w'
    | (Failed e, w') => (Failed e, w')
    end.

(** [try { m } catch (error) { h error }] *)
Definition a_try_catch {A} (m : AM A) (h : admin_exn -> AM A) : AM A :=
  fun w =>
    match m w with
    | (Done a, w') => (Done a, w')
    | (Failed e, w') => h e w'
    end.

(** [await pool.query(...)] *)
Definition a_pool_query {A} (tag : AdminStatement)
  (run : AdminStore -> result A * AdminStore) : AM A :=
  fun w =>
    let (o, s) := run (a_store w) in
    (o, {| a_store := s; a_sent := a_sent w ++ [tag] |}).

Notation "'let+' x ':=' m 'in' k" := (a_bind m (fun x => k))
  (at level 10, x name, m at level 100, k at level 200) : handler_scope.

Definition a_run {A} (m : AM A) (s : AdminStore) : result A * AdminWorld :=
  m {| a_store := s; a_sent := [] |}.

(** A SELECT on the tables of [Db]. *)
Definition a_reading {A} (rows : Db -> list A)
  : AdminStore -> result (list A) * AdminStore :=
  fun s => (Done (rows (db s)), s).

(** A row of [GET /api/admin/clients]: the client's columns and the three
    columns taken from the joined link, NULL when no link joins. *)
Record ClientListing := mkClientListing {
  listed_client : Client;
  active_token : option string;
  token_expiry : option Z;
  token_active : option bool
}.

(** An element of the array of [GET /api/contacts]: the row with
    [created_at] replaced by its [toLocaleString()] text. *)
Record ContactView := mkContactView {
  cv_id : Z;
  cv_name : text;
  cv_email : text;
  cv_phone : text;
  cv_subject : text;
  cv_message : text;
  cv_created_at : string
}.

Inductive AdminBody : Type :=
| AFailure (message : string)
| AFailureWith (message : string) (error : admin_exn)
| PaymentPage (payments : list PaymentRegistration) (total : Z)
    (totalPages : option Z) (currentPage : Z) (limit : Z)
| StatusUpdated (message : string) (payment : PaymentRegistration)
| PaymentLinkFound (paymentLink : PaymentLink)
| ClientCreated (client : option Client)
| ClientList (clients : list ClientListing)
| ContactList (contacts : list ContactView).

Record AdminResponse := mkAdminResponse {
  a_status : Z;
  a_body : AdminBody
}.

(* --------------------------------------------------------------------- *)
(** *** The legacy link, for the admin panel *)
(* --------------------------------------------------------------------- *)

(** [SELECT * FROM payment_links WHERE token = $1], from these routes. *)
Definition select_payment_link_for_admin (token : string) (s : AdminStore)
  : result (list PaymentLink) * AdminStore :=
  if string_has_nul token then (Failed (Pg invalid_byte_sequence), s)
  else (Done (links_with_token token (db s)), s).

(** [GET /api/admin/payment-link/:token] *)
Definition get_admin_payment_link (token : string) : AM AdminResponse :=
  a_try_catch
    (let+ result := a_pool_query SelectPaymentLinkForAdmin
                      (select_payment_link_for_admin token) in
     match result with
     | [] => a_ret (mkAdminResponse 404 (AFailure "Payment link not found"))
     | row :: _ => a_ret (mkAdminResponse 200 (PaymentLinkFound row))
     end)
    (fun error =>
       a_ret (mkAdminResponse 500 (AFailure "Failed to fetch payment link"))).

(* --------------------------------------------------------------------- *)
(** *** The status of a payment registration *)
(* --------------------------------------------------------------------- *)

(** [['pending', 'verified', 'rejected'].includes(status)] *)
Definition allowed_statuses : list text :=
  [text_of_string "pending"; text_of_string "verified"; text_of_string "rejected"].

Definition includes (l : list text) (x : field) : bool :=
  match x with
  | Some s => existsb (text_eqb s) l
  | None => false
  end.

Definition set_status (status : text) (p : PaymentRegistration)
  : PaymentRegistration :=
  {| pr_id := pr_id p;
     pr_client_name := pr_client_name p;
     pr_project_name := pr_project_name p;
     pr_client_id := pr_client_id p;
     pr_amount := pr_amount p;
     pr_due_date := pr_due_date p;
     pr_receipt_url := pr_receipt_url p;
     pr_reference_id := pr_reference_id p;
     pr_status := status;
     pr_created_at := pr_created_at p |}.

Definition with_payment_registrations (rows : list PaymentRegistration) (d : Db)
  : Db :=
  {| contacts := contacts d;
     contacts_id_seq := contacts_id_seq d;
     payment_registrations := rows;
     payment_links := payment_links d;
     payment_links_has_active := payment_links_has_active d;
     clients := clients d;
     client_links := client_links d;
     client_links_id_seq := client_links_id_seq d |}.

Definition on_db (f : Db -> Db) (s : AdminStore) : AdminStore :=
  {| db := f (db s); clients_id_seq := clients_id_seq s |}.

(** [[
UPDATE payment_registrations SET status = $1 WHERE id = $2 RETURNING *
]]
    with the path segment as [$2].  The handler only sends one of the
    three allowed words, which fit VARCHAR(20). *)
Definition update_payment_status (status : text) (id : string) (s : AdminStore)
  : result (list PaymentRegistration) * AdminStore :=
  match int4_parameter id with
  | Raised e => (Failed (Pg e), s)
  | Value n =>
      let rows :=
        map (fun p => if pr_id p =? n then set_status status p else p)
          (payment_registrations (db s)) in
      (Done (filter (fun p => pr_id p =? n) rows),
       on_db (with_payment_registrations rows) s)
  end.

(** [PUT /api/admin/payments/:id/status] *)
Definition put_admin_payment_status (id : string) (status : field)
  : AM AdminResponse :=
  a_try_catch
    (match status with
     | Some st =>
         if negb (includes allowed_statuses status) then
           a_ret (mkAdminResponse 400 (AFailure "Invalid status value"))
         else
           let+ result := a_pool_query UpdatePaymentStatus
                            (update_payment_status st id) in
           match result with
           | [] => a_ret (mkAdminResponse 404
                            (AFailure "Payment registration not found"))
           | row :: _ =>
               a_ret (mkAdminResponse 200
                        (StatusUpdated "Payment status updated" row))
           end
     | None => a_ret (mkAdminResponse 400 (AFailure "Invalid status value"))
     end)
    (fun error =>
       a_ret (mkAdminResponse 500
                (AFailureWith "Failed to update payment status" error))).

(* --------------------------------------------------------------------- *)
(** *** The paginated list of payment registrations *)
(* --------------------------------------------------------------------- *)

(** [page] and [limit] of [req.query], each missing or the canonical
    decimal text of an integer, given here as that integer.  JavaScript
    computes with them as numbers; the integers are taken to be small
    enough (see [js_exact]) for that arithmetic to be exact. *)
Definition or_default (x : option Z) (d : Z) : Z :=
  match x with
  | Some v => v
  | None => d
  end.

Definition field_has_nul (x : field) : bool :=
  match x with
  | Some t => has_nul t
  | None => false
  end.

(** [status && status !== 'all']: the status to filter on, if any. *)
Definition status_filter (status : field) : option text :=
  match status with
  | Some s =>
      if falsy status || text_eqb s (text_of_string "all") then None else Some s
  | None => None
  end.

Definition with_status (wanted : option text) (rows : list PaymentRegistration)
  : list PaymentRegistration :=
  match wanted with
  | Some st => filter (fun p => text_eqb (pr_status p) st) rows
  | None => rows
  end.

(** [[
SELECT *, COUNT( * ) OVER() AS total_count FROM payment_registrations
 [WHERE status = $1] ORDER BY created_at DESC LIMIT $n OFFSET $m
]]
    Every returned row carries the number of rows that pass the WHERE
    clause.  A NUL character in the parameter and a negative OFFSET or
    LIMIT are errors. *)
Definition select_payments_page (wanted : option text) (limit offset : Z)
  (s : AdminStore) : result (list (PaymentRegistration * Z)) * AdminStore :=
  if field_has_nul wanted then (Failed (Pg invalid_byte_sequence), s)
  else
    let matching := with_status wanted (payment_registrations (db s)) in
    if offset <? 0 then (Failed invalid_row_count_in_result_offset_clause, s)
    else if limit <? 0 then (Failed invalid_row_count_in_limit_clause, s)
    else
      (Done (map (fun p => (p, Z.of_nat (List.length matching)))
               (firstn (Z.to_nat limit)
                  (skipn (Z.to_nat offset)
                     (order_desc pr_created_at matching)))), s).

(** [Math.ceil(total / limit)]; a division by zero gives [NaN] or
    [Infinity], which JSON renders as [null]. *)
Definition ceil_div (total limit : Z) : option Z :=
  if limit =? 0 then None else Some (- ((- total) / limit)).

(** [GET /api/admin/payments] *)
Definition get_admin_payments (page limit : option Z) (status : field)
  : AM AdminResponse :=
  a_try_catch
    (let page := or_default page 1 in
     let limit := or_default limit 10 in
     let offset := (page - 1) * limit in
     let+ result := a_pool_query SelectPaymentsPage
                      (select_payments_page (status_filter status) limit offset) in
     let total := match result with
                  | (_, total_count) :: _ => total_count
                  | [] => 0
                  end in
     let totalPages := ceil_div total limit in
     a_ret (mkAdminResponse 200
              (PaymentPage (map fst result) total totalPages page limit)))
    (fun error =>
       a_ret (mkAdminResponse 500
                (AFailureWith "Failed to fetch payment registrations" error))).

(* --------------------------------------------------------------------- *)
(** *** Clients *)
(* --------------------------------------------------------------------- *)

(** A nullable parameter stored into a VARCHAR(n) column. *)
Definition varchar_field (n : nat) (x : field) : option field :=
  match x with
  | Some t => option_map Some (varchar n t)
  | None => Some None
  end.

Definition with_clients (rows : list Client) (d : Db) : Db :=
  {| contacts := contacts d;
     contacts_id_seq := contacts_id_seq d;
     payment_registrations := payment_registrations d;
     payment_links := payment_links d;
     payment_links_has_active := payment_links_has_active d;
     clients := rows;
     client_links := client_links d;
     client_links_id_seq := client_links_id_seq d |}.

(** [[
INSERT INTO clients (name, email, phone, company)
VALUES ($1, $2, $3, $4) RETURNING *
]]
    A NUL character in a parameter and a value too long for its column
    are refused before a key is drawn; a NULL in a NOT NULL column and a
    key that is already taken (PRIMARY KEY) are refused after. *)
Definition insert_client (sql_now : Z) (name email phone company : field)
  (s : AdminStore) : result (list Client) * AdminStore :=
  if field_has_nul name || field_has_nul email || field_has_nul phone
     || field_has_nul company
  then (Failed (Pg invalid_byte_sequence), s)
  else
    match varchar_field 100 name, varchar_field 100 email,
          varchar_field 20 phone, varchar_field 100 company with
    | Some n, Some e, Some p, Some c =>
        let id := clients_id_seq s in
        let s' := {| db := db s; clients_id_seq := id + 1 |} in
        match n, e, p with
        | Some n', Some e', Some p' =>
            if existsb (fun x => c_id x =? id) (clients (db s))
            then (Failed (Pg unique_violation), s')
            else
              let row := {| c_id := id;
                            c_name := n';
                            c_email := e';
                            c_phone := p';
                            c_company := c;
                            c_created_at := sql_now |} in
              (Done [row], on_db (with_clients (clients (db s) ++ [row])) s')
        | _, _, _ => (Failed (Pg not_null_violation), s')
        end
    | _, _, _, _ => (Failed (Pg string_data_right_truncation), s)
    end.

(** [POST /api/admin/clients] *)
Definition post_admin_clients (sql_now : Z) (name email phone company : field)
  : AM AdminResponse :=
  a_try_catch
    (let+ result := a_pool_query InsertClient
                      (insert_client sql_now name email phone company) in
     a_ret (mkAdminResponse 201 (ClientCreated (hd_error result))))
    (fun error =>
       a_ret (mkAdminResponse 500 (AFailure "Failed to create client"))).

(** The ON clause of the join:
    [c.id = cl.client_id AND cl.expires_at > NOW() AND cl.active = true]. *)
Definition joins (sql_now : Z) (c : Client) (l : ClientLink) : bool :=
  match cl_client_id l with
  | Some i => c_id c =? i
  | None => false
  end
  && (sql_now <? cl_expires_at l) && opt_is_true (cl_active l).

(** The rows a client contributes to the LEFT JOIN: one per joined link,
    or one with NULLs when no link joins. *)
Definition listings_of (sql_now : Z) (links : list ClientLink) (c : Client)
  : list ClientListing :=
  match filter (joins sql_now c) links with
  | [] => [ {| listed_client := c; active_token := None;
               token_expiry := None; token_active := None |} ]
  | joined =>
      map (fun l => {| listed_client := c;
                       active_token := Some (cl_token l);
                       token_expiry := Some (cl_expires_at l);
                       token_active := cl_active l |}) joined
  end.

(** [[
SELECT c.*, cl.token AS active_token, cl.expires_at AS token_expiry,
       cl.active AS token_active
  FROM clients c
  LEFT JOIN client_links cl ON c.id = cl.client_id
   AND cl.expires_at > NOW() AND cl.active = true
 ORDER BY c.created_at DESC
]] *)
Definition select_clients_with_links (sql_now : Z) (d : Db) : list ClientListing :=
  order_desc (fun r => c_created_at (listed_client r))
    (flat_map (listings_of sql_now (client_links d)) (clients d)).

(** [GET /api/admin/clients] *)
Definition get_admin_clients (sql_now : Z) : AM AdminResponse :=
  a_try_catch
    (let+ result := a_pool_query SelectClientsWithLinks
                      (a_reading (select_clients_with_links sql_now)) in
     a_ret (mkAdminResponse 200 (ClientList result)))
    (fun error =>
       a_ret (mkAdminResponse 500 (AFailure "Failed to fetch clients"))).

(* --------------------------------------------------------------------- *)
(** *** The list of contact submissions *)
(* --------------------------------------------------------------------- *)

Section Contacts.

(** [new Date(t).toLocaleString()], which depends on the locale and the
    time zone of the Node process. *)
Variable toLocaleString : Z -> string.

Definition contact_view (c : Contact) : ContactView :=
  {| cv_id := ct_id c;
     cv_name := ct_name c;
     cv_email := ct_email c;
     cv_phone := ct_phone c;
     cv_subject := ct_subject c;
     cv_message := ct_message c;
     cv_created_at := toLocaleString (ct_created_at c) |}.

(** [SELECT * FROM contacts ORDER BY created_at DESC] *)
Definition select_contacts (d : Db) : list Contact :=
  order_desc ct_created_at (contacts d).

(** [GET /api/contacts] *)
Definition get_contacts : AM AdminResponse :=
  a_try_catch
    (let+ result := a_pool_query SelectContacts (a_reading select_contacts) in
     let contacts := map contact_view result in
     a_ret (mkAdminResponse 200 (ContactList contacts)))
    (fun error =>
       a_ret (mkAdminResponse 500 (AFailureWith "Failed to fetch contacts" error))).

End Contacts.

(* --------------------------------------------------------------------- *)
(** *** [initializeDb] *)
(* --------------------------------------------------------------------- *)

(** The database as [initializeDb] finds it: each table may be missing.
    A table is its rows and the next value of its SERIAL sequence;
    [payment_links] also records whether it has the [active] column. *)
Record PaymentLinksTable := mkPaymentLinksTable {
  plt_has_active : bool;
  plt_rows : list PaymentLink;
  plt_id_seq : Z
}.

Record Catalog := mkCatalog {
  cat_contacts : option (list Contact * Z);
  cat_payment_registrations : option (list PaymentRegistration * Z);
  cat_payment_links : option PaymentLinksTable;
  cat_clients : option (list Client * Z);
  cat_client_links : option (list ClientLink * Z)
}.

Definition empty_catalog : Catalog :=
  {| cat_contacts := None;
     cat_payment_registrations := None;
     cat_payment_links := None;
     cat_clients := None;
     cat_client_links := None |}.

(** [CREATE TABLE IF NOT EXISTS t (...)]: a table that exists is left as
    it is, whatever columns the statement lists. *)
Definition create_if_not_exists {A} (fresh : A) (t : option A) : A :=
  match t with
  | Some x => x
  | None => fresh
  end.

Definition holds_token (token : string) (rows : list PaymentLink) : bool :=
  existsb (fun r => String.eqb (pl_token r) token) rows.

Definition key_taken (id : Z) (rows : list PaymentLink) : bool :=
  existsb (fun r => pl_id r =? id) rows.

(** [INSERT INTO payment_links ... ON CONFLICT (token) DO NOTHING] for the
    legacy token: a key is drawn from the sequence; a row that holds the
    token makes the statement do nothing; otherwise the row is added,
    unless its key is taken, which the primary key rejects.  The result
    says whether the statement was accepted, and gives the table after
    it. *)
Definition insert_legacy_row (sql_now : Z) (active : option bool)
  (t : PaymentLinksTable) : bool * PaymentLinksTable :=
  let rows := plt_rows t in
  let id := plt_id_seq t in
  if holds_token legacy_token rows then
    (true, {| plt_has_active := plt_has_active t; plt_rows := rows;
              plt_id_seq := id + 1 |})
  else if key_taken id rows then
    (false, {| plt_has_active := plt_has_active t; plt_rows := rows;
               plt_id_seq := id + 1 |})
  else
    (true, {| plt_has_active := plt_has_active t;
              plt_rows := rows ++ [ {| pl_id := id; pl_token := legacy_token;
                                       pl_active := active;
                                       pl_created_at := sql_now |} ];
              plt_id_seq := id + 1 |}).

(** [[
INSERT INTO payment_links (token, active)
VALUES ('4vXcZpLmKjQ8aTyNfRbEoWg7HdUs29qT', TRUE)
ON CONFLICT (token) DO NOTHING
]]
    of the first revision.  A table without the [active] column rejects
    the statement. *)
Definition seed_with_active (sql_now : Z) (t : PaymentLinksTable)
  : bool * PaymentLinksTable :=
  if plt_has_active t then insert_legacy_row sql_now (Some true) t
  else (false, t).

(** [[
INSERT INTO payment_links (token)
VALUES ('4vXcZpLmKjQ8aTyNfRbEoWg7HdUs29qT')
ON CONFLICT (token) DO NOTHING
]]
    of the second revision; [active], where the table has it, takes its
    DEFAULT TRUE. *)
Definition seed_token_only (sql_now : Z) (t : PaymentLinksTable)
  : bool * PaymentLinksTable :=
  insert_legacy_row sql_now (if plt_has_active t then Some true else None) t.

Module Revision1Init.

(** [initializeDb] of the first revision: three tables and the seed.  A
    rejected statement ends it (the [catch] only logs); what was done
    before stays. *)
Definition initializeDb (sql_now : Z) (c : Catalog) : Catalog :=
  let contacts := create_if_not_exists ([], 1) (cat_contacts c) in
  let registrations :=
    create_if_not_exists ([], 1) (cat_payment_registrations c) in
  let links := create_if_not_exists
                 {| plt_has_active := true; plt_rows := []; plt_id_seq := 1 |}
                 (cat_payment_links c) in
  let seeded := seed_with_active sql_now links in
  {| cat_contacts := Some contacts;
     cat_payment_registrations := Some registrations;
     cat_payment_links := Some (snd seeded);
     cat_clients := cat_clients c;
     cat_client_links := cat_client_links c |}.

End Revision1Init.

Module Revision2Init.

(** [initializeDb] of the second revision: [payment_links] is declared
    without [active], and [clients] and [client_links] are added after
    the seed, if that did not fail. *)
Definition initializeDb (sql_now : Z) (c : Catalog) : Catalog :=
  let contacts := create_if_not_exists ([], 1) (cat_contacts c) in
  let registrations :=
    create_if_not_exists ([], 1) (cat_payment_registrations c) in
  let links := create_if_not_exists
                 {| plt_has_active := false; plt_rows := []; plt_id_seq := 1 |}
                 (cat_payment_links c) in
  let seeded := seed_token_only sql_now links in
  {| cat_contacts := Some contacts;
     cat_payment_registrations := Some registrations;
     cat_payment_links := Some (snd seeded);
     cat_clients :=
       if fst seeded then Some (create_if_not_exists ([], 1) (cat_clients c))
       else cat_clients c;
     cat_client_links :=
       if fst seeded then Some (create_if_not_exists ([], 1) (cat_client_links c))
       else cat_client_links c |}.

End Revision2Init.

(** The store the handlers work on, once all five tables exist. *)
Definition db_of_catalog (c : Catalog) : option Db :=
  match cat_contacts c, cat_payment_registrations c, cat_payment_links c,
        cat_clients c, cat_client_links c with
  | Some (cs, cseq), Some (prs, _), Some t, Some (cls, _), Some (ls, lseq) =>
      Some {| contacts := cs;
              contacts_id_seq := cseq;
              payment_registrations := prs;
              payment_links := plt_rows t;
              payment_links_has_active := plt_has_active t;
              clients := cls;
              client_links := ls;
              client_links_id_seq := lseq |}
  | _, _, _, _, _ => None
  end.

(** The rows of [payment_links], if the table exists. *)
Definition link_rows (c : Catalog) : list PaymentLink :=
  match cat_payment_links c with
  | Some t => plt_rows t
  | None => []
  end.

(* --------------------------------------------------------------------- *)
(** *** Vocabulary of their properties *)
(* --------------------------------------------------------------------- *)

(** The table after the UPDATE of the status of the rows with key [n]. *)
Definition updated_rows (st : text) (n : Z) (rows : list PaymentRegistration)
  : list PaymentRegistration :=
  map (fun p => if pr_id p =? n then set_status st p else p) rows.

(** Every stored status is one of the three words of the handler. *)
Definition statuses_allowed (d : Db) : Prop :=
  Forall (fun p => In (pr_status p) allowed_statuses) (payment_registrations d).

(** The rows that pass the filter of [GET /api/admin/payments], newest
    first, and the part of them that a page shows. *)
Definition matching_payments (status : field) (d : Db) : list PaymentRegistration :=
  order_desc pr_created_at
    (with_status (status_filter status) (payment_registrations d)).

Definition page_slice (status : field) (page limit : Z) (d : Db)
  : list PaymentRegistration :=
  firstn (Z.to_nat limit)
    (skipn (Z.to_nat ((page - 1) * limit)) (matching_payments status d)).

(** The numbers of a request are in the range where JavaScript's
    arithmetic on them is exact. *)
Definition js_exact (page limit : Z) (d : Db) : Prop :=
  Z.abs page <= 67108864 /\ Z.abs limit <= 67108864
  /\ Z.of_nat (List.length (payment_registrations d)) <= 67108864.

(** The creation times of the registrations are pairwise different, so
    that [ORDER BY created_at] leaves no order open. *)
Definition distinct_times (d : Db) : Prop :=
  NoDup (map pr_created_at (payment_registrations d)).

(** The rows of the page that [GET /api/admin/payments] answers with
    (none when it does not answer with a page). *)
Definition page_rows (page limit : Z) (status : field) (s : AdminStore)
  : list PaymentRegistration :=
  match fst (a_run (get_admin_payments (Some page) (Some limit) status) s) with
  | Done r =>
      match a_body r with
      | PaymentPage payments _ _ _ _ => payments
      | _ => []
      end
  | Failed _ => []
  end.

(** The row that an accepted [POST /api/admin/clients] stores. *)
Definition new_client (sql_now : Z) (n e p : text) (company : field)
  (s : AdminStore) : Client :=
  {| c_id := clients_id_seq s; c_name := n; c_email := e;
     c_phone := p; c_company := company; c_created_at := sql_now |}.

(* ===================================================================== *)
(** * Properties *)
(* ===================================================================== *)

(** ** Lists and filters *)

Lemma filter_nil_iff {A} (f : A -> bool) (l : list A) :
  filter f l = [] <-> forall x, In x l -> f x = false.
Proof.
  induction l as [|a l IH]; simpl.
  - split; [intros _ x [] | reflexivity].
  - destruct (f a) eqn:Fa.
    + split; [discriminate|].
      intros H. rewrite (H a (or_introl eq_refl)) in Fa. discriminate.
    + rewrite IH. split.
      * intros H x [<- | Hx]; [exact Fa | exact (H x Hx)].
      * intros H x Hx. apply H. now right.
Qed.

Lemma filter_hd_in {A} (f : A -> bool) (l : list A) (x : A) (r : list A) :
  filter f l = x :: r -> In x l /\ f x = true.
Proof.
  intros H. apply filter_In. rewrite H. now left.
Qed.

Lemma insert_desc_in {A} (key : A -> Z) (x y : A) (l : list A) :
  In y (insert_desc key x l) <-> y = x \/ In y l.
Proof.
  induction l as [|a l IH]; simpl.
  - intuition.
  - destruct (key a <=? key x); simpl; [intuition|].
    rewrite IH. intuition.
Qed.

Lemma order_desc_in {A} (key : A -> Z) (y : A) (l : list A) :
  In y (order_desc key l) <-> In y l.
Proof.
  induction l as [|a l IH]; simpl; [tauto|].
  rewrite insert_desc_in, IH. intuition.
Qed.

Lemma insert_desc_length {A} (key : A -> Z) (x : A) (l : list A) :
  List.length (insert_desc key x l) = S (List.length l).
Proof.
  induction l as [|a l IH]; simpl; [reflexivity|].
  destruct (key a <=? key x); simpl; [reflexivity | now rewrite IH].
Qed.

Lemma order_desc_length {A} (key : A -> Z) (l : list A) :
  List.length (order_desc key l) = List.length l.
Proof.
  induction l as [|a l IH]; simpl; [reflexivity|].
  now rewrite insert_desc_length, IH.
Qed.

(** A key that occurs once selects exactly its row. *)
Lemma filter_unique_key {A} (key : A -> Z) (l : list A) (c : A) :
  NoDup (map key l) -> In c l ->
  filter (fun x => key x =? key c) l = [c].
Proof.
  induction l as [|a l IH]; simpl; [intros _ []|].
  intros ND [-> | Hc].
  - rewrite Z.eqb_refl. f_equal.
    apply filter_nil_iff. intros x Hx.
    apply Z.eqb_neq. intros E.
    inversion ND as [|? ? Hnot _]; subst. apply Hnot.
    rewrite <- E. now apply in_map.
  - inversion ND as [|? ? Hnot ND']; subst.
    destruct (key a =? key c) eqn:E.
    + apply Z.eqb_eq in E. exfalso. apply Hnot.
      rewrite E. now apply in_map.
    + now apply IH.
Qed.

(** ** Verification of a client link *)

Lemma is_usable_spec sql_now token l :
  is_usable sql_now token l = true <-> usable sql_now token l.
Proof.
  unfold is_usable, usable, opt_is_true.
  rewrite !andb_true_iff, String.eqb_eq, Z.ltb_lt.
  destruct (cl_active l) as [[|]|]; intuition congruence.
Qed.

Lemma no_usable_link sql_now token d :
  usable_links sql_now token d = [] <->
  ~ exists l, In l (client_links d) /\ usable sql_now token l.
Proof.
  unfold usable_links. rewrite filter_nil_iff. split.
  - intros H (l & Hin & Hu). apply is_usable_spec in Hu.
    rewrite (H l Hin) in Hu. discriminate.
  - intros H l Hin. destruct (is_usable sql_now token l) eqn:E; [|reflexivity].
    exfalso. apply H. exists l. split; [exact Hin | now apply is_usable_spec].
Qed.

(** The handler, path by path: which response it sends, that the store is
    untouched, and which statements it issued. *)
Lemma get_client_details_run date_now sql_now token d :
  run (get_client_details date_now sql_now token) d =
  if string_has_nul token then
    (Value details_failed, mkWorld d [SelectClientLinkByToken])
  else
    match usable_links sql_now token d with
    | [] => (Value link_not_found, mkWorld d [SelectClientLinkByToken])
    | link :: _ =>
        match select_client_by_id (cl_client_id link) d with
        | [] => (Value client_not_found,
                 mkWorld d [SelectClientLinkByToken; SelectClientById])
        | client :: _ =>
            (Value (details_of date_now client (select_latest_payment (c_id client) d)),
             mkWorld d [SelectClientLinkByToken; SelectClientById;
                        SelectLatestPaymentOfClient])
        end
    end.
Proof.
  unfold run, get_client_details, try_catch, bind, pool_query, reading, ret,
    select_usable_links. simpl.
  destruct (string_has_nul token); [reflexivity|].
  destruct (usable_links sql_now token d) as [|link rest]; [reflexivity|].
  simpl.
  destruct (select_client_by_id (cl_client_id link) d) as [|client rest'];
    reflexivity.
Qed.

Lemma verifies_iff d date_now sql_now token :
  string_has_nul token = false ->
  (verifies d date_now sql_now token <->
   exists l, In l (client_links d) /\ usable sql_now token l).
Proof.
  intros N. unfold verifies. rewrite get_client_details_run, N.
  destruct (usable_links sql_now token d) as [|link rest] eqn:E.
  - apply no_usable_link in E. simpl. split; [congruence | intros H; contradiction].
  - apply filter_hd_in in E. destruct E as [Hin Hu]. apply is_usable_spec in Hu.
    split; [intros _; now exists link|]. intros _.
    destruct (select_client_by_id (cl_client_id link) d); simpl;
      unfold client_not_found, details_of, link_not_found; congruence.
Qed.

Lemma verifies_nul d date_now sql_now token :
  string_has_nul token = true -> verifies d date_now sql_now token.
Proof.
  intros N. unfold verifies. rewrite get_client_details_run, N. discriminate.
Qed.

Lemma details_of_shape date_now c rows :
  exists projectName amount dueDate,
    details_of date_now c rows =
    mkResponse 200 (ClientDetails c (c_name c) (c_id c) projectName amount dueDate).
Proof.
  unfold details_of. destruct rows as [|p r]; eauto.
Qed.

(** Under the UNIQUE constraint a token names one row. *)
Lemma unique_token l l' rows :
  NoDup (map cl_token rows) -> In l rows -> In l' rows ->
  cl_token l = cl_token l' -> l = l'.
Proof.
  induction rows as [|a rows IH]; simpl; [intros _ []|].
  intros ND Hl Hl' E. inversion ND as [|? ? Hnot ND']; subst.
  destruct Hl as [<- | Hl], Hl' as [<- | Hl'].
  - reflexivity.
  - exfalso. apply Hnot. rewrite E. now apply in_map.
  - exfalso. apply Hnot. rewrite <- E. now apply in_map.
  - now apply IH.
Qed.

Lemma select_client_by_id_nil id d :
  select_client_by_id id d = [] <->
  forall c, In c (clients d) -> id <> Some (c_id c).
Proof.
  unfold select_client_by_id. destruct id as [i|].
  - rewrite filter_nil_iff. split.
    + intros H c Hc E. inversion E; subst. specialize (H c Hc).
      rewrite Z.eqb_refl in H. discriminate.
    + intros H c Hc. apply Z.eqb_neq. intros E. apply (H c Hc). now rewrite E.
  - split; [discriminate | reflexivity].
Qed.

(** C1, as stated, fails.  [POST /api/admin/client-links] without a
    [clientId] is accepted and stores a link with [client_id] NULL; that
    link is active and unexpired, yet [GET /api/client-details/:token]
    answers 404 "Client not found".  And for a token with a NUL character
    the query is rejected and the answer is 500, not a failed
    verification. *)
Lemma C1_counterexample :
  let issued := run (post_admin_client_links 5000 5000 zero_bytes None) sample_db in
  fst issued = Value (issued_response 5000 zero_bytes)
  /\ (exists l, In l (client_links (store (snd issued)))
                /\ cl_token l = hex zero_bytes /\ cl_active l = Some true
                /\ 6000 < cl_expires_at l)
  /\ fst (run (get_client_details 6000 6000 (hex zero_bytes)) (store (snd issued)))
     = Value client_not_found
  /\ status client_not_found = 404
  /\ fst (run (get_client_details 100 100 nul_token) sample_db)
     = Value details_failed
  /\ status details_failed = 500.
Proof.
  cbv zeta. split; [reflexivity|]. split.
  - eexists. split; [simpl; do 3 right; left; reflexivity|].
    repeat split; reflexivity.
  - repeat split; reflexivity.
Qed.

(** C1, amended.  For a token without a NUL character, the link check of
    [GET /api/client-details/:token] fails (404 "Link not found or
    expired") exactly when no [client_links] row has that token,
    [active = true] and [expires_at > NOW()]; a link whose [expires_at]
    equals the current time fails, and so does a link whose [active] is
    false.  With the tokens of the table pairwise different, the answer
    is 200 exactly when such a row exists and its [client_id] is the key
    of a stored client, and 404 "Client not found" exactly when such a
    row exists and its [client_id] is NULL or the key of no client.  A
    token with a NUL character gets 500. *)
Theorem C1_verification_iff_usable d date_now sql_now token :
  let answer := fst (run (get_client_details date_now sql_now token) d) in
  (string_has_nul token = true -> answer = Value details_failed)
  /\ (string_has_nul token = false ->
      (answer = Value link_not_found <->
       ~ exists l, In l (client_links d) /\ cl_token l = token /\
                   cl_active l = Some true /\ sql_now < cl_expires_at l)
      /\ ((forall l, In l (client_links d) -> cl_token l = token ->
                     cl_expires_at l = sql_now) ->
          answer = Value link_not_found)
      /\ ((forall l, In l (client_links d) -> cl_token l = token ->
                     cl_active l = Some false) ->
          answer = Value link_not_found)
      /\ (NoDup (map cl_token (client_links d)) ->
          ((exists b, answer = Value (mkResponse 200 b)) <->
           exists l c, In l (client_links d) /\ cl_token l = token /\
                       cl_active l = Some true /\ sql_now < cl_expires_at l /\
                       In c (clients d) /\ cl_client_id l = Some (c_id c))
          /\ (answer = Value client_not_found <->
              exists l, In l (client_links d) /\ cl_token l = token /\
                        cl_active l = Some true /\ sql_now < cl_expires_at l /\
                        forall c, In c (clients d) ->
                                  cl_client_id l <> Some (c_id c)))).
Proof.
  cbv zeta. rewrite get_client_details_run.
  split; [intros ->; reflexivity|]. intros ->.
  assert (Fail : usable_links sql_now token d = [] <->
                 ~ exists l, In l (client_links d) /\ cl_token l = token /\
                             cl_active l = Some true /\ sql_now < cl_expires_at l)
    by apply no_usable_link.
  destruct (usable_links sql_now token d) as [|link rest] eqn:E.
  - assert (None_ := proj1 Fail eq_refl).
    split; [split; [intros _; exact None_ | reflexivity]|].
    split; [reflexivity|]. split; [reflexivity|].
    intros _. split.
    + split.
      * intros (b & H). discriminate H.
      * intros (l & c & Hin & Ht & Ha & Hlt & _). exfalso. apply None_.
        exists l. repeat split; assumption.
    + split.
      * intros H. discriminate H.
      * intros (l & Hin & Ht & Ha & Hlt & _). exfalso. apply None_.
        exists l. repeat split; assumption.
  - apply filter_hd_in in E. destruct E as [Hin Hu].
    apply is_usable_spec in Hu. destruct Hu as (Ht & Ha & Hlt).
    assert (Not404 : forall r,
              (match select_client_by_id (cl_client_id link) d with
               | [] => (Value client_not_found,
                        mkWorld d [SelectClientLinkByToken; SelectClientById])
               | client :: _ =>
                   (Value (details_of date_now client
                             (select_latest_payment (c_id client) d)),
                    mkWorld d [SelectClientLinkByToken; SelectClientById;
                               SelectLatestPaymentOfClient])
               end) = r -> fst r <> Value link_not_found).
    { intros r <-. destruct (select_client_by_id (cl_client_id link) d) as [|c r'];
        simpl; [discriminate|].
      destruct (details_of_shape date_now c (select_latest_payment (c_id c) d))
        as (pn & amt & due & ->). discriminate. }
    split.
    { split.
      - intros H. now destruct (Not404 _ eq_refl).
      - intros H. exfalso. apply H. exists link. repeat split; assumption. }
    split.
    { intros H. specialize (H link Hin Ht). lia. }
    split.
    { intros H. specialize (H link Hin Ht). congruence. }
    intros ND.
    assert (Same : forall l, In l (client_links d) -> cl_token l = token -> l = link).
    { intros l Hl El. apply (@unique_token l link (client_links d) ND Hl Hin).
      congruence. }
    destruct (select_client_by_id (cl_client_id link) d) as [|client rest'] eqn:C.
    + pose proof (proj1 (select_client_by_id_nil _ _) C) as NoClient.
      split; split.
      * intros (b & H). discriminate H.
      * intros (l & c & Hl & El & _ & _ & Hc & Hid).
        rewrite (Same l Hl El) in Hid. now destruct (NoClient c Hc).
      * intros _. exists link. repeat split; assumption.
      * reflexivity.
    + assert (Hcl : In client (clients d) /\ cl_client_id link = Some (c_id client)).
      { unfold select_client_by_id in C.
        destruct (cl_client_id link) as [i|]; [|discriminate].
        apply filter_hd_in in C. destruct C as [Hc Hi].
        apply Z.eqb_eq in Hi. split; [exact Hc | now rewrite Hi]. }
      destruct Hcl as [Hc Hid].
      destruct (details_of_shape date_now client
                  (select_latest_payment (c_id client) d))
        as (pn & amt & due & Hd).
      simpl fst. rewrite Hd. split; split.
      * intros _. exists link, client. repeat split; assumption.
      * intros _. eexists. reflexivity.
      * discriminate.
      * intros (l & Hl & El & _ & _ & Hno). exfalso.
        rewrite (Same l Hl El) in Hno. now apply (Hno client Hc).
Qed.

(** C4, as stated, fails: a token with a NUL character was never issued
    (no row can hold it), yet [GET /api/client-details/:token] does not
    answer 404 "Link not found or expired" for it: PostgreSQL rejects the
    parameter and the [catch] block answers 500. *)
Lemma C4_counterexample :
  existsb (fun l => String.eqb (cl_token l) nul_token) (client_links sample_db)
  = false
  /\ run (get_client_details 100 100 nul_token) sample_db
     = (Value details_failed, mkWorld sample_db [SelectClientLinkByToken])
  /\ status details_failed = 500
  /\ body details_failed = Failure "Failed to fetch client details".
Proof.
  repeat split; reflexivity.
Qed.

(** C4, amended.  For a token without a NUL character: whenever no row
    with the token is both active and unexpired (the token was never
    issued, or its row is deactivated, or its row has expired),
    [GET /api/client-details/:token] sends the one response 404 "Link not
    found or expired", after the same single query and with the store as
    it was: the three cases are indistinguishable. *)
Theorem C4_generic_failure d date_now sql_now token :
  string_has_nul token = false ->
  (forall l, In l (client_links d) -> cl_token l = token ->
     cl_active l <> Some true \/ cl_expires_at l <= sql_now) ->
  run (get_client_details date_now sql_now token) d =
  (Value link_not_found, mkWorld d [SelectClientLinkByToken])
  /\ status link_not_found = 404
  /\ body link_not_found = Failure "Link not found or expired".
Proof.
  intros N H. split; [|split; reflexivity].
  rewrite get_client_details_run, N.
  destruct (usable_links sql_now token d) as [|link rest] eqn:E;
    [reflexivity|].
  apply filter_hd_in in E. destruct E as [Hin Hu].
  apply is_usable_spec in Hu. destruct Hu as (Ht & Ha & Hlt).
  destruct (H link Hin Ht); [congruence | lia].
Qed.

(** C10.  [GET /api/client-details/:token] only reads: on every path the
    store after the call is the store before it, so asking again at the
    same time gives the same response. *)
Theorem C10_verification_read_only d date_now sql_now token :
  store (snd (run (get_client_details date_now sql_now token) d)) = d
  /\ fst (run (get_client_details date_now sql_now token)
            (store (snd (run (get_client_details date_now sql_now token) d))))
     = fst (run (get_client_details date_now sql_now token) d).
Proof.
  assert (S : store (snd (run (get_client_details date_now sql_now token) d)) = d).
  { rewrite get_client_details_run.
    destruct (string_has_nul token); [reflexivity|].
    destruct (usable_links sql_now token d) as [|link rest];
      [reflexivity|].
    destruct (select_client_by_id (cl_client_id link) d); reflexivity. }
  split; [exact S | now rewrite S].
Qed.

(** ** Issuing a client link *)

Lemma hex_byte_no_nul b :
  (N_of_ascii (hex_digit (Byte.to_N b / 16)) =? 0)%N = false
  /\ (N_of_ascii (hex_digit (Byte.to_N b mod 16)) =? 0)%N = false.
Proof. destruct b; split; reflexivity. Qed.

(** A generated token holds no NUL character. *)
Lemma hex_no_nul bytes : string_has_nul (hex bytes) = false.
Proof.
  induction bytes as [|b r IH]; [reflexivity|].
  cbn [hex string_has_nul].
  destruct (hex_byte_no_nul b) as [H1 H2]. now rewrite H1, H2, IH.
Qed.

Lemma hex_length bytes : String.length (hex bytes) = (2 * List.length bytes)%nat.
Proof.
  induction bytes as [|b r IH]; simpl; [reflexivity|].
  rewrite IH. lia.
Qed.

Lemma token_taken_false token d :
  token_taken token d = false <->
  forall l, In l (client_links d) -> cl_token l <> token.
Proof.
  unfold token_taken. split.
  - intros H l Hin E.
    assert (X : existsb (fun l0 => String.eqb (cl_token l0) token) (client_links d) = true).
    { apply existsb_exists. exists l. split; [exact Hin | now apply String.eqb_eq]. }
    congruence.
  - intros H. destruct (existsb _ _) eqn:E; [|reflexivity].
    apply existsb_exists in E. destruct E as (l & Hin & Ht).
    apply String.eqb_eq in Ht. now destruct (H l Hin).
Qed.

Lemma client_exists_true id d :
  client_exists id d = true <->
  id = None \/ exists c, In c (clients d) /\ id = Some (c_id c).
Proof.
  unfold client_exists. destruct id as [i|].
  - rewrite existsb_exists. split.
    + intros (c & Hin & E). apply Z.eqb_eq in E. right. exists c. now subst.
    + intros [H | (c & Hin & E)]; [discriminate|].
      exists c. split; [exact Hin|]. inversion E. apply Z.eqb_refl.
  - split; [now left | reflexivity].
Qed.

(** The handler, case by case. *)
Lemma post_admin_client_links_run date_now sql_now entropy clientId d :
  (List.length entropy <= 50)%nat ->
  run (post_admin_client_links date_now sql_now entropy clientId) d =
  if token_taken (hex entropy) d || negb (client_exists clientId d) then
    (Value issue_failed, mkWorld (next_client_link_id d) [InsertClientLink])
  else
    (Value (issued_response date_now entropy),
     mkWorld (add_client_link (issued_row date_now sql_now entropy clientId d)
                (next_client_link_id d))
       [InsertClientLink]).
Proof.
  intros L.
  unfold run, post_admin_client_links, try_catch, bind, pool_query, ret,
    insert_client_link. simpl.
  assert (F : (100 <? String.length (hex entropy))%nat = false).
  { apply Nat.ltb_ge. rewrite hex_length. lia. }
  rewrite F.
  destruct (token_taken (hex entropy) d); [reflexivity|].
  destruct (client_exists clientId d); reflexivity.
Qed.

(** C2, as stated, fails: with no client 7 in the store, issuing a link
    for [clientId = 7] is rejected by the foreign key of [client_links];
    the response is 500 and no row is inserted. *)
Lemma C2_counterexample :
  fst (run (post_admin_client_links 0 0 zero_bytes (Some 7)) fresh_db)
  = Value issue_failed
  /\ status issue_failed = 500
  /\ client_links
       (store (snd (run (post_admin_client_links 0 0 zero_bytes (Some 7)) fresh_db)))
     = [].
Proof.
  repeat split; reflexivity.
Qed.

(** C2, amended.  Issuing a link stores exactly one new [client_links]
    row, with [active = true] and [expires_at] 24 hours after the issuance
    time, and leaves every other row of every table as it was, whenever
    the insert is accepted: the client id is absent or the key of an
    existing client, and no row holds the generated token.  Otherwise the
    response is 500 and no row of any table is added or changed. *)
Theorem C2_issue_inserts_one_row d date_now sql_now entropy clientId :
  List.length entropy = 32%nat ->
  let w := run (post_admin_client_links date_now sql_now entropy clientId) d in
  ((clientId = None \/ exists c, In c (clients d) /\ clientId = Some (c_id c)) ->
   (forall l, In l (client_links d) -> cl_token l <> hex entropy) ->
   exists row,
     client_links (store (snd w)) = client_links d ++ [row]
     /\ cl_active row = Some true
     /\ cl_expires_at row = date_now + 24 * 60 * 60 * 1000
     /\ cl_client_id row = clientId
     /\ cl_token row = hex entropy
     /\ contacts (store (snd w)) = contacts d
     /\ payment_registrations (store (snd w)) = payment_registrations d
     /\ payment_links (store (snd w)) = payment_links d
     /\ clients (store (snd w)) = clients d
     /\ fst w = Value (issued_response date_now entropy))
  /\ (~ (clientId = None \/ exists c, In c (clients d) /\ clientId = Some (c_id c))
      \/ (exists l, In l (client_links d) /\ cl_token l = hex entropy) ->
      fst w = Value issue_failed /\ same_rows d (store (snd w))).
Proof.
  intros L w. subst w.
  rewrite post_admin_client_links_run by lia.
  split.
  - intros Hc Ht.
    apply client_exists_true in Hc. apply token_taken_false in Ht.
    rewrite Hc, Ht. simpl.
    exists (issued_row date_now sql_now entropy clientId d).
    repeat split; reflexivity.
  - intros H.
    assert (E : token_taken (hex entropy) d || negb (client_exists clientId d) = true).
    { destruct H as [Hc | (l & Hin & Ht)].
      - destruct (client_exists clientId d) eqn:C.
        + apply client_exists_true in C. contradiction.
        + apply orb_true_r.
      - destruct (token_taken (hex entropy) d) eqn:T; [reflexivity|].
        rewrite token_taken_false in T. now destruct (T l Hin). }
    rewrite E. simpl. repeat split; reflexivity.
Qed.

(** An issuance that answers 201 was accepted by the store. *)
Lemma issued_inversion date_now sql_now entropy clientId d link tok exp :
  (List.length entropy <= 50)%nat ->
  fst (run (post_admin_client_links date_now sql_now entropy clientId) d)
  = Value (mkResponse 201 (LinkIssued link tok exp)) ->
  tok = hex entropy /\ exp = date_now + one_day
  /\ token_taken (hex entropy) d = false
  /\ client_exists clientId d = true
  /\ store (snd (run (post_admin_client_links date_now sql_now entropy clientId) d))
     = add_client_link (issued_row date_now sql_now entropy clientId d)
         (next_client_link_id d).
Proof.
  intros L. rewrite post_admin_client_links_run by exact L.
  destruct (token_taken (hex entropy) d) eqn:T; simpl; [discriminate|].
  destruct (client_exists clientId d) eqn:C; simpl; [|discriminate].
  unfold issued_response. intros E. inversion E; subst. repeat split.
Qed.

Lemma usable_links_of_new_row sql_now token row d old :
  client_links d = old ++ [row] ->
  (forall l, In l old -> cl_token l <> token) ->
  usable sql_now token row ->
  usable_links sql_now token d = [row].
Proof.
  intros E Hold Hu. unfold usable_links. rewrite E, filter_app. simpl.
  apply is_usable_spec in Hu. rewrite Hu.
  replace (filter (is_usable sql_now token) old) with (@nil ClientLink);
    [reflexivity|].
  symmetry. apply filter_nil_iff. intros l Hin.
  unfold is_usable. destruct (String.eqb_spec (cl_token l) token) as [Ht|Ht];
    [now destruct (Hold l Hin) | reflexivity].
Qed.

Lemma usable_links_skip_last sql_now token row d old :
  client_links d = old ++ [row] ->
  cl_token row <> token ->
  usable_links sql_now token d = filter (is_usable sql_now token) old.
Proof.
  intros E Ht. unfold usable_links. rewrite E, filter_app. simpl.
  unfold is_usable at 2.
  destruct (String.eqb_spec (cl_token row) token) as [X|X]; [contradiction|].
  simpl. apply app_nil_r.
Qed.

(** C6.  A link is issued twice for one existing client.  When the two
    generated tokens are new to the store and differ, both issuances
    answer 201.  Whenever both answer 201, the two tokens differ (the
    UNIQUE constraint refuses a repeated token), each link expires 24
    hours after its issuance, and at any time before both expiries each
    token verifies on its own and resolves to that client's profile. *)
Theorem C6_two_links_same_client d c date1 sql1 e1 date2 sql2 e2 :
  List.length e1 = 32%nat -> List.length e2 = 32%nat ->
  NoDup (map c_id (clients d)) -> In c (clients d) ->
  let w1 := run (post_admin_client_links date1 sql1 e1 (Some (c_id c))) d in
  let w2 := run (post_admin_client_links date2 sql2 e2 (Some (c_id c)))
              (store (snd w1)) in
  ((forall l, In l (client_links d) ->
      cl_token l <> hex e1 /\ cl_token l <> hex e2) ->
   hex e1 <> hex e2 ->
   fst w1 = Value (issued_response date1 e1)
   /\ fst w2 = Value (issued_response date2 e2))
  /\ (forall link1 tok1 exp1 link2 tok2 exp2,
      fst w1 = Value (mkResponse 201 (LinkIssued link1 tok1 exp1)) ->
      fst w2 = Value (mkResponse 201 (LinkIssued link2 tok2 exp2)) ->
      tok1 <> tok2
      /\ exp1 = date1 + 24 * 60 * 60 * 1000
      /\ exp2 = date2 + 24 * 60 * 60 * 1000
      /\ forall date_now sql_now, sql_now < exp1 -> sql_now < exp2 ->
           exists projectName amount dueDate,
             fst (run (get_client_details date_now sql_now tok1) (store (snd w2)))
             = Value (mkResponse 200
                        (ClientDetails c (c_name c) (c_id c)
                           projectName amount dueDate))
             /\ fst (run (get_client_details date_now sql_now tok2) (store (snd w2)))
                = Value (mkResponse 200
                           (ClientDetails c (c_name c) (c_id c)
                              projectName amount dueDate))).
Proof.
  intros L1 L2 ND Hc w1 w2. subst w1 w2. split.
  - intros Fresh Ne.
    assert (C : forall d', clients d' = clients d ->
                           client_exists (Some (c_id c)) d' = true).
    { intros d' E. apply client_exists_true. right. exists c.
      rewrite E. now split. }
    assert (T1 : token_taken (hex e1) d = false).
    { apply token_taken_false. intros l Hin. now apply Fresh. }
    rewrite post_admin_client_links_run by lia.
    rewrite T1, (C d eq_refl). simpl. split; [reflexivity|].
    rewrite post_admin_client_links_run by lia.
    rewrite C by reflexivity.
    replace (token_taken (hex e2) _) with false; [reflexivity|].
    symmetry. apply token_taken_false. intros l Hin. simpl in Hin.
    apply in_app_or in Hin. destruct Hin as [Hin | [<- | []]].
    + now apply Fresh.
    + exact Ne.
  - intros link1 tok1 exp1 link2 tok2 exp2 H1 H2.
    apply issued_inversion in H1; [|lia].
    destruct H1 as (-> & -> & T1 & _ & S1).
    rewrite S1 in *. clear S1.
    set (row1 := issued_row date1 sql1 e1 (Some (c_id c)) d) in *.
    set (d1 := add_client_link row1 (next_client_link_id d)) in *.
    apply issued_inversion in H2; [|lia].
    destruct H2 as (-> & -> & T2 & _ & S2).
    rewrite S2. clear S2.
    set (row2 := issued_row date2 sql2 e2 (Some (c_id c)) d1).
    set (d2 := add_client_link row2 (next_client_link_id d1)).
    rewrite token_taken_false in T1, T2.
    assert (Ne : hex e1 <> hex e2).
    { apply (T2 row1). unfold d1. simpl. apply in_or_app. right. now left. }
    assert (Cl : filter (fun x => c_id x =? c_id c) (clients d2) = [c]).
    { now apply filter_unique_key. }
    split; [exact Ne|]. split; [reflexivity|]. split; [reflexivity|].
    intros date_now sql_now Lt1 Lt2.
    destruct (details_of_shape date_now c (select_latest_payment (c_id c) d2))
      as (pn & amt & due & Hd).
    exists pn, amt, due.
    assert (U2 : usable_links sql_now (hex e2) d2 = [row2]).
    { apply usable_links_of_new_row with (old := client_links d1);
        [reflexivity | exact T2 | repeat split; exact Lt2]. }
    assert (U1 : usable_links sql_now (hex e1) d2 = [row1]).
    { rewrite usable_links_skip_last with (row := row2) (old := client_links d1);
        [| reflexivity | simpl; congruence].
      apply usable_links_of_new_row with (d := d1) (old := client_links d);
        [reflexivity | exact T1 | repeat split; exact Lt1]. }
    split; rewrite get_client_details_run, hex_no_nul.
    + rewrite U1. simpl cl_client_id. unfold select_client_by_id. rewrite Cl.
      simpl. now rewrite Hd.
    + rewrite U2. simpl cl_client_id. unfold select_client_by_id. rewrite Cl.
      simpl. now rewrite Hd.
Qed.

(** ** The legacy payment link *)

Lemma get_payment_link_run1 token d :
  run (Revision1.get_payment_link token) d =
  if string_has_nul token then
    (Value link_status_failed, mkWorld d [SelectPaymentLinkByToken])
  else
    match links_with_token token d with
    | [] => (Value payment_link_not_found, mkWorld d [SelectPaymentLinkByToken])
    | row :: _ => (Value (mkResponse 200 (LinkStatus (pl_active row))),
                   mkWorld d [SelectPaymentLinkByToken])
    end.
Proof.
  unfold run, Revision1.get_payment_link, try_catch, bind, pool_query, ret,
    select_payment_links.
  simpl. destruct (string_has_nul token); [reflexivity|].
  destruct (links_with_token token d); reflexivity.
Qed.

Lemma get_payment_link_run2 token d :
  run (Revision2.get_payment_link token) d =
  if string_has_nul token then
    (Value link_status_failed, mkWorld d [SelectPaymentLinkByToken])
  else
    match links_with_token token d with
    | [] => (Value payment_link_not_found, mkWorld d [SelectPaymentLinkByToken])
    | row :: _ => (Value (mkResponse 200 (LinkStatus (Some true))),
                   mkWorld d [SelectPaymentLinkByToken])
    end.
Proof.
  unfold run, Revision2.get_payment_link, try_catch, bind, pool_query, ret,
    select_payment_links.
  simpl. destruct (string_has_nul token); [reflexivity|].
  destruct (links_with_token token d); reflexivity.
Qed.

Lemma no_payment_link token d :
  links_with_token token d = [] <->
  forall r, In r (payment_links d) -> pl_token r <> token.
Proof.
  unfold links_with_token. rewrite filter_nil_iff. split.
  - intros H r Hin E. specialize (H r Hin). apply String.eqb_neq in H. contradiction.
  - intros H r Hin. apply String.eqb_neq. now apply H.
Qed.

(** C3, as stated, fails on the second revision: after the legacy link is
    deactivated, the stored flag is false and
    [GET /api/payment-link/:token] still answers [active: true]. *)
Lemma C3_counterexample :
  let d := store (snd (run (put_admin_payment_link legacy_token (Some false))
                         legacy_db)) in
  map pl_active (links_with_token legacy_token d) = [Some false]
  /\ fst (run (Revision2.get_payment_link legacy_token) d)
     = Value (mkResponse 200 (LinkStatus (Some true)))
  /\ fst (run (Revision1.get_payment_link legacy_token) d)
     = Value (mkResponse 200 (LinkStatus (Some false))).
Proof.
  repeat split; reflexivity.
Qed.

(** C3, amended.  For a token without a NUL character,
    [GET /api/payment-link/:token] answers 404 when no [payment_links]
    row has the token, in both revisions; when a row has it, the first
    revision answers 200 with the stored [active] flag of such a row, and
    the second revision answers 200 with [active: true] whatever is
    stored.  For a token with a NUL character the query is rejected and
    both revisions answer 500. *)
Theorem C3_legacy_link_check d token :
  (string_has_nul token = true ->
   fst (run (Revision1.get_payment_link token) d) = Value link_status_failed
   /\ fst (run (Revision2.get_payment_link token) d) = Value link_status_failed
   /\ status link_status_failed = 500)
  /\ (string_has_nul token = false ->
      ((forall r, In r (payment_links d) -> pl_token r <> token) ->
       fst (run (Revision1.get_payment_link token) d) = Value payment_link_not_found
       /\ fst (run (Revision2.get_payment_link token) d)
          = Value payment_link_not_found
       /\ status payment_link_not_found = 404)
      /\ ((exists r, In r (payment_links d) /\ pl_token r = token) ->
          (exists row, In row (payment_links d) /\ pl_token row = token
                       /\ fst (run (Revision1.get_payment_link token) d)
                          = Value (mkResponse 200 (LinkStatus (pl_active row))))
          /\ fst (run (Revision2.get_payment_link token) d)
             = Value (mkResponse 200 (LinkStatus (Some true))))).
Proof.
  rewrite get_payment_link_run1, get_payment_link_run2.
  split; [intros ->; repeat split|]. intros ->. split.
  - intros H. apply no_payment_link in H. rewrite H. repeat split.
  - intros (r & Hin & Ht).
    destruct (links_with_token token d) as [|row rest] eqn:E.
    + rewrite no_payment_link in E. now destruct (E r Hin).
    + apply filter_hd_in in E. destruct E as [Hrow Htok].
      apply String.eqb_eq in Htok. split; [|reflexivity].
      exists row. repeat split; assumption.
Qed.

Lemma put_admin_payment_link_run token active d :
  payment_links_has_active d = true ->
  run (put_admin_payment_link token active) d =
  if string_has_nul token then
    (Value update_failed, mkWorld d [UpdatePaymentLinkActive])
  else
    match filter (fun r => String.eqb (pl_token r) token)
            (set_matching active token (payment_links d)) with
    | [] => (Value payment_link_not_found,
             mkWorld (with_payment_links (set_matching active token (payment_links d)) d)
               [UpdatePaymentLinkActive])
    | row :: _ =>
        (Value (mkResponse 200
                  (LinkUpdated
                     (if truthy active then "Link activated" else "Link deactivated")
                     row)),
         mkWorld (with_payment_links (set_matching active token (payment_links d)) d)
           [UpdatePaymentLinkActive])
    end.
Proof.
  intros H.
  unfold run, put_admin_payment_link, try_catch, bind, pool_query, ret,
    update_payment_link_active. simpl. rewrite H.
  destruct (string_has_nul token); [reflexivity|].
  fold (set_matching active token (payment_links d)).
  destruct (filter _ (set_matching active token (payment_links d))); reflexivity.
Qed.

Lemma set_matching_idem active token rows :
  set_matching active token (set_matching active token rows)
  = set_matching active token rows.
Proof.
  unfold set_matching. rewrite map_map. apply map_ext. intros r.
  destruct (String.eqb (pl_token r) token) eqn:E; simpl; rewrite E; reflexivity.
Qed.

Lemma set_matching_no_match active token rows :
  (forall r, In r rows -> pl_token r <> token) ->
  set_matching active token rows = rows.
Proof.
  intros H. unfold set_matching. rewrite <- (map_id rows) at 2.
  apply map_ext_in. intros r Hin.
  destruct (String.eqb_spec (pl_token r) token) as [E|E];
    [now destruct (H r Hin) | reflexivity].
Qed.

Lemma with_payment_links_same d :
  with_payment_links (payment_links d) d = d.
Proof. now destruct d. Qed.

(** On a [payment_links] table that has the [active] column and for a
    token without a NUL character, setting the same state twice succeeds
    twice with the same row and the second call changes nothing; an
    unknown token gets 404 and the store is unchanged.  A token with a NUL
    character gets 500, and the store is unchanged. *)
Lemma set_link_active_idempotent d token (s : bool) :
  payment_links_has_active d = true ->
  let w1 := run (put_admin_payment_link token (Some s)) d in
  let w2 := run (put_admin_payment_link token (Some s)) (store (snd w1)) in
  (string_has_nul token = false ->
   ((exists r, In r (payment_links d) /\ pl_token r = token) ->
    exists row,
      fst w1 = Value (mkResponse 200
                        (LinkUpdated (if s then "Link activated" else "Link deactivated")
                           row))
      /\ fst w2 = fst w1
      /\ store (snd w2) = store (snd w1)
      /\ In row (payment_links (store (snd w1)))
      /\ pl_token row = token /\ pl_active row = Some s)
   /\ ((forall r, In r (payment_links d) -> pl_token r <> token) ->
       fst w1 = Value payment_link_not_found /\ store (snd w1) = d))
  /\ (string_has_nul token = true ->
      fst w1 = Value update_failed /\ store (snd w1) = d
      /\ status update_failed = 500).
Proof.
  intros Hcol w1 w2. subst w1 w2.
  rewrite (put_admin_payment_link_run token (Some s) d Hcol).
  split; [|intros ->; repeat split]. intros N. rewrite N.
  set (rows := set_matching (Some s) token (payment_links d)).
  split.
  - intros (r & Hin & Ht).
    destruct (filter (fun r0 => String.eqb (pl_token r0) token) rows)
      as [|row rest] eqn:E.
    + exfalso. rewrite filter_nil_iff in E.
      specialize (E (set_active (Some s) r)).
      assert (X : In (set_active (Some s) r) rows).
      { unfold rows, set_matching. apply in_map_iff. exists r.
        split; [|exact Hin]. apply String.eqb_eq in Ht. now rewrite Ht. }
      specialize (E X). simpl in E. apply String.eqb_neq in E. contradiction.
    + exists row. simpl fst. simpl snd. simpl store.
      rewrite put_admin_payment_link_run by exact Hcol. rewrite N.
      simpl payment_links.
      assert (Idem : set_matching (Some s) token rows = rows)
        by apply set_matching_idem.
      rewrite Idem, E.
      simpl. destruct (filter_hd_in _ _ E) as [Hrow Htok].
      apply String.eqb_eq in Htok.
      assert (Hact : pl_active row = Some s).
      { unfold rows, set_matching in Hrow. apply in_map_iff in Hrow.
        destruct Hrow as (r0 & <- & _).
        destruct (String.eqb (pl_token r0) token) eqn:T; simpl in *;
          [reflexivity|].
        apply String.eqb_neq in T. contradiction. }
      assert (W : with_payment_links rows (with_payment_links rows d)
                  = with_payment_links rows d) by reflexivity.
      rewrite W.
      destruct s; repeat split; assumption.
  - intros H. apply (set_matching_no_match (Some s)) in H as H'.
    fold rows in H'. rewrite H'.
    apply no_payment_link in H. unfold links_with_token in H. rewrite H.
    simpl. split; [reflexivity | apply with_payment_links_same].
Qed.

(** C5.  The code at the failing input.  On the store that the second
    revision's own [initializeDb] creates, [payment_links] has no [active]
    column: the UPDATE of [PUT /api/admin/payment-link/:token] is rejected
    and the handler answers 500, for the seeded token as for an unknown
    one, instead of 200 or 404. *)
Theorem C5_put_on_second_revision_schema :
  fst (run (put_admin_payment_link legacy_token (Some false)) fresh_db)
  = Value update_failed
  /\ fst (run (put_admin_payment_link "unknown" (Some false)) fresh_db)
     = Value update_failed
  /\ status update_failed = 500
  /\ map pl_token (payment_links fresh_db) = [legacy_token].
Proof.
  repeat split; reflexivity.
Qed.

(** ** Reference identifiers *)

Lemma substring_length_le n m s : (String.length (substring n m s) <= m)%nat.
Proof.
  revert n m. induction s as [|a s IH]; intros n m.
  - destruct n, m; simpl; lia.
  - destruct n; simpl.
    + destruct m; simpl; [lia|]. specialize (IH 0%nat m). lia.
    + apply IH.
Qed.

Lemma toUpperCase_length s : String.length (toUpperCase s) = String.length s.
Proof.
  induction s as [|a s IH]; simpl; [reflexivity | now rewrite IH].
Qed.

(** The suffix never has more than six characters. *)
Lemma randomString_at_most_6 random36 :
  (String.length (randomString random36) <= 6)%nat.
Proof.
  unfold randomString, substr. rewrite toUpperCase_length.
  apply substring_length_le.
Qed.

Lemma upper_of_base36 a :
  is_base36_digit a = true -> is_upper_alnum (upper_ascii a) = true.
Proof.
  destruct a as [[] [] [] [] [] [] [] []]; vm_compute; intros H;
    first [reflexivity | discriminate].
Qed.

Lemma toUpperCase_alnum s :
  all_chars is_base36_digit s = true ->
  all_chars is_upper_alnum (toUpperCase s) = true.
Proof.
  induction s as [|a s IH]; simpl; [reflexivity|].
  intros H. apply andb_true_iff in H. destruct H as [Ha Hs].
  now rewrite (upper_of_base36 a Ha), (IH Hs).
Qed.

Lemma substring_prefix_all p n : forall s,
  all_chars p s = true -> all_chars p (substring 0 n s) = true.
Proof.
  induction n as [|n IH]; intros s H.
  - destruct s; reflexivity.
  - destruct s as [|a s]; [reflexivity|].
    simpl in *. apply andb_true_iff in H. destruct H as [Ha Hs].
    now rewrite Ha, (IH s Hs).
Qed.

Lemma substring_prefix_length n : forall s,
  (n <= String.length s)%nat -> String.length (substring 0 n s) = n.
Proof.
  induction n as [|n IH]; intros s H.
  - destruct s; reflexivity.
  - destruct s as [|a s]; simpl in *; [lia|].
    rewrite IH; [reflexivity | lia].
Qed.

Lemma is_rendering_inv s :
  is_rendering s = true ->
  s = "0" \/ exists r, s = String "0" (String "." r)
                       /\ all_chars is_base36_digit r = true.
Proof.
  destruct s as [|a s]; [discriminate|].
  destruct (ascii_dec a "0") as [->|Na].
  - destruct s as [|b s]; [now left|].
    destruct (ascii_dec b ".") as [->|Nb].
    + destruct s as [|c s]; [discriminate|].
      intros H. right. now exists (String c s).
    + intros H. exfalso. apply Nb.
      destruct b as [[] [] [] [] [] [] [] []]; try discriminate H; reflexivity.
  - intros H. exfalso. apply Na.
    destruct a as [[] [] [] [] [] [] [] []]; try discriminate H; reflexivity.
Qed.

(** A rendering with six or more fractional digits gives a suffix of the
    documented format. *)
Lemma randomString_six random36 :
  is_rendering random36 = true ->
  (8 <= String.length random36)%nat ->
  is_random6 (randomString random36) = true.
Proof.
  intros R L. apply is_rendering_inv in R.
  destruct R as [-> | (r & -> & D)]; [simpl in L; lia|].
  simpl in L. unfold is_random6, randomString, substr. simpl substring.
  rewrite toUpperCase_length, substring_prefix_length by lia.
  rewrite toUpperCase_alnum; [reflexivity|].
  now apply substring_prefix_all.
Qed.

(** C7.  The code at the failing input.  When [Math.random()] returns 0.5,
    whose base-36 rendering is "0.i", the generated identifier is
    "PAY-2025-I": the suffix has one character, not six.  When it returns
    0, rendered "0", the suffix is empty. *)
Theorem C7_reference_id_short_suffix :
  is_rendering "0.i" = true
  /\ referenceId 2025 "0.i" = "PAY-2025-I"
  /\ randomString "0.i" = "I"
  /\ is_random6 (randomString "0.i") = false
  /\ referenceId 2025 "0" = "PAY-2025-"
  /\ is_random6 (randomString "0.4fzyo82mvyr") = true.
Proof.
  repeat split; reflexivity.
Qed.

(** ** Regular expressions: [regex_test] decides [Matches] *)

Lemma Matches_Seq_inv a b s :
  Matches (Seq a b) s -> exists u v, s = u ++ v /\ Matches a u /\ Matches b v.
Proof. intros H. inversion H; subst. eauto. Qed.

Lemma Matches_Alt_inv a b s :
  Matches (Alt a b) s -> Matches a s \/ Matches b s.
Proof. intros H. inversion H; subst; auto. Qed.

Lemma Matches_Class_inv p s :
  Matches (Class p) s -> exists c, s = [c] /\ p c = true.
Proof. intros H. inversion H; subst. eauto. Qed.

Lemma Matches_Star_cons_inv a c s :
  Matches (Star a) (c :: s) ->
  exists u v, s = u ++ v /\ Matches a (c :: u) /\ Matches (Star a) v.
Proof. intros H. inversion H; subst. eauto. Qed.

Lemma nullable_spec r : nullable r = true <-> Matches r [].
Proof.
  induction r as [| |p|a IHa b IHb|a IHa b IHb|a IHa]; simpl.
  - split; [discriminate | intros H; inversion H].
  - split; [intros _; constructor | reflexivity].
  - split; [discriminate | intros H; inversion H].
  - rewrite andb_true_iff, IHa, IHb. split.
    + intros [Ha Hb]. exact (MSeq Ha Hb).
    + intros H. apply Matches_Seq_inv in H. destruct H as (u & v & E & Hu & Hv).
      symmetry in E. apply app_eq_nil in E. destruct E; subst. now split.
  - rewrite orb_true_iff, IHa, IHb. split.
    + intros [H|H]; [now apply MAltL | now apply MAltR].
    + apply Matches_Alt_inv.
  - split; [intros _; constructor | reflexivity].
Qed.

Lemma deriv_spec r : forall c s, Matches (deriv c r) s <-> Matches r (c :: s).
Proof.
  induction r as [| |p|a IHa b IHb|a IHa b IHb|a IHa]; intros c s; simpl.
  - split; intros H; inversion H.
  - split; intros H; inversion H.
  - destruct (p c) eqn:P; split; intros H.
    + inversion H; subst. now constructor.
    + apply Matches_Class_inv in H. destruct H as (c' & E & _).
      inversion E; subst. constructor.
    + inversion H.
    + apply Matches_Class_inv in H. destruct H as (c' & E & P').
      inversion E; subst. congruence.
  - assert (Fwd : Matches (Seq (deriv c a) b) s -> Matches (Seq a b) (c :: s)).
    { intros H. apply Matches_Seq_inv in H. destruct H as (u & v & -> & Hu & Hv).
      apply IHa in Hu. exact (MSeq Hu Hv). }
    assert (Bwd : Matches (Seq a b) (c :: s) ->
                  Matches (Seq (deriv c a) b) s
                  \/ (Matches a [] /\ Matches (deriv c b) s)).
    { intros H. apply Matches_Seq_inv in H. destruct H as (u & v & E & Hu & Hv).
      destruct u as [|x u]; simpl in E.
      - subst v. right. split; [exact Hu | now apply IHb].
      - inversion E; subst. left. apply IHa in Hu. exact (MSeq Hu Hv). }
    destruct (nullable a) eqn:N.
    + split.
      * intros H. apply Matches_Alt_inv in H. destruct H as [H|H]; [auto|].
        apply IHb in H. apply nullable_spec in N.
        exact (MSeq (u := []) N H).
      * intros H. destruct (Bwd H) as [H'|[_ H']];
          [now apply MAltL | now apply MAltR].
    + split; [exact Fwd|].
      intros H. destruct (Bwd H) as [H'|[H' _]]; [exact H'|].
      apply nullable_spec in H'. congruence.
  - split; intros H.
    + apply Matches_Alt_inv in H. destruct H as [H|H];
        [apply MAltL; now apply IHa | apply MAltR; now apply IHb].
    + apply Matches_Alt_inv in H. destruct H as [H|H];
        [apply MAltL; now apply IHa | apply MAltR; now apply IHb].
  - split; intros H.
    + apply Matches_Seq_inv in H. destruct H as (u & v & -> & Hu & Hv).
      apply IHa in Hu. exact (MStarS Hu Hv).
    + apply Matches_Star_cons_inv in H. destruct H as (u & v & -> & Hu & Hv).
      apply IHa in Hu. exact (MSeq Hu Hv).
Qed.

Theorem regex_test_spec s : forall r, regex_test r s = true <-> Matches r s.
Proof.
  induction s as [|c s IH]; intros r; simpl.
  - apply nullable_spec.
  - rewrite IH. apply deriv_spec.
Qed.

Lemma Matches_Times n p s :
  Matches (Times n (Class p)) s <-> List.length s = n /\ forallb p s = true.
Proof.
  revert s. induction n as [|n IH]; intros s; simpl.
  - split.
    + intros H. inversion H; subst. now split.
    + intros [L _]. destruct s; [constructor | discriminate].
  - split.
    + intros H. apply Matches_Seq_inv in H. destruct H as (u & v & -> & Hu & Hv).
      apply Matches_Class_inv in Hu. destruct Hu as (c & -> & P).
      apply IH in Hv. destruct Hv as [L F]. simpl. rewrite P, L, F. now split.
    + intros [L F]. destruct s as [|c s]; [discriminate|].
      simpl in *. apply andb_true_iff in F. destruct F as [P F].
      apply (MSeq (u := [c]) (v := s)); [now constructor|].
      apply IH. split; [congruence | exact F].
Qed.

(** [/^[6-9]\d{9}$/] matches exactly the ten-character strings that start
    with 6, 7, 8 or 9 and continue with nine digits. *)
Lemma phone_regex_spec s :
  regex_test phone_regex s = true <->
  exists c r, s = c :: r /\ is_6_to_9 c = true
              /\ List.length r = 9%nat /\ forallb is_digit r = true.
Proof.
  rewrite regex_test_spec. unfold phone_regex. split.
  - intros H. apply Matches_Seq_inv in H. destruct H as (u & v & -> & Hu & Hv).
    apply Matches_Class_inv in Hu. destruct Hu as (c & -> & P).
    apply Matches_Times in Hv. destruct Hv as [L F].
    exists c, v. repeat split; assumption.
  - intros (c & r & -> & P & L & F).
    apply (MSeq (u := [c]) (v := r)); [now constructor|].
    apply Matches_Times. now split.
Qed.

(** ** The contact form *)

Lemma js_length_trim_nil : js_length (trim []) = 0%nat.
Proof. reflexivity. Qed.

Lemma too_short_false n x :
  (0 < n)%nat ->
  too_short n x = false <-> exists s, x = Some s /\ (n <= js_length (trim s))%nat.
Proof.
  intros Hn. unfold too_short, falsy. destruct x as [s|].
  - destruct s as [|c s].
    + simpl. split; [discriminate|].
      intros (s & E & L). inversion E; subst. rewrite js_length_trim_nil in L. lia.
    + rewrite orb_false_l, Nat.ltb_ge. split.
      * intros L. now exists (c :: s).
      * intros (s' & E & L). now inversion E; subst.
  - split; [discriminate | intros (s & E & _); discriminate].
Qed.

Lemma fails_test_false re x :
  regex_test re [] = false ->
  fails_test re x = false <-> exists s, x = Some s /\ regex_test re s = true.
Proof.
  intros Hnil. unfold fails_test, falsy. destruct x as [s|].
  - destruct s as [|c s].
    + simpl. split; [discriminate|].
      intros (s & E & L). inversion E; subst. congruence.
    + rewrite orb_false_l, negb_false_iff. split.
      * intros L. now exists (c :: s).
      * intros (s' & E & L). now inversion E; subst.
  - split; [discriminate | intros (s & E & _); discriminate].
Qed.

Lemma falsy_false x : falsy x = false <-> exists s, x = Some s /\ s <> [].
Proof.
  unfold falsy. destruct x as [[|c s]|].
  - split; [discriminate | intros (s & E & N); inversion E; subst; now destruct N].
  - split; [intros _; exists (c :: s); split; [reflexivity | discriminate]
           | reflexivity].
  - split; [discriminate | intros (s & E & _); discriminate].
Qed.

Lemma name_ok_iff f : too_short 3 (name f) = false <-> name_ok f.
Proof. apply too_short_false. lia. Qed.

Lemma email_ok_iff f : fails_test email_regex (email f) = false <-> email_ok f.
Proof. now apply fails_test_false. Qed.

Lemma phone_ok_iff f : fails_test phone_regex (phone f) = false <-> phone_ok f.
Proof. now apply fails_test_false. Qed.

Lemma subject_ok_iff f : falsy (subject f) = false <-> subject_ok f.
Proof. apply falsy_false. Qed.

Lemma message_ok_iff f : too_short 10 (message f) = false <-> message_ok f.
Proof. apply too_short_false. lia. Qed.

(** The keys of the error object: the violated fields, each once, in the
    order of the checks. *)
Lemma validate_keys f :
  map fst (validate f) =
  (if too_short 3 (name f) then ["name"] else [])
  ++ (if fails_test email_regex (email f) then ["email"] else [])
  ++ (if fails_test phone_regex (phone f) then ["phone"] else [])
  ++ (if falsy (subject f) then ["subject"] else [])
  ++ (if too_short 10 (message f) then ["message"] else []).
Proof.
  unfold validate, set_error.
  destruct (too_short 3 (name f)), (fails_test email_regex (email f)),
    (fails_test phone_regex (phone f)), (falsy (subject f)),
    (too_short 10 (message f)); reflexivity.
Qed.

Lemma not_true_iff_false' b : b = true <-> ~ (b = false).
Proof. destruct b; split; congruence. Qed.

Lemma validate_entries f :
  NoDup (map fst (validate f))
  /\ (In "name" (map fst (validate f)) <-> ~ name_ok f)
  /\ (In "email" (map fst (validate f)) <-> ~ email_ok f)
  /\ (In "phone" (map fst (validate f)) <-> ~ phone_ok f)
  /\ (In "subject" (map fst (validate f)) <-> ~ subject_ok f)
  /\ (In "message" (map fst (validate f)) <-> ~ message_ok f)
  /\ (forall k, In k (map fst (validate f)) ->
        In k ["name"; "email"; "phone"; "subject"; "message"]).
Proof.
  rewrite validate_keys.
  rewrite <- name_ok_iff, <- email_ok_iff, <- phone_ok_iff, <- subject_ok_iff,
    <- message_ok_iff.
  rewrite <- !not_true_iff_false'.
  destruct (too_short 3 (name f)), (fails_test email_regex (email f)),
    (fails_test phone_regex (phone f)), (falsy (subject f)),
    (too_short 10 (message f)); simpl;
    (split; [repeat constructor; simpl; intuition discriminate|]);
    repeat split; intros; intuition (try discriminate; try congruence).
Qed.

Lemma validate_nil f :
  validate f = [] <->
  name_ok f /\ email_ok f /\ phone_ok f /\ subject_ok f /\ message_ok f.
Proof.
  rewrite <- name_ok_iff, <- email_ok_iff, <- phone_ok_iff, <- subject_ok_iff,
    <- message_ok_iff.
  split.
  - intros H. apply (f_equal (map fst)) in H. rewrite validate_keys in H.
    destruct (too_short 3 (name f)), (fails_test email_regex (email f)),
      (fails_test phone_regex (phone f)), (falsy (subject f)),
      (too_short 10 (message f)); simpl in H; try discriminate. repeat split.
  - intros (A & B & C & D & E). unfold validate, set_error.
    now rewrite A, B, C, D, E.
Qed.

Lemma digits_have_no_nul r : forallb is_digit r = true -> has_nul r = false.
Proof.
  induction r as [|c r IH]; simpl; [reflexivity|].
  intros H. apply andb_true_iff in H. destruct H as [Hc Hr].
  rewrite (IH Hr), orb_false_r. unfold is_digit in Hc.
  apply andb_true_iff in Hc. destruct Hc as [Lo _].
  apply N.leb_le in Lo. destruct c; [lia | reflexivity].
Qed.

Lemma phone_is_storable p :
  regex_test phone_regex p = true ->
  has_nul p = false /\ varchar 20 p = Some p.
Proof.
  intros H. apply phone_regex_spec in H.
  destruct H as (c & r & -> & P & L & F). split.
  - simpl. rewrite (digits_have_no_nul r F), orb_false_r.
    unfold is_6_to_9 in P. apply andb_true_iff in P. destruct P as [Lo _].
    apply N.leb_le in Lo. destruct c; [lia | reflexivity].
  - unfold varchar. simpl List.length. rewrite L. reflexivity.
Qed.

Lemma varchar_fits n s : (List.length s <= n)%nat -> varchar n s = Some s.
Proof.
  intros L. unfold varchar. apply Nat.leb_le in L. now rewrite L.
Qed.

(** C8, as stated, fails twice.  A name of three blanks has three
    characters, and every other field is valid, yet the response is 400:
    the handler measures the name after [trim].  A name of 101 letters is
    valid for the handler, but VARCHAR(100) refuses it: the response is
    500 and no row is stored. *)
Lemma C8_counterexample :
  (js_length [32; 32; 32]%N = 3%nat
   /\ name blank_name_form = Some [32; 32; 32]%N
   /\ email_ok blank_name_form /\ phone_ok blank_name_form
   /\ subject_ok blank_name_form /\ message_ok blank_name_form
   /\ fst (run (post_contact_submit 0 blank_name_form) fresh_db)
      = Value (mkResponse 400
                 (FieldErrors [("name", "Name must be at least 3 characters")])))
  /\ (validate long_name_form = []
      /\ fst (run (post_contact_submit 0 long_name_form) fresh_db)
         = Value (mkResponse 500
                    (FailureWith "Failed to submit form" string_data_right_truncation))
      /\ contacts (store (snd (run (post_contact_submit 0 long_name_form) fresh_db)))
         = []).
Proof.
  split.
  - repeat split; try reflexivity.
    + eexists; split; [reflexivity | vm_compute; reflexivity].
    + eexists; split; [reflexivity | vm_compute; reflexivity].
    + eexists; split; [reflexivity | discriminate].
    + eexists; split; [reflexivity | vm_compute; lia].
  - repeat split; vm_compute; reflexivity.
Qed.

(** C8, amended.  When every check of the handler passes (name of at
    least 3 characters after trimming, email matching the email regex,
    phone matching [6-9] and nine digits, non-empty subject, message of at
    least 10 characters after trimming) and the store accepts the values
    (no NUL character; name, email and subject within 100 characters), the
    response is 201 and echoes the row that was appended to [contacts].
    When some check fails, the response is 400 with exactly one error
    entry per violated field, no statement is sent and the store is
    unchanged. *)
Theorem C8_contact_submit d sql_now f :
  let w := run (post_contact_submit sql_now f) d in
  (name_ok f -> email_ok f -> phone_ok f -> subject_ok f -> message_ok f ->
   storable f ->
   exists row,
     fst w = Value (mkResponse 201
                      (ContactStored "Form submitted successfully" (Some row)))
     /\ contacts (store (snd w)) = contacts d ++ [row]
     /\ name f = Some (ct_name row) /\ email f = Some (ct_email row)
     /\ phone f = Some (ct_phone row) /\ subject f = Some (ct_subject row)
     /\ message f = Some (ct_message row))
  /\ (~ (name_ok f /\ email_ok f /\ phone_ok f /\ subject_ok f /\ message_ok f) ->
      exists errors,
        w = (Value (mkResponse 400 (FieldErrors errors)), mkWorld d [])
        /\ errors <> []
        /\ NoDup (map fst errors)
        /\ (In "name" (map fst errors) <-> ~ name_ok f)
        /\ (In "email" (map fst errors) <-> ~ email_ok f)
        /\ (In "phone" (map fst errors) <-> ~ phone_ok f)
        /\ (In "subject" (map fst errors) <-> ~ subject_ok f)
        /\ (In "message" (map fst errors) <-> ~ message_ok f)
        /\ (forall k, In k (map fst errors) ->
              In k ["name"; "email"; "phone"; "subject"; "message"])).
Proof.
  intros w. subst w. split.
  - intros Hn He Hp Hs Hm St.
    assert (V : validate f = []) by (apply validate_nil; auto).
    destruct Hn as (n & En & _), He as (e & Ee & _), Hp as (p & Ep & Rp),
      Hs as (s & Es & _), Hm as (m & Em & _).
    destruct (St n e s m En Ee Es Em) as (Nn & Ne & Ns & Nm & Ln & Le & Ls).
    destruct (phone_is_storable p Rp) as [Np Vp].
    unfold run, post_contact_submit. rewrite V.
    unfold try_catch, bind, pool_query, ret, insert_contact. simpl.
    rewrite En, Ee, Ep, Es, Em, Nn, Ne, Np, Ns, Nm. simpl.
    rewrite (varchar_fits n Ln), (varchar_fits e Le), Vp, (varchar_fits s Ls).
    simpl. eexists. repeat split.
  - intros H. exists (validate f).
    destruct (validate_entries f) as (ND & K).
    assert (NE : validate f <> []).
    { intros E. apply H. now apply validate_nil. }
    split; [|split; [exact NE | split; [exact ND | exact K]]].
    unfold run, post_contact_submit.
    destruct (validate f); [now destruct NE | reflexivity].
Qed.

Example good_form_is_stored :
  fst (run (post_contact_submit 7 good_form) fresh_db)
  = Value (mkResponse 201
             (ContactStored "Form submitted successfully"
                (Some {| ct_id := 1;
                         ct_name := text_of_string "Asha Rao";
                         ct_email := text_of_string "asha@example.com";
                         ct_phone := text_of_string "9876543210";
                         ct_subject := text_of_string "Web Development";
                         ct_message := text_of_string "Please call me back.";
                         ct_created_at := 7 |}))).
Proof. vm_compute. reflexivity. Qed.

(** ** Searching payment registrations *)

(** A pattern that ends in [%] always parses: the final [%] either closes
    an escape or stands for itself. *)
Lemma like_parse_closed n : forall q,
  (List.length q <= n)%nat -> exists p, like_parse (q ++ [percent]) = Some p.
Proof.
  induction n as [|n IH]; intros q L.
  - destruct q; [|simpl in L; lia]. now exists [AnyRun].
  - destruct q as [|c r]; [now exists [AnyRun]|].
    simpl in L. simpl like_parse.
    destruct (c =? 92)%N.
    + destruct r as [|e r'].
      * now exists [Lit percent].
      * simpl in L. destruct (IH r') as (p & Hp); [lia|].
        simpl. rewrite Hp. now eexists.
    + destruct (IH r) as (p & Hp); [lia|].
      destruct (c =? 37)%N; [|destruct (c =? 95)%N]; rewrite Hp; now eexists.
Qed.

Lemma search_term_parses q :
  exists p, like_parse ([percent] ++ q ++ [percent]) = Some (AnyRun :: p).
Proof.
  destruct (@like_parse_closed (List.length q) q (le_n _)) as (p & Hp).
  exists p. simpl. now rewrite Hp.
Qed.

Lemma firstn_in {A} (x : A) n : forall l, In x (firstn n l) -> In x l.
Proof.
  induction n as [|n IH]; intros l H; [destruct H|].
  destruct l as [|a l]; [destruct H|].
  simpl in H. destruct H as [H|H]; [now left | right; now apply IH].
Qed.

Lemma search_term_has_nul q :
  has_nul ([percent] ++ q ++ [percent]) = has_nul q.
Proof.
  unfold has_nul. rewrite !existsb_app. simpl. now rewrite orb_false_r.
Qed.

Section SearchFacts.

Variable lower : N -> N.

(** ILIKE does not see case: two texts with the same lower-casing match
    the same patterns. *)
Lemma like_match_case_insensitive p : forall s1 s2,
  map lower s1 = map lower s2 ->
  like_match lower p s1 = like_match lower p s2.
Proof.
  induction p as [|t p IH]; intros s1 s2 E.
  - destruct s1, s2; simpl in *; try reflexivity; discriminate.
  - destruct t.
    + simpl. revert s2 E. induction s1 as [|x s1 IHs]; intros s2 E.
      * destruct s2; [reflexivity | discriminate].
      * destruct s2 as [|y s2]; [discriminate|].
        simpl in E. inversion E as [[Exy Es]].
        rewrite (IH (x :: s1) (y :: s2)) by (simpl; congruence).
        f_equal. now apply IHs.
    + destruct s1, s2; simpl in *; try reflexivity; try discriminate.
      inversion E. now apply IH.
    + destruct s1 as [|x s1], s2 as [|y s2]; simpl in *;
        try reflexivity; try discriminate.
      inversion E as [[Exy Es]]. rewrite Exy. f_equal. now apply IH.
Qed.

(** The handler registered for [GET /api/admin/payments/search], when it
    is run: if the query parameter is missing, or is a string shorter than
    3 characters after trimming, the response is 400 and no statement is
    sent; if it is a string of 3 or more characters after trimming, one
    statement is sent and the store is unchanged; the response is 500 when
    the string holds a NUL character, and otherwise 200 with at most 20
    rows of [payment_registrations], each matching the pattern [%query%]
    with ILIKE on [client_name], [project_name], [client_id] or
    [reference_id]; when at most 20 rows match, all of them are returned.
    The match does not depend on the case of the stored text. *)
Lemma search_handler_cases d query :
  let w := run (get_admin_payments_search lower query) d in
  ((query = QMissing
    \/ exists q, query = QString q /\ (js_length (trim q) < 3)%nat) ->
   w = (Value search_too_short, mkWorld d []))
  /\ (forall q, query = QString q -> (3 <= js_length (trim q))%nat ->
      has_nul q = true ->
      w = (Value (mkResponse 500
                    (FailureWith "Failed to search payment registrations"
                       invalid_byte_sequence)),
           mkWorld d [SearchPayments]))
  /\ (forall q, query = QString q -> (3 <= js_length (trim q))%nat ->
      has_nul q = false ->
      exists p rows,
        like_parse ([percent] ++ q ++ [percent]) = Some p
        /\ w = (Value (mkResponse 200 (Payments rows)), mkWorld d [SearchPayments])
        /\ (List.length rows <= 20)%nat
        /\ (forall r, In r rows ->
              In r (payment_registrations d) /\ search_hit lower p r = true)
        /\ ((List.length (filter (search_hit lower p) (payment_registrations d))
             <= 20)%nat ->
            forall r, In r (payment_registrations d) ->
                      search_hit lower p r = true -> In r rows)
        /\ (forall s1 s2, map lower s1 = map lower s2 ->
              like_match lower p s1 = like_match lower p s2)).
Proof.
  intros w. subst w. split; [|split].
  - intros [-> | (q & -> & L)]; [reflexivity|].
    unfold run, get_admin_payments_search, try_catch.
    assert (T : too_short 3 (Some q) = true).
    { destruct (too_short 3 (Some q)) eqn:E; [reflexivity|].
      apply too_short_false in E; [|lia].
      destruct E as (s & Es & Ls). inversion Es; subst. lia. }
    rewrite T. reflexivity.
  - intros q -> L Nul.
    assert (T : too_short 3 (Some q) = false).
    { apply too_short_false; [lia|]. now exists q. }
    unfold run, get_admin_payments_search, try_catch, bind, pool_query, ret,
      search_payments.
    rewrite T, search_term_has_nul, Nul. reflexivity.
  - intros q -> L Nul.
    destruct (search_term_parses q) as (p & Hp).
    exists (AnyRun :: p).
    exists (firstn 20 (order_desc pr_created_at
                         (filter (search_hit lower (AnyRun :: p))
                            (payment_registrations d)))).
    assert (T : too_short 3 (Some q) = false).
    { apply too_short_false; [lia|]. now exists q. }
    split; [exact Hp|]. split.
    { unfold run, get_admin_payments_search, try_catch, bind, pool_query, ret,
        search_payments.
      rewrite T, search_term_has_nul, Nul, Hp. reflexivity. }
    split; [apply firstn_le_length|]. split.
    { intros r Hin. apply firstn_in in Hin. apply order_desc_in in Hin.
      now apply filter_In in Hin. }
    split.
    { intros Len r Hin Hit. rewrite firstn_all2.
      - apply order_desc_in. apply filter_In. now split.
      - now rewrite order_desc_length. }
    intros s1 s2. apply like_match_case_insensitive.
Qed.

End SearchFacts.

(** C9.  The code at the failing input.  The route
    [/api/admin/payments/:id] is registered before
    [/api/admin/payments/search] (in both revisions), and its handler does
    not call [next]: every GET for [/api/admin/payments/search], whatever
    its query string, is answered by the handler of the former with
    [id = "search"].  That handler sends its SELECT, which is rejected
    ("search" is no integer), and answers 500, where the claim has 400
    without a query, or 200. *)
Theorem C9_search_route_shadowed :
  dispatch GET ["api"; "admin"; "payments"; "search"]
  = Some (GetAdminPaymentById, [("id", "search")])
  /\ (forall d,
        run (get_admin_payment_by_id "search") d
        = (Value (mkResponse 500
                    (FailureWith "Failed to fetch payment registration"
                       invalid_text_representation)),
           mkWorld d [SelectPaymentById]))
  /\ status (mkResponse 500
               (FailureWith "Failed to fetch payment registration"
                  invalid_text_representation)) = 500.
Proof.
  split; [reflexivity | split; [intros d; reflexivity | reflexivity]].
Qed.

(** The other routes of the claims reach their own handlers. *)
Lemma routes_reach_handlers token :
  dispatch GET ["api"; "client-details"; token]
  = Some (GetClientDetails, [("token", token)])
  /\ dispatch GET ["api"; "payment-link"; token]
     = Some (GetPaymentLink, [("token", token)])
  /\ dispatch PUT ["api"; "admin"; "payment-link"; token]
     = Some (PutAdminPaymentLink, [("token", token)])
  /\ dispatch POST ["api"; "admin"; "client-links"] = Some (PostAdminClientLinks, [])
  /\ dispatch POST ["api"; "contact"; "submit"] = Some (PostContactSubmit, [])
  /\ dispatch POST ["api"; "payment"; "submit"] = Some (PostPaymentSubmit, []).
Proof.
  repeat split; reflexivity.
Qed.

(* ===================================================================== *)
(** * Worked instances *)
(* ===================================================================== *)

Example live_link_verifies :
  fst (run (get_client_details 100 100 "live") sample_db)
  = Value (mkResponse 200
             (ClientDetails asha (text_of_string "Asha Rao") 1
                (text_of_string "Website") (Numeric 1250000) 2000)).
Proof. reflexivity. Qed.

Example link_without_payment_gets_defaults :
  fst (run (get_client_details 100 100 "live")
         (mkDb [] 1 [] [] true [asha] (client_links sample_db) 4))
  = Value (mkResponse 200
             (ClientDetails asha (text_of_string "Asha Rao") 1
                (text_of_string "New Project") (Number 5000) 604800100)).
Proof. reflexivity. Qed.

Example good_form_passes_every_check :
  name_ok good_form /\ email_ok good_form /\ phone_ok good_form
  /\ subject_ok good_form /\ message_ok good_form /\ storable good_form.
Proof.
  split; [|split; [|split; [|split; [|split]]]].
  - eexists; split; [reflexivity | vm_compute; lia].
  - eexists; split; [reflexivity | vm_compute; reflexivity].
  - eexists; split; [reflexivity | vm_compute; reflexivity].
  - eexists; split; [reflexivity | discriminate].
  - eexists; split; [reflexivity | vm_compute; lia].
  - intros n0 e0 s0 m0 Hn He Hs Hm.
    inversion Hn; inversion He; inversion Hs; inversion Hm; subst.
    vm_compute. repeat split; lia.
Qed.

Example search_ignores_case :
  fst (run (get_admin_payments_search ascii_lower (QString (text_of_string "acme")))
         sample_db)
  = Value (mkResponse 200 (Payments [acme_payment]))
  /\ fst (run (get_admin_payments_search ascii_lower (QString (text_of_string "zzz")))
            sample_db)
     = Value (mkResponse 200 (Payments [])).
Proof. split; reflexivity. Qed.

Ltac each_link :=
  let l := fresh "l" in
  let H := fresh "H" in
  let T := fresh "T" in
  intros l H T; simpl in H;
  repeat (destruct H as [<- | H]; [simpl in *; try discriminate |]);
  try contradiction.

(** C4 at the sample store: at time 100 a token that was never issued,
    the deactivated link and the link that expires at 100 all get the same
    answer. *)
Lemma C4_witness :
  run (get_client_details 100 100 "never") sample_db
  = (Value link_not_found, mkWorld sample_db [SelectClientLinkByToken])
  /\ run (get_client_details 100 100 "off") sample_db
     = (Value link_not_found, mkWorld sample_db [SelectClientLinkByToken])
  /\ run (get_client_details 100 100 "old") sample_db
     = (Value link_not_found, mkWorld sample_db [SelectClientLinkByToken]).
Proof.
  split; [|split].
  - apply (@C4_generic_failure sample_db 100 100 "never" eq_refl). each_link.
  - apply (@C4_generic_failure sample_db 100 100 "off" eq_refl). each_link.
    left. discriminate.
  - apply (@C4_generic_failure sample_db 100 100 "old" eq_refl). each_link.
    right. apply Z.le_refl.
Defined.

(** C2 at the sample store: a link for client 1 with a token no row
    holds. *)
Lemma C2_witness :
  exists row,
    client_links
      (store (snd (run (post_admin_client_links 5000 5000 zero_bytes (Some 1))
                     sample_db)))
    = client_links sample_db ++ [row]
    /\ cl_active row = Some true
    /\ cl_expires_at row = 5000 + 24 * 60 * 60 * 1000.
Proof.
  destruct (@C2_issue_inserts_one_row sample_db 5000 5000 zero_bytes (Some 1) eq_refl)
    as [Ok _].
  destruct Ok as (row & Hrows & Hact & Hexp & _).
  - right. exists asha. split; [now left | reflexivity].
  - intros l H. simpl in H.
    repeat (destruct H as [<- | H]; [discriminate |]). contradiction.
  - exists row. split; [exact Hrows | split; [exact Hact | exact Hexp]].
Defined.

(** C6 at the sample store: two links for client 1 from two different
    draws of 32 bytes. *)
Lemma C6_witness :
  hex zero_bytes <> hex ff_bytes
  /\ exists projectName amount dueDate,
       fst (run (get_client_details 6000 6000 (hex zero_bytes))
              (store (snd (run (post_admin_client_links 5001 5001 ff_bytes (Some 1))
                     (store (snd (run (post_admin_client_links 5000 5000 zero_bytes
                                         (Some 1)) sample_db)))))))
       = Value (mkResponse 200
                  (ClientDetails asha (c_name asha) (c_id asha)
                     projectName amount dueDate)).
Proof.
  assert (ND : NoDup (map c_id (clients sample_db))).
  { repeat constructor. simpl. tauto. }
  destruct (@C6_two_links_same_client sample_db asha 5000 5000 zero_bytes
              5001 5001 ff_bytes eq_refl eq_refl ND (or_introl eq_refl))
    as (Both & Then).
  destruct Both as (R1 & R2).
  - intros l H. simpl in H.
    repeat (destruct H as [<- | H]; [split; discriminate |]). contradiction.
  - discriminate.
  - destruct (Then _ _ _ _ _ _ R1 R2) as (Ne & _ & _ & Ver).
    split; [exact Ne|].
    destruct (Ver 6000 6000) as (pn & amt & due & V1 & _).
    + reflexivity.
    + reflexivity.
    + exists pn, amt, due. exact V1.
Defined.

(* ===================================================================== *)
(** * Further properties of the handlers *)
(* ===================================================================== *)

(** ** Routing *)

Lemma id_route_covers_search_route a b c p s path l :
  match_path [Exact a; Exact b; Exact c; Exact s] path = Some l ->
  match_path [Exact a; Exact b; Exact c; Param p] path <> None.
Proof.
  destruct path as [|x1 [|x2 [|x3 [|x4 [|x5 r]]]]];
    cbn [match_path option_map];
    repeat match goal with
           | |- context [String.eqb ?u ?v] => destruct (String.eqb u v)
           end; discriminate.
Qed.

(** How integer parameters are read, at some texts. *)
Example integer_parameters :
  int4_parameter "42" = Value 42
  /\ int4_parameter " -7 " = Value (-7)
  /\ int4_parameter "+2147483647" = Value 2147483647
  /\ int4_parameter "-2147483648" = Value (-2147483648)
  /\ int4_parameter "0x1" = Value 1
  /\ int4_parameter "0X_ff" = Value 255
  /\ int4_parameter "0b11" = Value 3
  /\ int4_parameter "0o17" = Value 15
  /\ int4_parameter "1_000" = Value 1000
  /\ int4_parameter "2147483648" = Raised numeric_value_out_of_range
  /\ int4_parameter "99999999999x" = Raised numeric_value_out_of_range
  /\ int4_parameter "0x80000000" = Raised numeric_value_out_of_range
  /\ int4_parameter "search" = Raised invalid_text_representation
  /\ int4_parameter "" = Raised invalid_text_representation
  /\ int4_parameter "1_" = Raised invalid_text_representation
  /\ int4_parameter "_1" = Raised invalid_text_representation
  /\ int4_parameter "1__0" = Raised invalid_text_representation
  /\ int4_parameter "0x" = Raised invalid_text_representation
  /\ int4_parameter "- 5" = Raised invalid_text_representation
  /\ int4_parameter "1.0" = Raised invalid_text_representation
  /\ int4_parameter (String Ascii.zero "1") = Raised invalid_byte_sequence.
Proof. repeat split; vm_compute; reflexivity. Qed.

Lemma pg_int4_in_some id n :
  pg_int4_in id = Some n <-> int4_parameter id = Value n.
Proof.
  unfold pg_int4_in. destruct (int4_parameter id); split; congruence.
Qed.

Lemma pg_int4_in_none id :
  pg_int4_in id = None <-> exists e, int4_parameter id = Raised e.
Proof.
  unfold pg_int4_in. destruct (int4_parameter id); split;
    try congruence; try (intros (e0 & H); congruence). intros _. now eexists.
Qed.

(** No request is answered by the search handler: whatever the method and
    the path, [dispatch] never selects it.  Every GET for
    [/api/admin/payments/x], "search" included, goes to the handler of
    [/api/admin/payments/:id] with [id = x]; when PostgreSQL refuses [x]
    as an integer, as it does "search", that handler answers 500 with the
    error of the refusal. *)
Theorem search_handler_is_never_reached :
  (forall m path e params,
      dispatch m path = Some (e, params) -> e <> GetAdminPaymentsSearch)
  /\ (forall x, dispatch GET ["api"; "admin"; "payments"; x]
                = Some (GetAdminPaymentById, [("id", x)]))
  /\ (forall x d e, int4_parameter x = Raised e ->
        run (get_admin_payment_by_id x) d
        = (Value (mkResponse 500
                    (FailureWith "Failed to fetch payment registration" e)),
           mkWorld d [SelectPaymentById]))
  /\ int4_parameter "search" = Raised invalid_text_representation.
Proof.
  split; [|split; [|split]].
  - intros m path e params H. unfold dispatch, routes in H.
    destruct m; cbn [first_match method_eqb] in H;
      repeat match type of H with
             | context [match match_path ?P path with _ => _ end] =>
                 let E := fresh "E" in
                 destruct (match_path P path) eqn:E;
                 [inversion H; subst;
                  first [discriminate
                        | exfalso;
                          eapply id_route_covers_search_route; eassumption]
                 |]
             end; discriminate.
  - intros x. reflexivity.
  - intros x d e Hx.
    unfold run, get_admin_payment_by_id, try_catch, bind, pool_query, ret,
      select_payment_by_id. simpl. rewrite Hx. reflexivity.
  - reflexivity.
Qed.

(** [GET /api/admin/payments/:id] never writes and sends one statement.
    It answers 500 when PostgreSQL refuses the id as a 32-bit integer
    (with the error of the refusal: a NUL character, no integer syntax,
    or out of range), 404 when it accepts it and no registration has that
    key, and otherwise 200 with a stored registration whose key is the
    number the text denotes. *)
Theorem get_admin_payment_by_id_cases id d :
  snd (run (get_admin_payment_by_id id) d) = mkWorld d [SelectPaymentById]
  /\ (pg_int4_in id = None ->
      exists e, int4_parameter id = Raised e
                /\ fst (run (get_admin_payment_by_id id) d)
                   = Value (mkResponse 500
                              (FailureWith "Failed to fetch payment registration" e)))
  /\ (forall n, pg_int4_in id = Some n ->
      ((forall p, In p (payment_registrations d) -> pr_id p <> n) ->
       fst (run (get_admin_payment_by_id id) d)
       = Value (mkResponse 404 (Failure "Payment registration not found")))
      /\ ((exists p, In p (payment_registrations d) /\ pr_id p = n) ->
          exists row,
            fst (run (get_admin_payment_by_id id) d)
            = Value (mkResponse 200 (OnePayment row))
            /\ In row (payment_registrations d) /\ pr_id row = n)).
Proof.
  unfold run, get_admin_payment_by_id, try_catch, bind, pool_query, ret,
    select_payment_by_id, pg_int4_in. simpl.
  destruct (int4_parameter id) as [n|e] eqn:P; simpl.
  - destruct (filter (fun p => pr_id p =? n) (payment_registrations d))
      as [|row rest] eqn:F; simpl.
    + split; [reflexivity|]. split; [discriminate|].
      intros n' E. inversion E; subst n'. split; [reflexivity|].
      intros (p & Hin & Hid). exfalso.
      rewrite filter_nil_iff in F. specialize (F p Hin).
      apply Z.eqb_neq in F. contradiction.
    + split; [reflexivity|]. split; [discriminate|].
      intros n' E. inversion E; subst n'.
      apply filter_hd_in in F. destruct F as [Hin Hid].
      apply Z.eqb_eq in Hid. split.
      * intros H. now destruct (H row Hin).
      * intros _. exists row. repeat split; assumption.
  - split; [reflexivity|]. split; [intros _; now exists e | discriminate].
Qed.

(** ** The checks of the contact form *)

(** The form gets a "phone" error exactly when the phone is missing or is
    not ten characters, the first of 6, 7, 8, 9 and the rest digits. *)
Theorem phone_error_iff_not_a_mobile_number f :
  In "phone" (map fst (validate f)) <->
  ~ exists c r, phone f = Some (c :: r)
                /\ (54 <= c <= 57)%N
                /\ List.length r = 9%nat
                /\ Forall (fun x => (48 <= x <= 57)%N) r.
Proof.
  destruct (validate_entries f) as (_ & _ & _ & Hp & _).
  rewrite Hp. unfold phone_ok.
  assert (D : forall r, forallb is_digit r = true
                        <-> Forall (fun x => (48 <= x <= 57)%N) r).
  { intros r. rewrite forallb_forall, Forall_forall.
    split; intros H x Hx; specialize (H x Hx); unfold is_digit in *.
    - apply andb_true_iff in H. destruct H as [A B].
      apply N.leb_le in A, B. lia.
    - apply andb_true_iff. split; apply N.leb_le; lia. }
  split; intros H C; apply H; clear H.
  - destruct C as (c & r & E & Hc & L & F).
    exists (c :: r). split; [exact E|]. apply phone_regex_spec.
    exists c, r. repeat split; try assumption.
    + unfold is_6_to_9. apply andb_true_iff. split; apply N.leb_le; lia.
    + now apply D.
  - destruct C as (s & E & R). apply phone_regex_spec in R.
    destruct R as (c & r & -> & Hc & L & F).
    exists c, r. repeat split; try assumption.
    + unfold is_6_to_9 in Hc. apply andb_true_iff in Hc.
      destruct Hc as [A _]. now apply N.leb_le in A.
    + unfold is_6_to_9 in Hc. apply andb_true_iff in Hc.
      destruct Hc as [_ B]. now apply N.leb_le in B.
    + now apply D.
Qed.

Lemma Matches_Star_Class p s :
  Matches (Star (Class p)) s <-> forallb p s = true.
Proof.
  split.
  - intros H. remember (Star (Class p)) as r eqn:R.
    induction H; try discriminate; inversion R; subst; [reflexivity|].
    apply Matches_Class_inv in H. destruct H as (c' & E & P).
    inversion E; subst. simpl. rewrite P. now apply IHMatches2.
  - induction s as [|c s IH]; simpl; intros H; [constructor|].
    apply andb_true_iff in H. destruct H as [P F].
    apply (MStarS (a := Class p) (c := c) (u := []) (v := s));
      [now constructor | now apply IH].
Qed.

Lemma Matches_Plus_Class p s :
  Matches (Plus (Class p)) s <-> s <> [] /\ forallb p s = true.
Proof.
  unfold Plus. split.
  - intros H. apply Matches_Seq_inv in H. destruct H as (u & v & -> & Hu & Hv).
    apply Matches_Class_inv in Hu. destruct Hu as (c & -> & P).
    apply Matches_Star_Class in Hv. simpl. rewrite P, Hv.
    split; [discriminate | reflexivity].
  - intros [N F]. destruct s as [|c s]; [now destruct N|].
    simpl in F. apply andb_true_iff in F. destruct F as [P F].
    apply (MSeq (u := [c]) (v := s)); [now constructor|].
    now apply Matches_Star_Class.
Qed.

(** [/^[^\s@]+@[^\s@]+\.[^\s@]+$/] accepts exactly the strings
    [local @ domain . rest] whose three parts are non-empty and hold
    neither a blank nor an [@]. *)
Lemma email_regex_spec s :
  regex_test email_regex s = true <->
  exists a b c, s = a ++ 64%N :: b ++ 46%N :: c
                /\ a <> [] /\ b <> [] /\ c <> []
                /\ forallb not_space_at a = true
                /\ forallb not_space_at b = true
                /\ forallb not_space_at c = true.
Proof.
  rewrite regex_test_spec. unfold email_regex. split.
  - intros H.
    apply Matches_Seq_inv in H. destruct H as (a & r1 & -> & Ha & H).
    apply Matches_Seq_inv in H. destruct H as (x & r2 & -> & Hx & H).
    apply Matches_Seq_inv in H. destruct H as (b & r3 & -> & Hb & H).
    apply Matches_Seq_inv in H. destruct H as (y & c & -> & Hy & Hc).
    apply Matches_Class_inv in Hx. destruct Hx as (x' & -> & Px).
    apply Matches_Class_inv in Hy. destruct Hy as (y' & -> & Py).
    apply N.eqb_eq in Px, Py. subst x' y'.
    apply Matches_Plus_Class in Ha, Hb, Hc.
    exists a, b, c. simpl. intuition.
  - intros (a & b & c & -> & Na & Nb & Nc & Fa & Fb & Fc).
    apply MSeq; [now apply Matches_Plus_Class|].
    apply (MSeq (u := [64%N])); [now constructor|].
    apply MSeq; [now apply Matches_Plus_Class|].
    apply (MSeq (u := [46%N])); [now constructor|].
    now apply Matches_Plus_Class.
Qed.

Lemma not_space_at_count s :
  forallb not_space_at s = true ->
  count_occ N.eq_dec s 64%N = 0%nat
  /\ forallb (fun x => negb (is_js_space x)) s = true.
Proof.
  induction s as [|x s IH]; simpl; [now split|].
  intros H. apply andb_true_iff in H. destruct H as [P F].
  destruct (IH F) as [C S]. unfold not_space_at in P.
  apply andb_true_iff in P. destruct P as [P1 P2].
  rewrite P1, S. apply negb_true_iff, N.eqb_neq in P2.
  destruct (N.eq_dec x 64); [contradiction | now split].
Qed.

(** The form gets no "email" error exactly when the email has the shape
    [local@domain.rest] with three non-empty parts free of blanks and of
    [@].  Such an email holds exactly one [@], no white space at all, and
    at least five characters. *)
Theorem email_error_iff_not_an_address f :
  (~ In "email" (map fst (validate f)) <->
   exists a b c, email f = Some (a ++ 64%N :: b ++ 46%N :: c)
                 /\ a <> [] /\ b <> [] /\ c <> []
                 /\ forallb not_space_at a = true
                 /\ forallb not_space_at b = true
                 /\ forallb not_space_at c = true)
  /\ (forall s, email f = Some s -> ~ In "email" (map fst (validate f)) ->
        count_occ N.eq_dec s 64%N = 1%nat
        /\ forallb (fun x => negb (is_js_space x)) s = true
        /\ (5 <= List.length s)%nat).
Proof.
  destruct (validate_entries f) as (_ & _ & He & _).
  assert (Ok : ~ In "email" (map fst (validate f)) <-> email_ok f).
  { rewrite He. unfold email_ok. split; [|tauto].
    intros H. destruct (email f) as [s|] eqn:E.
    - destruct (regex_test email_regex s) eqn:R; [now exists s|].
      exfalso. apply H. intros (s' & E' & R'). congruence.
    - exfalso. apply H. intros (s' & E' & _). discriminate. }
  split.
  - rewrite Ok. unfold email_ok. split.
    + intros (s & E & R). apply email_regex_spec in R.
      destruct R as (a & b & c & -> & R). now exists a, b, c.
    + intros (a & b & c & E & R). eexists. split; [exact E|].
      apply email_regex_spec. now exists a, b, c.
  - intros s E H. apply Ok in H. destruct H as (s' & E' & R).
    assert (s' = s) by congruence. subst s'.
    apply email_regex_spec in R.
    destruct R as (a & b & c & -> & Na & Nb & Nc & Fa & Fb & Fc).
    destruct (not_space_at_count a Fa) as [Ca Sa].
    destruct (not_space_at_count b Fb) as [Cb Sb].
    destruct (not_space_at_count c Fc) as [Cc Sc].
    split; [|split].
    + rewrite count_occ_app. simpl. rewrite count_occ_app. simpl.
      destruct (N.eq_dec 64 64) as [_|X]; [|now destruct X].
      destruct (N.eq_dec 46 64) as [X|_]; [discriminate X|]. lia.
    + rewrite forallb_app. simpl. rewrite forallb_app. simpl.
      now rewrite Sa, Sb, Sc.
    + rewrite length_app. simpl. rewrite length_app. simpl.
      destruct a, b, c; simpl; try contradiction; lia.
Qed.

(** ** Tokens and reference identifiers *)

Lemma hex_of_byte_is_hex b :
  is_lower_hex (hex_digit (Byte.to_N b / 16)) = true
  /\ is_lower_hex (hex_digit (Byte.to_N b mod 16)) = true.
Proof. destruct b; split; reflexivity. Qed.

Lemma hex_all_lower_hex bytes : all_chars is_lower_hex (hex bytes) = true.
Proof.
  induction bytes as [|b r IH]; [reflexivity|].
  destruct (hex_of_byte_is_hex b) as [H1 H2].
  cbn [hex all_chars]. now rewrite H1, H2, IH.
Qed.

(** The token that an accepted issuance returns is 64 characters long,
    all of them lower-case hexadecimal digits (so it needs no escaping in
    a URL), and the link of the response is the fixed prefix followed by
    that token. *)
Theorem issued_token_format d date_now sql_now entropy clientId link tok exp :
  List.length entropy = 32%nat ->
  fst (run (post_admin_client_links date_now sql_now entropy clientId) d)
  = Value (mkResponse 201 (LinkIssued link tok exp)) ->
  String.length tok = 64%nat
  /\ all_chars is_lower_hex tok = true
  /\ link = ("https://www.zorvixetechnologies.com/payment/" ++ tok)%string.
Proof.
  intros L H.
  assert (E : link = ("https://www.zorvixetechnologies.com/payment/"
                      ++ hex entropy)%string /\ tok = hex entropy).
  { rewrite post_admin_client_links_run in H by lia.
    destruct (token_taken (hex entropy) d || negb (client_exists clientId d));
      [discriminate|].
    unfold issued_response in H. inversion H. now split. }
  destruct E as [-> ->]. rewrite hex_length, L.
  split; [reflexivity|]. split; [apply hex_all_lower_hex | reflexivity].
Qed.

Lemma byte_of_hex_digits b :
  Byte.of_N (16 * hex_value (hex_digit (Byte.to_N b / 16))
             + hex_value (hex_digit (Byte.to_N b mod 16))) = Some b.
Proof. destruct b; reflexivity. Qed.

(** The hexadecimal encoding loses nothing: two draws of random bytes give
    the same token only when they are the same bytes. *)
Theorem tokens_equal_only_for_equal_bytes e1 e2 :
  hex e1 = hex e2 <-> e1 = e2.
Proof.
  split; [|now intros ->].
  revert e2. induction e1 as [|b1 r1 IH]; intros [|b2 r2] H;
    try reflexivity; try discriminate.
  cbn [hex] in H. inversion H as [[H1 H2 H3]].
  assert (B : Some b1 = Some b2).
  { rewrite <- (byte_of_hex_digits b1), <- (byte_of_hex_digits b2).
    now rewrite H1, H2. }
  inversion B. f_equal. now apply IH.
Qed.

Lemma substring_length n : forall m s,
  String.length (substring n m s) = Nat.min m (String.length s - n).
Proof.
  induction n as [|n IHn]; intros m s.
  - revert s. induction m as [|m IHm]; intros s.
    + destruct s; reflexivity.
    + destruct s as [|a s]; [reflexivity|].
      cbn [substring String.length]. rewrite IHm.
      rewrite !Nat.sub_0_r. reflexivity.
  - destruct s as [|a s].
    + destruct m; reflexivity.
    + cbn [substring String.length]. rewrite IHn. reflexivity.
Qed.

Lemma substring_all p n : forall m s,
  all_chars p s = true -> all_chars p (substring n m s) = true.
Proof.
  induction n as [|n IHn]; intros m s H.
  - now apply substring_prefix_all.
  - destruct s as [|a s]; [destruct m; reflexivity|].
    cbn [substring]. apply IHn. simpl in H.
    apply andb_true_iff in H. tauto.
Qed.

(** For every rendering of [Math.random()] in base 36, the suffix of the
    reference identifier consists of upper-case letters and digits only
    and has as many characters as the rendering has fractional digits, up
    to six. *)
Theorem reference_suffix_format random36 :
  is_rendering random36 = true ->
  all_chars is_upper_alnum (randomString random36) = true
  /\ String.length (randomString random36)
     = Nat.min 6 (String.length random36 - 2).
Proof.
  intros R. unfold randomString, substr.
  rewrite toUpperCase_length, substring_length. split; [|reflexivity].
  apply is_rendering_inv in R. destruct R as [-> | (r & -> & D)];
    [reflexivity|].
  apply toUpperCase_alnum. cbn [substring]. now apply substring_all.
Qed.

(** ** The legacy link: update and lookup *)

Lemma set_matching_in active token rows r :
  In r (set_matching active token rows) ->
  (pl_token r = token -> pl_active r = active)
  /\ exists r0, In r0 rows /\ pl_token r0 = pl_token r /\ pl_id r0 = pl_id r.
Proof.
  unfold set_matching. rewrite in_map_iff. intros (r0 & E & Hin).
  destruct (String.eqb_spec (pl_token r0) token) as [T|T]; subst r.
  - split; [reflexivity | now exists r0].
  - split; [intros X; contradiction | now exists r0].
Qed.

Lemma Forall2_map_same {A} (R : A -> A -> Prop) (f : A -> A) (l : list A) :
  (forall x, R x (f x)) -> Forall2 R l (map f l).
Proof.
  intros H. induction l as [|a l IH]; simpl; constructor; auto.
Qed.

(** On a [payment_links] table that has the [active] column and for a
    token without a NUL character,
    [PUT /api/admin/payment-link/:token] changes nothing but the flag of
    the rows with that token: the other tables and the sequences are as
    before, and the table holds the same rows in the same order, each
    with its key, token and creation time, the rows with the token now
    with the flag that was sent and the others with their own.  When a
    row has the token, the first revision's
    [GET /api/payment-link/:token] then answers with that flag. *)
Theorem put_then_get_payment_link d token active :
  payment_links_has_active d = true ->
  string_has_nul token = false ->
  let d' := store (snd (run (put_admin_payment_link token active) d)) in
  contacts d' = contacts d
  /\ contacts_id_seq d' = contacts_id_seq d
  /\ payment_registrations d' = payment_registrations d
  /\ payment_links_has_active d' = true
  /\ clients d' = clients d
  /\ client_links d' = client_links d
  /\ client_links_id_seq d' = client_links_id_seq d
  /\ Forall2 (fun r r' =>
                pl_id r' = pl_id r /\ pl_token r' = pl_token r
                /\ pl_created_at r' = pl_created_at r
                /\ (pl_token r = token -> pl_active r' = active)
                /\ (pl_token r <> token -> pl_active r' = pl_active r))
       (payment_links d) (payment_links d')
  /\ ((exists r, In r (payment_links d) /\ pl_token r = token) ->
      fst (run (Revision1.get_payment_link token) d')
      = Value (mkResponse 200 (LinkStatus active))).
Proof.
  intros Hcol N d'. subst d'.
  rewrite (put_admin_payment_link_run token active d Hcol), N.
  set (rows := set_matching active token (payment_links d)).
  assert (S : store (snd (match filter (fun r => String.eqb (pl_token r) token) rows with
                          | [] => (Value payment_link_not_found,
                                   mkWorld (with_payment_links rows d)
                                     [UpdatePaymentLinkActive])
                          | row :: _ =>
                              (Value (mkResponse 200
                                        (LinkUpdated
                                           (if truthy active then "Link activated"
                                            else "Link deactivated") row)),
                               mkWorld (with_payment_links rows d)
                                 [UpdatePaymentLinkActive])
                          end)) = with_payment_links rows d).
  { destruct (filter _ rows); reflexivity. }
  rewrite S. simpl.
  split; [reflexivity|]. split; [reflexivity|]. split; [reflexivity|].
  split; [exact Hcol|]. split; [reflexivity|]. split; [reflexivity|].
  split; [reflexivity|]. split.
  - unfold rows, set_matching. apply Forall2_map_same. intros r.
    destruct (String.eqb_spec (pl_token r) token) as [T|T]; simpl;
      repeat split; try reflexivity; intros X; contradiction.
  - intros (r & Hin & Ht). rewrite get_payment_link_run1, N.
    unfold links_with_token. simpl payment_links.
    destruct (filter (fun r0 => String.eqb (pl_token r0) token) rows)
      as [|row rest] eqn:E.
    + exfalso. rewrite filter_nil_iff in E.
      assert (X : In (set_active active r) rows).
      { unfold rows, set_matching. apply in_map_iff. exists r.
        split; [|exact Hin]. apply String.eqb_eq in Ht. now rewrite Ht. }
      specialize (E _ X). simpl in E. apply String.eqb_neq in E. contradiction.
    + apply filter_hd_in in E. destruct E as [Hrow Htok].
      apply String.eqb_eq in Htok.
      destruct (set_matching_in active token (payment_links d) row Hrow) as [A _].
      now rewrite (A Htok).
Qed.

(** ** The life of a client link *)

(** A link that was issued with a 201 verifies at exactly the times before
    its expiry: from the issuance on, [GET /api/client-details/:token]
    passes its link check if and only if [NOW()] is earlier than the
    issuance time plus 24 hours. *)
Theorem issued_link_lifetime d date_now sql_issue entropy clientId link tok exp :
  List.length entropy = 32%nat ->
  fst (run (post_admin_client_links date_now sql_issue entropy clientId) d)
  = Value (mkResponse 201 (LinkIssued link tok exp)) ->
  forall date_later sql_now,
    verifies (store (snd (run (post_admin_client_links date_now sql_issue
                                 entropy clientId) d)))
      date_later sql_now tok
    <-> sql_now < date_now + 24 * 60 * 60 * 1000.
Proof.
  intros L H date_later sql_now.
  apply issued_inversion in H; [|lia].
  destruct H as (-> & -> & T & _ & S). rewrite S. clear S.
  rewrite token_taken_false in T. rewrite verifies_iff by apply hex_no_nul. split.
  - intros (l & Hin & Ht & _ & Hlt). simpl in Hin.
    apply in_app_or in Hin. destruct Hin as [Hin | [<- | []]].
    + now destruct (T l Hin).
    + exact Hlt.
  - intros Hlt. exists (issued_row date_now sql_issue entropy clientId d).
    split; [simpl; apply in_or_app; right; now left|].
    repeat split. exact Hlt.
Qed.

(** Issuing keeps the constraints of [client_links]: if the tokens of the
    table are pairwise different and every link refers to no client or to
    an existing one, the same holds after
    [POST /api/admin/client-links], whatever was sent and whether it
    answered 201 or 500; and no earlier link is removed. *)
Theorem issuance_keeps_constraints d date_now sql_now entropy clientId :
  List.length entropy = 32%nat ->
  NoDup (map cl_token (client_links d)) ->
  foreign_key_holds d ->
  let d' := store (snd (run (post_admin_client_links date_now sql_now
                               entropy clientId) d)) in
  NoDup (map cl_token (client_links d'))
  /\ foreign_key_holds d'
  /\ (forall l, In l (client_links d) -> In l (client_links d')).
Proof.
  intros L ND FK d'. subst d'.
  rewrite post_admin_client_links_run by lia.
  destruct (token_taken (hex entropy) d) eqn:T; simpl.
  - repeat split; auto.
  - destruct (client_exists clientId d) eqn:C; simpl.
    + rewrite token_taken_false in T. apply client_exists_true in C.
      split; [|split].
      * rewrite map_app. simpl.
        apply NoDup_app; [exact ND | repeat constructor; intros [] |].
        intros t Hin [<- | []]. apply in_map_iff in Hin.
        destruct Hin as (l & E & Hl). now destruct (T l Hl).
      * intros l Hin. simpl in Hin. apply in_app_or in Hin.
        destruct Hin as [Hin | [<- | []]]; [now apply FK|].
        simpl. destruct C as [-> | (c & Hc & ->)]; [now left|].
        right. now exists c.
      * intros l Hin. simpl. apply in_or_app. now left.
    + repeat split; auto.
Qed.

(** ** Ordering *)

Section Ordering.

Context {A : Type} (key : A -> Z).

Lemma insert_desc_sorted x l :
  StronglySorted (newest_first key) l ->
  StronglySorted (newest_first key) (insert_desc key x l).
Proof.
  induction l as [|a l IH]; intros S; simpl.
  - constructor; [constructor | constructor].
  - inversion S as [|? ? S' F]; subst.
    destruct (key a <=? key x) eqn:E.
    + apply Z.leb_le in E. constructor; [exact S|].
      constructor; [exact E|].
      apply Forall_forall. intros y Hy. rewrite Forall_forall in F.
      specialize (F y Hy). unfold newest_first in *. lia.
    + apply Z.leb_gt in E. constructor; [now apply IH|].
      apply Forall_forall. intros y Hy. apply insert_desc_in in Hy.
      destruct Hy as [-> | Hy].
      * unfold newest_first. lia.
      * rewrite Forall_forall in F. now apply F.
Qed.

Lemma order_desc_sorted l :
  StronglySorted (newest_first key) (order_desc key l).
Proof.
  induction l as [|a l IH]; simpl; [constructor | now apply insert_desc_sorted].
Qed.

Lemma insert_desc_perm x l : Permutation (x :: l) (insert_desc key x l).
Proof.
  induction l as [|a l IH]; simpl; [reflexivity|].
  destruct (key a <=? key x); [reflexivity|].
  rewrite perm_swap. now constructor.
Qed.

Lemma order_desc_perm l : Permutation l (order_desc key l).
Proof.
  induction l as [|a l IH]; simpl; [constructor|].
  rewrite <- insert_desc_perm. now constructor.
Qed.

Lemma order_desc_head l x r :
  order_desc key l = x :: r -> In x l /\ forall y, In y l -> key y <= key x.
Proof.
  intros E. split.
  - apply (order_desc_in key). rewrite E. now left.
  - intros y Hy. apply (order_desc_in key) in Hy. rewrite E in Hy.
    pose proof (order_desc_sorted l) as S. rewrite E in S.
    inversion S as [|? ? _ F]; subst.
    destruct Hy as [<- | Hy]; [lia|].
    rewrite Forall_forall in F. exact (F y Hy).
Qed.

End Ordering.

Lemma text_eqb_eq a b : text_eqb a b = true <-> a = b.
Proof.
  unfold text_eqb. destruct (list_eq_dec N.eq_dec a b); split; congruence.
Qed.

(** ** What the client sees *)

(** When [GET /api/client-details/:token] answers 200, the profile is a
    stored client, and the payment part is chosen as follows.  If no
    registration carries the client's key (as decimal text) in
    [client_id], the amount is the number 5000, the due date is seven days
    after the request and the project is "New Project".  Otherwise the
    amount and due date are those of one of the client's own
    registrations, none of the client's registrations is newer than it,
    and the project is its project name ("New Project" if that is
    empty). *)
Theorem client_details_payment_choice
  d date_now sql_now token client clientName clientId projectName amount dueDate :
  fst (run (get_client_details date_now sql_now token) d)
  = Value (mkResponse 200
             (ClientDetails client clientName clientId projectName amount dueDate)) ->
  In client (clients d)
  /\ clientName = c_name client /\ clientId = c_id client
  /\ (((forall p, In p (payment_registrations d) ->
          pr_client_id p <> decimal (c_id client))
       /\ projectName = text_of_string "New Project"
       /\ amount = Number 5000
       /\ dueDate = date_now + 7 * 24 * 60 * 60 * 1000)
      \/ exists p,
           In p (payment_registrations d)
           /\ pr_client_id p = decimal (c_id client)
           /\ (forall q, In q (payment_registrations d) ->
                 pr_client_id q = decimal (c_id client) ->
                 pr_created_at q <= pr_created_at p)
           /\ amount = Numeric (pr_amount p)
           /\ dueDate = pr_due_date p
           /\ projectName = match pr_project_name p with
                            | [] => text_of_string "New Project"
                            | _ :: _ => pr_project_name p
                            end).
Proof.
  rewrite get_client_details_run.
  destruct (string_has_nul token); [discriminate|].
  destruct (usable_links sql_now token d) as [|link rest];
    [discriminate|].
  destruct (select_client_by_id (cl_client_id link) d) as [|c rest'] eqn:C;
    [discriminate|].
  assert (Hc : In c (clients d)).
  { unfold select_client_by_id in C. destruct (cl_client_id link);
      [|discriminate]. now apply filter_hd_in in C. }
  unfold details_of, select_latest_payment.
  set (mine := filter (fun p => text_eqb (pr_client_id p) (decimal (c_id c)))
                 (payment_registrations d)).
  destruct (order_desc pr_created_at mine) as [|p ps] eqn:O; simpl firstn.
  - intros E. inversion E; subst. split; [exact Hc|].
    split; [reflexivity|]. split; [reflexivity|]. left.
    split; [|repeat split].
    intros p Hp X. apply text_eqb_eq in X.
    assert (M : In p mine) by (apply filter_In; now split).
    apply (order_desc_in pr_created_at) in M. rewrite O in M. destruct M.
  - intros E. inversion E; subst. split; [exact Hc|].
    split; [reflexivity|]. split; [reflexivity|]. right.
    apply order_desc_head in O. destruct O as [Hp Max].
    apply filter_In in Hp. destruct Hp as [Hp Hid].
    apply text_eqb_eq in Hid.
    exists p. split; [exact Hp|]. split; [exact Hid|]. split.
    + intros q Hq Eq. apply Max. apply filter_In. split; [exact Hq|].
      now apply text_eqb_eq.
    + split; [reflexivity|]. split; [reflexivity|].
      unfold or_else. destruct (pr_project_name p); reflexivity.
Qed.

(** ** What a search matches *)

Section SearchMeaning.

Variable lower : N -> N.

Lemma like_match_anyrun_step p s :
  like_match lower (AnyRun :: p) s
  = like_match lower p s
    || match s with
       | [] => false
       | _ :: s' => like_match lower (AnyRun :: p) s'
       end.
Proof. destruct s; reflexivity. Qed.

Lemma like_match_anyrun p s :
  like_match lower (AnyRun :: p) s = true <->
  exists pre suf, s = pre ++ suf /\ like_match lower p suf = true.
Proof.
  induction s as [|x s IH]; rewrite like_match_anyrun_step.
  - rewrite orb_false_r. split.
    + intros H. now exists [], [].
    + intros (pre & suf & E & H). symmetry in E. apply app_eq_nil in E.
      destruct E; now subst.
  - rewrite orb_true_iff, IH. split.
    + intros [H | (pre & suf & -> & H)].
      * now exists [], (x :: s).
      * now exists (x :: pre), suf.
    + intros (pre & suf & E & H). destruct pre as [|y pre]; simpl in E.
      * left. now subst suf.
      * right. inversion E; subst. now exists pre, suf.
Qed.

Lemma like_match_lits q rest : forall s,
  like_match lower (map Lit q ++ rest) s = true <->
  exists mid suf, s = mid ++ suf /\ map lower mid = map lower q
                  /\ like_match lower rest suf = true.
Proof.
  induction q as [|c q IH]; intros s.
  - simpl. split.
    + intros H. now exists [], s.
    + intros (mid & suf & -> & E & H). destruct mid; [exact H | discriminate].
  - cbn [map app like_match]. destruct s as [|x s].
    + split; [discriminate|].
      intros (mid & suf & E & M & _). destruct mid; discriminate.
    + rewrite andb_true_iff, IH, N.eqb_eq. split.
      * intros (X & mid & suf & -> & M & H).
        exists (x :: mid), suf. simpl. rewrite X, M. now repeat split.
      * intros (mid & suf & E & M & H). destruct mid as [|y mid];
          [discriminate|].
        simpl in E, M. injection E as -> ->. injection M as M1 M2.
        split; [exact M1|]. now exists mid, suf.
Qed.

Lemma like_match_any_tail s : like_match lower [AnyRun] s = true.
Proof.
  apply like_match_anyrun. exists s, []. now rewrite app_nil_r.
Qed.

Lemma like_parse_plain q t :
  is_plain q = true ->
  like_parse (q ++ t) = option_map (app (map Lit q)) (like_parse t).
Proof.
  induction q as [|c q IH]; intros P.
  - simpl. now destruct (like_parse t).
  - simpl in P. apply andb_true_iff in P. destruct P as [Pc Pq].
    apply negb_true_iff in Pc. apply orb_false_iff in Pc.
    destruct Pc as [Pc P95]. apply orb_false_iff in Pc. destruct Pc as [P92 P37].
    cbn [app like_parse]. rewrite P92, P37, P95, (IH Pq).
    now destruct (like_parse t).
Qed.

Lemma plain_search_term q :
  is_plain q = true ->
  like_parse ([percent] ++ q ++ [percent])
  = Some (AnyRun :: map Lit q ++ [AnyRun]).
Proof.
  intros P. cbn [app like_parse]. unfold percent at 1. simpl N.eqb.
  now rewrite (like_parse_plain q [percent] P).
Qed.

Lemma plain_pattern_is_occurrence q s :
  like_match lower (AnyRun :: map Lit q ++ [AnyRun]) s = true
  <-> occurs_in lower q s.
Proof.
  rewrite like_match_anyrun. unfold occurs_in. split.
  - intros (pre & suf & -> & H). apply like_match_lits in H.
    destruct H as (mid & suf' & -> & M & _). now exists pre, mid, suf'.
  - intros (pre & mid & suf & -> & M). exists pre, (mid ++ suf).
    split; [reflexivity|]. apply like_match_lits.
    exists mid, suf. repeat split; [exact M | apply like_match_any_tail].
Qed.

(** For a query of three or more characters (after trimming) without
    [%], [_], backslash and NUL, the search handler answers 200 with rows of
    [payment_registrations] each of which holds the query, as a run of
    consecutive characters and up to case, in its client name, project
    name, client id or reference id.  When it returns fewer than 20 rows,
    these are all such registrations. *)
Theorem search_plain_query_is_substring_match d (q : text) :
  is_plain q = true ->
  has_nul q = false ->
  (3 <= js_length (trim q))%nat ->
  exists rows,
    run (get_admin_payments_search lower (QString q)) d
    = (Value (mkResponse 200 (Payments rows)), mkWorld d [SearchPayments])
    /\ (forall r, In r rows ->
          In r (payment_registrations d)
          /\ (occurs_in lower q (pr_client_name r)
              \/ occurs_in lower q (pr_project_name r)
              \/ occurs_in lower q (pr_client_id r)
              \/ occurs_in lower q (pr_reference_id r)))
    /\ ((List.length rows < 20)%nat ->
        forall r, In r (payment_registrations d) ->
          occurs_in lower q (pr_client_name r)
          \/ occurs_in lower q (pr_project_name r)
          \/ occurs_in lower q (pr_client_id r)
          \/ occurs_in lower q (pr_reference_id r) ->
          In r rows).
Proof.
  intros P Nul L.
  set (p := AnyRun :: map Lit q ++ [AnyRun]).
  assert (Hit : forall r, search_hit lower p r = true <->
                  occurs_in lower q (pr_client_name r)
                  \/ occurs_in lower q (pr_project_name r)
                  \/ occurs_in lower q (pr_client_id r)
                  \/ occurs_in lower q (pr_reference_id r)).
  { intros r. unfold search_hit, p.
    rewrite !orb_true_iff, !plain_pattern_is_occurrence. tauto. }
  set (hits := filter (search_hit lower p) (payment_registrations d)).
  exists (firstn 20 (order_desc pr_created_at hits)).
  assert (T : too_short 3 (Some q) = false).
  { apply too_short_false; [lia|]. now exists q. }
  split; [|split].
  - unfold run, get_admin_payments_search, try_catch, bind, pool_query, ret,
      search_payments.
    rewrite T, search_term_has_nul, Nul, (plain_search_term q P). reflexivity.
  - intros r Hin. apply firstn_in in Hin. apply order_desc_in in Hin.
    apply filter_In in Hin. destruct Hin as [Hin H]. split; [exact Hin|].
    now apply Hit.
  - intros Len r Hin H.
    rewrite length_firstn, order_desc_length in Len.
    rewrite firstn_all2 by (rewrite order_desc_length; lia).
    apply order_desc_in. apply filter_In. split; [exact Hin | now apply Hit].
Qed.

Lemma like_parse_percents q :
  forallb (N.eqb 37) q = true ->
  exists p, like_parse q = Some p /\ Forall (eq AnyRun) p.
Proof.
  induction q as [|c q IH]; intros H.
  - now exists [].
  - cbn [forallb] in H. apply andb_true_iff in H. destruct H as [Hc Hq].
    apply N.eqb_eq in Hc. subst c.
    destruct (IH Hq) as (p & E & F).
    exists (AnyRun :: p). simpl. rewrite E. split; [reflexivity|].
    now constructor.
Qed.

Lemma like_match_all_anyrun p :
  Forall (eq AnyRun) p -> forall s, like_match lower (AnyRun :: p) s = true.
Proof.
  induction 1 as [|t p <- F IH]; intros s.
  - apply like_match_any_tail.
  - apply like_match_anyrun. exists [], s. split; [reflexivity | apply IH].
Qed.

Lemma percents_have_no_nul q : forallb (N.eqb 37) q = true -> has_nul q = false.
Proof.
  induction q as [|c q IH]; [reflexivity|].
  cbn [forallb has_nul existsb]. intros H.
  apply andb_true_iff in H. destruct H as [Hc Hq].
  apply N.eqb_eq in Hc. subst c. exact (IH Hq).
Qed.

Lemma filter_all {B} (f : B -> bool) (l : list B) :
  (forall x, In x l -> f x = true) -> filter f l = l.
Proof.
  induction l as [|a l IH]; intros H; simpl; [reflexivity|].
  rewrite (H a (or_introl eq_refl)), IH; [reflexivity|].
  intros x Hx. apply H. now right.
Qed.

(** The query is put into the LIKE pattern as it is: a query made of
    percent signs only (three or more) matches every registration, and
    the handler returns the 20 newest rows of the whole table (creation
    times taken pairwise different, so that the order is settled). *)
Theorem search_percent_query_lists_everything d (q : text) :
  distinct_times d ->
  forallb (N.eqb 37) q = true ->
  (3 <= js_length (trim q))%nat ->
  run (get_admin_payments_search lower (QString q)) d
  = (Value (mkResponse 200
              (Payments (firstn 20 (order_desc pr_created_at
                                      (payment_registrations d))))),
     mkWorld d [SearchPayments]).
Proof.
  intros _ P L.
  assert (Pq : forallb (N.eqb 37) (q ++ [percent]) = true).
  { rewrite forallb_app, P. reflexivity. }
  destruct (like_parse_percents _ Pq) as (p & E & F).
  assert (T : too_short 3 (Some q) = false).
  { apply too_short_false; [lia|]. now exists q. }
  unfold run, get_admin_payments_search, try_catch, bind, pool_query, ret,
    search_payments.
  rewrite T, search_term_has_nul, (percents_have_no_nul q P).
  cbn [app like_parse]. unfold percent at 1. simpl N.eqb.
  rewrite E. cbn [option_map].
  rewrite filter_all; [reflexivity|].
  intros r _. unfold search_hit.
  now rewrite (like_match_all_anyrun F (pr_client_name r)).
Qed.

End SearchMeaning.

(** ** The legacy link in the admin panel *)

(** [GET /api/admin/payment-link/:token] only reads.  For a token
    without a NUL character it answers 404 when no row has the token; for
    a token with one the query is rejected and it answers 500.  On a table
    with the [active] column, after a PUT for the token answered 200 it
    answers 200 with the very row the PUT returned, which holds the token
    and the flag that was sent. *)
Theorem admin_get_returns_what_put_returned token :
  (forall s, snd (a_run (get_admin_payment_link token) s)
             = mkAdminWorld s [SelectPaymentLinkForAdmin])
  /\ (forall s, string_has_nul token = false ->
        (forall r, In r (payment_links (db s)) -> pl_token r <> token) ->
        fst (a_run (get_admin_payment_link token) s)
        = Done (mkAdminResponse 404 (AFailure "Payment link not found")))
  /\ (forall s, string_has_nul token = true ->
        fst (a_run (get_admin_payment_link token) s)
        = Done (mkAdminResponse 500 (AFailure "Failed to fetch payment link")))
  /\ (forall d seq active msg row,
        payment_links_has_active d = true ->
        fst (run (put_admin_payment_link token active) d)
        = Value (mkResponse 200 (LinkUpdated msg row)) ->
        fst (a_run (get_admin_payment_link token)
               (mkAdminStore
                  (store (snd (run (put_admin_payment_link token active) d))) seq))
        = Done (mkAdminResponse 200 (PaymentLinkFound row))
        /\ pl_token row = token /\ pl_active row = active).
Proof.
  split; [|split; [|split]].
  - intros s. unfold a_run, get_admin_payment_link, a_try_catch, a_bind,
      a_pool_query, a_ret, select_payment_link_for_admin. simpl.
    destruct (string_has_nul token); [reflexivity|].
    destruct (links_with_token token (db s)); reflexivity.
  - intros s N H. apply no_payment_link in H.
    unfold a_run, get_admin_payment_link, a_try_catch, a_bind,
      a_pool_query, a_ret, select_payment_link_for_admin. simpl.
    now rewrite N, H.
  - intros s N.
    unfold a_run, get_admin_payment_link, a_try_catch, a_bind,
      a_pool_query, a_ret, select_payment_link_for_admin. simpl.
    now rewrite N.
  - intros d seq active msg row Hcol.
    rewrite (put_admin_payment_link_run token active d Hcol).
    destruct (string_has_nul token) eqn:N; [discriminate|].
    set (rows := set_matching active token (payment_links d)).
    destruct (filter (fun r => String.eqb (pl_token r) token) rows)
      as [|row' rest] eqn:E; simpl; [discriminate|].
    intros H. inversion H; subst row'.
    unfold a_run, get_admin_payment_link, a_try_catch, a_bind,
      a_pool_query, a_ret, select_payment_link_for_admin, links_with_token.
    simpl. rewrite N, E. split; [reflexivity|].
    apply filter_hd_in in E. destruct E as [Hin Ht].
    apply String.eqb_eq in Ht. split; [exact Ht|].
    now apply (set_matching_in active token (payment_links d) row).
Qed.

(** ** The status of a payment registration *)

Lemma includes_allowed status :
  includes allowed_statuses status = true <->
  exists w, In w allowed_statuses /\ status = Some w.
Proof.
  unfold includes. destruct status as [s|].
  - rewrite existsb_exists. split.
    + intros (w & Hin & E). apply text_eqb_eq in E. subst. now exists w.
    + intros (w & Hin & E). inversion E; subst. exists w.
      split; [exact Hin | now apply text_eqb_eq].
  - split; [discriminate | intros (w & _ & E); discriminate].
Qed.

(** [PUT /api/admin/payments/:id/status] answers 400 for every status
    other than the three words "pending", "verified" and "rejected" (a
    missing status included), without sending a statement: the store is
    untouched. *)
Theorem put_admin_payment_status_rejects_other_words id status s :
  (forall w, In w allowed_statuses -> status <> Some w) ->
  a_run (put_admin_payment_status id status) s
  = (Done (mkAdminResponse 400 (AFailure "Invalid status value")),
     mkAdminWorld s []).
Proof.
  intros H.
  assert (I : includes allowed_statuses status = false).
  { destruct (includes allowed_statuses status) eqn:E; [|reflexivity].
    apply includes_allowed in E. destruct E as (w & Hin & E).
    now destruct (H w Hin). }
  unfold a_run, put_admin_payment_status, a_try_catch.
  destruct status as [st|]; [|reflexivity].
  rewrite I. reflexivity.
Qed.

Lemma put_admin_payment_status_run id st n s :
  In st allowed_statuses -> pg_int4_in id = Some n ->
  a_run (put_admin_payment_status id (Some st)) s =
  match filter (fun p => pr_id p =? n)
          (updated_rows st n (payment_registrations (db s))) with
  | [] => (Done (mkAdminResponse 404 (AFailure "Payment registration not found")),
           mkAdminWorld
             (on_db (with_payment_registrations
                       (updated_rows st n (payment_registrations (db s)))) s)
             [UpdatePaymentStatus])
  | row :: _ =>
      (Done (mkAdminResponse 200 (StatusUpdated "Payment status updated" row)),
       mkAdminWorld
         (on_db (with_payment_registrations
                   (updated_rows st n (payment_registrations (db s)))) s)
         [UpdatePaymentStatus])
  end.
Proof.
  intros Hst Hid.
  assert (I : includes allowed_statuses (Some st) = true).
  { apply includes_allowed. now exists st. }
  unfold a_run, put_admin_payment_status, a_try_catch, a_bind, a_pool_query,
    a_ret, update_payment_status.
  rewrite I. simpl. rewrite (proj1 (pg_int4_in_some id n) Hid).
  fold (updated_rows st n (payment_registrations (db s))).
  destruct (filter _ (updated_rows st n (payment_registrations (db s))));
    reflexivity.
Qed.

Lemma updated_rows_in st n rows p' :
  In p' (updated_rows st n rows) ->
  exists p, In p rows /\ pr_id p = pr_id p'
            /\ ((pr_id p = n /\ p' = set_status st p) \/ (pr_id p <> n /\ p' = p)).
Proof.
  unfold updated_rows. rewrite in_map_iff. intros (p & E & Hin).
  exists p. split; [exact Hin|].
  destruct (Z.eqb_spec (pr_id p) n) as [X|X]; subst p'.
  - split; [reflexivity | now left].
  - split; [reflexivity | now right].
Qed.

Lemma with_payment_registrations_same d :
  with_payment_registrations (payment_registrations d) d = d.
Proof. now destruct d. Qed.

(** With one of the three allowed words and an id that is the text of an
    integer [n], [PUT /api/admin/payments/:id/status] rewrites the status
    of the registrations with key [n] and nothing else: the other tables,
    the keys and the rows with another key are as before.  When a
    registration has key [n], the answer is 200 with a stored row of key
    [n] carrying the new status, and [GET /api/admin/payments/:id] then
    returns that same row; when none has, the answer is 404 and the store
    is unchanged. *)
Theorem status_update_effect id st n s :
  In st allowed_statuses -> pg_int4_in id = Some n ->
  let w := a_run (put_admin_payment_status id (Some st)) s in
  let d' := db (a_store (snd w)) in
  contacts d' = contacts (db s)
  /\ payment_links d' = payment_links (db s)
  /\ clients d' = clients (db s)
  /\ client_links d' = client_links (db s)
  /\ map pr_id (payment_registrations d') = map pr_id (payment_registrations (db s))
  /\ (forall p, In p (payment_registrations (db s)) -> pr_id p <> n ->
        In p (payment_registrations d'))
  /\ (forall p', In p' (payment_registrations d') -> pr_id p' = n ->
        exists p, In p (payment_registrations (db s)) /\ p' = set_status st p)
  /\ ((exists p, In p (payment_registrations (db s)) /\ pr_id p = n) ->
      exists row,
        fst w = Done (mkAdminResponse 200
                        (StatusUpdated "Payment status updated" row))
        /\ In row (payment_registrations d')
        /\ pr_id row = n /\ pr_status row = st
        /\ fst (run (get_admin_payment_by_id id) d')
           = Value (mkResponse 200 (OnePayment row)))
  /\ ((forall p, In p (payment_registrations (db s)) -> pr_id p <> n) ->
      fst w = Done (mkAdminResponse 404
                      (AFailure "Payment registration not found"))
      /\ d' = db s).
Proof.
  intros Hst Hid w d'. subst w d'.
  rewrite (put_admin_payment_status_run id s Hst Hid).
  set (rows := updated_rows st n (payment_registrations (db s))).
  destruct (filter (fun p => pr_id p =? n) rows) as [|row rest] eqn:F;
    cbn [fst snd a_store db on_db with_payment_registrations
         payment_registrations contacts payment_links clients client_links];
    (split; [reflexivity|]); (split; [reflexivity|]); (split; [reflexivity|]);
    (split; [reflexivity|]);
    (split; [unfold rows, updated_rows; rewrite map_map; apply map_ext;
             intros p; destruct (pr_id p =? n); reflexivity|]);
    (split; [intros p Hin Hn; unfold rows, updated_rows; apply in_map_iff;
             exists p; split; [|exact Hin];
             destruct (Z.eqb_spec (pr_id p) n); [contradiction | reflexivity]|]);
    (split; [intros p' Hin Hn; apply updated_rows_in in Hin;
             destruct Hin as (p & Hp & Eid & [[_ ->] | [X ->]]);
             [now exists p | congruence]|]).
  - split.
    + intros (p & Hin & Hn). exfalso. rewrite filter_nil_iff in F.
      assert (X : In (set_status st p) rows).
      { unfold rows, updated_rows. apply in_map_iff. exists p.
        split; [|exact Hin]. subst n. now rewrite Z.eqb_refl. }
      specialize (F _ X). simpl in F. apply Z.eqb_neq in F. contradiction.
    + intros H. split; [reflexivity|].
      replace rows with (payment_registrations (db s));
        [apply with_payment_registrations_same|].
      unfold rows, updated_rows. rewrite <- (map_id (payment_registrations (db s))) at 1.
      apply map_ext_in. intros p Hin.
      destruct (Z.eqb_spec (pr_id p) n); [now destruct (H p Hin) | reflexivity].
  - apply filter_hd_in in F as F'. destruct F' as [Hrow Hid'].
    apply Z.eqb_eq in Hid'. split.
    + intros _. exists row. split; [reflexivity|]. split; [exact Hrow|].
      split; [exact Hid'|]. split.
      * apply updated_rows_in in Hrow.
        destruct Hrow as (p & _ & Eid & [[_ ->] | [X ->]]);
          [reflexivity | congruence].
      * unfold run, get_admin_payment_by_id, try_catch, bind, pool_query, ret,
          select_payment_by_id. simpl.
        rewrite (proj1 (pg_int4_in_some id n) Hid). simpl.
        fold rows. now rewrite F.
    + intros H. exfalso. apply updated_rows_in in Hrow.
      destruct Hrow as (p & Hp & Eid & _). apply (H p Hp). congruence.
Qed.

(** The handler never stores a status outside the three words: if every
    stored status is one of them, this still holds after
    [PUT /api/admin/payments/:id/status], whatever id and status were
    sent. *)
Theorem statuses_stay_allowed id status s :
  statuses_allowed (db s) ->
  statuses_allowed (db (a_store (snd (a_run (put_admin_payment_status id status) s)))).
Proof.
  intros A.
  destruct (includes allowed_statuses status) eqn:I.
  - apply includes_allowed in I. destruct I as (st & Hst & ->).
    destruct (pg_int4_in id) as [n|] eqn:P.
    + rewrite (put_admin_payment_status_run id s Hst P).
      assert (X : statuses_allowed
                    (with_payment_registrations
                       (updated_rows st n (payment_registrations (db s))) (db s))).
      { unfold statuses_allowed in *. simpl. rewrite Forall_forall in *.
        intros p' Hin. apply updated_rows_in in Hin.
        destruct Hin as (p & Hp & _ & [[_ ->] | [_ ->]]);
          [exact Hst | now apply A]. }
      destruct (filter _ (updated_rows st n (payment_registrations (db s))));
        exact X.
    + unfold a_run, put_admin_payment_status, a_try_catch, a_bind,
        a_pool_query, a_ret, update_payment_status.
      assert (I : includes allowed_statuses (Some st) = true).
      { apply includes_allowed. now exists st. }
      destruct (proj1 (pg_int4_in_none id) P) as (e & Pe).
      rewrite I. simpl. rewrite Pe. exact A.
  - unfold a_run, put_admin_payment_status, a_try_catch.
    destruct status as [st|]; [rewrite I|]; exact A.
Qed.

(** ** Pages of payment registrations *)

Lemma map_fst_tagged {B C} (c : C) (l : list B) :
  map fst (map (fun p => (p, c)) l) = l.
Proof.
  rewrite map_map. simpl. apply map_id.
Qed.

(** The handler when PostgreSQL accepts OFFSET and LIMIT. *)
Lemma get_admin_payments_run page limit status s :
  field_has_nul (status_filter status) = false ->
  0 <= (or_default page 1 - 1) * or_default limit 10 ->
  0 <= or_default limit 10 ->
  a_run (get_admin_payments page limit status) s =
  (Done (mkAdminResponse 200
           (PaymentPage
              (page_slice status (or_default page 1) (or_default limit 10) (db s))
              match page_slice status (or_default page 1) (or_default limit 10) (db s) with
              | [] => 0
              | _ :: _ =>
                  Z.of_nat (List.length
                              (with_status (status_filter status)
                                 (payment_registrations (db s))))
              end
              (ceil_div
                 match page_slice status (or_default page 1) (or_default limit 10) (db s) with
                 | [] => 0
                 | _ :: _ =>
                     Z.of_nat (List.length
                                 (with_status (status_filter status)
                                    (payment_registrations (db s))))
                 end
                 (or_default limit 10))
              (or_default page 1) (or_default limit 10))),
   mkAdminWorld s [SelectPaymentsPage]).
Proof.
  intros N O L.
  unfold a_run, get_admin_payments, a_try_catch, a_bind, a_pool_query, a_ret,
    select_payments_page.
  rewrite N.
  apply Z.ltb_ge in O, L. rewrite O, L. cbn [a_store a_sent app fst snd].
  rewrite map_fst_tagged. fold (matching_payments status (db s)).
  fold (page_slice status (or_default page 1) (or_default limit 10) (db s)).
  destruct (page_slice status (or_default page 1) (or_default limit 10) (db s));
    reflexivity.
Qed.

Lemma with_status_length wanted rows :
  (List.length (with_status wanted rows) <= List.length rows)%nat.
Proof.
  unfold with_status. destruct wanted; [apply filter_length_le | lia].
Qed.

Lemma matching_payments_length status d :
  List.length (matching_payments status d)
  = List.length (with_status (status_filter status) (payment_registrations d)).
Proof. apply order_desc_length. Qed.

Lemma page_slice_length status page limit d :
  List.length (page_slice status page limit d)
  = Nat.min (Z.to_nat limit)
      (List.length (matching_payments status d) - Z.to_nat ((page - 1) * limit)).
Proof.
  unfold page_slice. now rewrite length_firstn, length_skipn.
Qed.

Lemma StronglySorted_skipn {B} (R : B -> B -> Prop) n : forall l,
  StronglySorted R l -> StronglySorted R (skipn n l).
Proof.
  induction n as [|n IH]; intros l S; [exact S|].
  destruct l as [|a l]; [exact S|].
  inversion S; subst. now apply IH.
Qed.

Lemma StronglySorted_firstn {B} (R : B -> B -> Prop) n : forall l,
  StronglySorted R l -> StronglySorted R (firstn n l).
Proof.
  induction n as [|n IH]; intros l S; [constructor|].
  destruct l as [|a l]; [constructor|].
  inversion S as [|? ? S' F]; subst. simpl. constructor; [now apply IH|].
  rewrite Forall_forall in *. intros x Hx. apply F.
  now apply firstn_in in Hx.
Qed.

Lemma skipn_in {B} (x : B) n : forall l, In x (skipn n l) -> In x l.
Proof.
  induction n as [|n IH]; intros l H; [exact H|].
  destruct l as [|a l]; [exact H|]. right. now apply IH.
Qed.

(** A page inside the list.  With [page >= 1], [limit >= 1] and more than
    [(page - 1) * limit] registrations passing the status filter,
    [GET /api/admin/payments] answers 200 with the rows number
    [(page - 1) * limit + 1] to [page * limit] of these registrations,
    newest first; [total] is the number of all registrations that pass
    the filter and [totalPages] is the least number of pages of [limit]
    rows that hold them.  The store is not changed.  (Creation times are
    taken pairwise different, so that the order is settled.) *)
Theorem payments_page_is_slice page limit status s :
  let p := or_default page 1 in
  let l := or_default limit 10 in
  let matching := with_status (status_filter status) (payment_registrations (db s)) in
  distinct_times (db s) ->
  js_exact p l (db s) ->
  field_has_nul (status_filter status) = false ->
  1 <= p -> 1 <= l ->
  (p - 1) * l < Z.of_nat (List.length matching) ->
  exists rows tp,
    a_run (get_admin_payments page limit status) s
    = (Done (mkAdminResponse 200
               (PaymentPage rows (Z.of_nat (List.length matching)) (Some tp) p l)),
       mkAdminWorld s [SelectPaymentsPage])
    /\ rows = page_slice status p l (db s)
    /\ Z.of_nat (List.length rows)
       = Z.min l (Z.of_nat (List.length matching) - (p - 1) * l)
    /\ l * (tp - 1) < Z.of_nat (List.length matching) <= l * tp
    /\ (forall r, In r rows -> In r matching)
    /\ StronglySorted (newest_first pr_created_at) rows.
Proof.
  intros p l matching _ _ N Hp Hl Hin.
  assert (Len : Z.of_nat (List.length (page_slice status p l (db s)))
                = Z.min l (Z.of_nat (List.length matching) - (p - 1) * l)).
  { rewrite page_slice_length, matching_payments_length. fold matching. nia. }
  exists (page_slice status p l (db s)),
         (- ((- Z.of_nat (List.length matching)) / l)).
  split; [|split; [reflexivity|split; [exact Len|split; [|split]]]].
  - rewrite get_admin_payments_run; fold p l; [|exact N|nia|lia].
    destruct (page_slice status p l (db s)) eqn:E.
    + simpl in Len. nia.
    + fold matching. unfold ceil_div.
      destruct (Z.eqb_spec l 0); [lia | reflexivity].
  - pose proof (Z.div_mod (- Z.of_nat (List.length matching)) l ltac:(lia)) as D.
    pose proof (Z.mod_pos_bound (- Z.of_nat (List.length matching)) l ltac:(lia)) as B.
    nia.
  - intros r Hr. unfold page_slice in Hr. apply firstn_in, skipn_in in Hr.
    unfold matching_payments in Hr. now apply order_desc_in in Hr.
  - unfold page_slice. apply StronglySorted_firstn, StronglySorted_skipn.
    apply order_desc_sorted.
Qed.

(** A page past the end.  With [page >= 1] and [limit >= 1], when the
    registrations that pass the filter are at most [(page - 1) * limit],
    the answer is 200 with no rows, and it reports [total = 0] and
    [totalPages = 0], however many registrations pass the filter: the
    count travels in the rows, and there is no row. *)
Theorem payments_page_past_the_end page limit status s :
  let p := or_default page 1 in
  let l := or_default limit 10 in
  js_exact p l (db s) ->
  field_has_nul (status_filter status) = false ->
  1 <= p -> 1 <= l ->
  Z.of_nat (List.length (with_status (status_filter status)
                           (payment_registrations (db s)))) <= (p - 1) * l ->
  a_run (get_admin_payments page limit status) s
  = (Done (mkAdminResponse 200 (PaymentPage [] 0 (Some 0) p l)),
     mkAdminWorld s [SelectPaymentsPage]).
Proof.
  intros p l _ N Hp Hl Hout.
  rewrite get_admin_payments_run; fold p l; [|exact N|nia|lia].
  assert (E : page_slice status p l (db s) = []).
  { apply length_zero_iff_nil. rewrite page_slice_length, matching_payments_length.
    lia. }
  rewrite E. unfold ceil_div. destruct (Z.eqb_spec l 0); [lia|].
  reflexivity.
Qed.

(** Page 0 and limits below 1.  With [limit >= 1], a page number of 0 or
    less makes the OFFSET negative: the query is rejected and the answer
    is 500.  A negative limit is rejected too.  With [limit = 0] the
    answer is 200 with no rows and [totalPages] is not a number. *)
Theorem payments_page_out_of_range page limit status s :
  let p := or_default page 1 in
  let l := or_default limit 10 in
  js_exact p l (db s) ->
  field_has_nul (status_filter status) = false ->
  (p <= 0 -> 1 <= l ->
   a_run (get_admin_payments page limit status) s
   = (Done (mkAdminResponse 500
              (AFailureWith "Failed to fetch payment registrations"
                 invalid_row_count_in_result_offset_clause)),
      mkAdminWorld s [SelectPaymentsPage]))
  /\ (l < 0 -> 1 <= p ->
      exists e,
        a_run (get_admin_payments page limit status) s
        = (Done (mkAdminResponse 500
                   (AFailureWith "Failed to fetch payment registrations" e)),
           mkAdminWorld s [SelectPaymentsPage]))
  /\ (l = 0 ->
      a_run (get_admin_payments page limit status) s
      = (Done (mkAdminResponse 200 (PaymentPage [] 0 None p 0)),
         mkAdminWorld s [SelectPaymentsPage])).
Proof.
  intros p l _ N. split; [|split].
  - intros Hp Hl.
    unfold a_run, get_admin_payments, a_try_catch, a_bind, a_pool_query, a_ret,
      select_payments_page.
    rewrite N. fold p l.
    assert (O : ((p - 1) * l <? 0) = true) by (apply Z.ltb_lt; nia).
    rewrite O. reflexivity.
  - intros Hl Hp.
    unfold a_run, get_admin_payments, a_try_catch, a_bind, a_pool_query, a_ret,
      select_payments_page.
    rewrite N. fold p l.
    assert (L : (l <? 0) = true) by now apply Z.ltb_lt.
    destruct ((p - 1) * l <? 0); [|rewrite L]; eexists; reflexivity.
  - intros Hl.
    rewrite get_admin_payments_run; fold p l; [|exact N|nia|lia].
    assert (E : page_slice status p l (db s) = []).
    { unfold page_slice. rewrite Hl. reflexivity. }
    rewrite E, Hl. reflexivity.
Qed.

Lemma firstn_plus {B} a b : forall l : list B,
  firstn (a + b) l = firstn a l ++ firstn b (skipn a l).
Proof.
  induction a as [|a IH]; intros l; [reflexivity|].
  destruct l as [|x l]; simpl.
  - now destruct b.
  - now rewrite IH.
Qed.

Lemma matching_payments_NoDup status d :
  distinct_times d -> NoDup (matching_payments status d).
Proof.
  intros D. unfold matching_payments.
  apply (Permutation_NoDup (order_desc_perm pr_created_at _)).
  apply NoDup_map_inv in D.
  unfold with_status. destruct (status_filter status); [|exact D].
  now apply NoDup_filter.
Qed.

(** Consecutive pages tile the list: when the creation times are pairwise
    different and [limit >= 1], the rows of pages 1, 2, ..., [k] put one
    after the other are the first [k * limit] of the registrations that
    pass the filter, newest first.  No row is skipped and none is shown
    twice. *)
Theorem payments_pages_concatenate limit status s (k : nat) :
  distinct_times (db s) ->
  js_exact (Z.of_nat k) limit (db s) ->
  field_has_nul (status_filter status) = false ->
  1 <= limit ->
  flat_map (fun i => page_rows (Z.of_nat i) limit status s) (seq 1 k)
  = firstn (k * Z.to_nat limit) (matching_payments status (db s))
  /\ NoDup (flat_map (fun i => page_rows (Z.of_nat i) limit status s) (seq 1 k)).
Proof.
  intros D _ N Hl.
  assert (Tile : flat_map (fun i => page_rows (Z.of_nat i) limit status s) (seq 1 k)
                 = firstn (k * Z.to_nat limit) (matching_payments status (db s)));
    [|split; [exact Tile|];
      rewrite Tile;
      pose proof (matching_payments_NoDup status D) as ND;
      rewrite <- (firstn_skipn (k * Z.to_nat limit)) in ND;
      exact (NoDup_app_remove_r _ _ ND)].
  assert (P : forall i, (1 <= i)%nat ->
            page_rows (Z.of_nat i) limit status s
            = firstn (Z.to_nat limit)
                (skipn ((i - 1) * Z.to_nat limit) (matching_payments status (db s)))).
  { intros i Hi. unfold page_rows.
    rewrite get_admin_payments_run; cbn [or_default]; [|exact N|nia|lia].
    cbn [fst a_body]. unfold page_slice. do 2 f_equal. nia. }
  induction k as [|k IH]; [reflexivity|].
  rewrite seq_S, flat_map_app, IH. cbn [flat_map]. rewrite app_nil_r.
  rewrite P by lia.
  replace (S k * Z.to_nat limit)%nat with (k * Z.to_nat limit + Z.to_nat limit)%nat
    by lia.
  rewrite firstn_plus. do 3 f_equal. lia.
Qed.

(** ** Clients *)

Lemma varchar_field_fits n x :
  (forall t, x = Some t -> (List.length t <= n)%nat) ->
  varchar_field n x = Some x.
Proof.
  intros H. destruct x as [t|]; [|reflexivity].
  simpl. now rewrite (@varchar_fits n t (H t eq_refl)).
Qed.

(** The handler when the store accepts the row. *)
Lemma post_admin_clients_accepted sql_now n e p company s :
  has_nul n = false -> has_nul e = false -> has_nul p = false ->
  field_has_nul company = false ->
  (List.length n <= 100)%nat -> (List.length e <= 100)%nat ->
  (List.length p <= 20)%nat ->
  (forall t, company = Some t -> (List.length t <= 100)%nat) ->
  (forall c, In c (clients (db s)) -> c_id c <> clients_id_seq s) ->
  a_run (post_admin_clients sql_now (Some n) (Some e) (Some p) company) s
  = (Done (mkAdminResponse 201
             (ClientCreated
                (Some (new_client sql_now n e p company s)))),
     mkAdminWorld
       (mkAdminStore
          (with_clients
             (clients (db s) ++ [new_client sql_now n e p company s]) (db s))
          (clients_id_seq s + 1))
       [InsertClient]).
Proof.
  intros Nn Ne Np Nc Ln Le Lp Lc Fresh.
  assert (X : existsb (fun x => c_id x =? clients_id_seq s) (clients (db s)) = false).
  { destruct (existsb _ _) eqn:E; [|reflexivity].
    apply existsb_exists in E. destruct E as (c & Hin & Hc).
    apply Z.eqb_eq in Hc. now destruct (Fresh c Hin). }
  unfold a_run, post_admin_clients, a_try_catch, a_bind, a_pool_query, a_ret,
    insert_client.
  cbn [field_has_nul varchar_field a_store]. rewrite Nn, Ne, Np, Nc.
  rewrite (@varchar_fits 100%nat n Ln), (@varchar_fits 100%nat e Le),
    (@varchar_fits 20%nat p Lp), (@varchar_field_fits 100%nat company Lc).
  cbn [orb option_map]. rewrite X. reflexivity.
Qed.

(** [POST /api/admin/clients] with a name, an email and a phone that the
    store accepts (no NUL character, within the column widths), and a
    company that is missing or accepted, answers 201 with the stored row:
    exactly one client is appended, with the four values as sent, the key
    drawn from the sequence and the creation time of the store; all other
    rows are as before, and if the keys of [clients] were pairwise
    different they still are. *)
Theorem post_admin_clients_creates sql_now n e p company s :
  has_nul n = false -> has_nul e = false -> has_nul p = false ->
  field_has_nul company = false ->
  (List.length n <= 100)%nat -> (List.length e <= 100)%nat ->
  (List.length p <= 20)%nat ->
  (forall t, company = Some t -> (List.length t <= 100)%nat) ->
  (forall c, In c (clients (db s)) -> c_id c <> clients_id_seq s) ->
  let w := a_run (post_admin_clients sql_now (Some n) (Some e) (Some p) company) s in
  let row := {| c_id := clients_id_seq s; c_name := n; c_email := e;
                c_phone := p; c_company := company; c_created_at := sql_now |} in
  fst w = Done (mkAdminResponse 201 (ClientCreated (Some row)))
  /\ clients (db (a_store (snd w))) = clients (db s) ++ [row]
  /\ clients_id_seq (a_store (snd w)) = clients_id_seq s + 1
  /\ contacts (db (a_store (snd w))) = contacts (db s)
  /\ payment_registrations (db (a_store (snd w))) = payment_registrations (db s)
  /\ payment_links (db (a_store (snd w))) = payment_links (db s)
  /\ client_links (db (a_store (snd w))) = client_links (db s)
  /\ (NoDup (map c_id (clients (db s))) ->
      NoDup (map c_id (clients (db (a_store (snd w)))))).
Proof.
  intros Nn Ne Np Nc Ln Le Lp Lc Fresh w row. subst w.
  rewrite post_admin_clients_accepted by assumption.
  repeat split.
  intros ND. cbn. rewrite map_app. simpl.
  apply NoDup_app; [exact ND | repeat constructor; intros [] |].
  intros i Hi [<- | []]. apply in_map_iff in Hi.
  destruct Hi as (c & Ec & Hc). now destruct (Fresh c Hc).
Qed.

(** A client without a name, without an email or without a phone is not
    stored: [POST /api/admin/clients] has no check of its own, the NOT
    NULL columns reject the row, and the answer is 500 "Failed to create
    client" with all tables unchanged.  In every case the answer is a 201
    or this 500, and no existing client is removed or altered. *)
Theorem post_admin_clients_failures sql_now name email phone company s :
  let w := a_run (post_admin_clients sql_now name email phone company) s in
  ((name = None \/ email = None \/ phone = None) ->
   fst w = Done (mkAdminResponse 500 (AFailure "Failed to create client"))
   /\ db (a_store (snd w)) = db s)
  /\ ((exists c, fst w = Done (mkAdminResponse 201 (ClientCreated (Some c)))
                 /\ clients (db (a_store (snd w))) = clients (db s) ++ [c])
      \/ (fst w = Done (mkAdminResponse 500 (AFailure "Failed to create client"))
          /\ db (a_store (snd w)) = db s))
  /\ (forall c, In c (clients (db s)) -> In c (clients (db (a_store (snd w))))).
Proof.
  intros w. subst w.
  unfold a_run, post_admin_clients, a_try_catch, a_bind, a_pool_query, a_ret,
    insert_client. cbn [a_store a_sent].
  destruct (field_has_nul name || field_has_nul email || field_has_nul phone
            || field_has_nul company) eqn:Nul.
  { cbn. split; [intros _; now split|]. split; [right; now split | auto]. }
  destruct (varchar_field 100 name) as [n|] eqn:Vn;
    [|cbn; split; [intros _; now split|]; split; [right; now split | auto]].
  destruct (varchar_field 100 email) as [e|] eqn:Ve;
    [|cbn; split; [intros _; now split|]; split; [right; now split | auto]].
  destruct (varchar_field 20 phone) as [p|] eqn:Vp;
    [|cbn; split; [intros _; now split|]; split; [right; now split | auto]].
  destruct (varchar_field 100 company) as [c|] eqn:Vc;
    [|cbn; split; [intros _; now split|]; split; [right; now split | auto]].
  assert (Missing : forall x y, varchar_field 100 x = Some y -> x = None -> y = None).
  { intros x y H ->. simpl in H. now inversion H. }
  assert (Missing20 : forall x y, varchar_field 20 x = Some y -> x = None -> y = None).
  { intros x y H ->. simpl in H. now inversion H. }
  destruct n as [n|], e as [e|], p as [p|];
    try (cbn; split; [intros _; now split|]; split; [right; now split | auto]).
  destruct (existsb (fun x => c_id x =? clients_id_seq s) (clients (db s))).
  - cbn. split; [intros _; now split|]. split; [right; now split | auto].
  - cbn. split.
    + intros [H | [H | H]].
      * apply (Missing _ _ Vn) in H. discriminate.
      * apply (Missing _ _ Ve) in H. discriminate.
      * apply (Missing20 _ _ Vp) in H. discriminate.
    + split; [left; eexists; split; reflexivity|].
      intros x Hx. apply in_or_app. now left.
Qed.

(** From creation to the client's page.  After a client is created (201),
    a link issued for the returned key with a token no row holds is
    accepted (201), and before its expiry
    [GET /api/client-details/:token] answers 200 with exactly the client
    that was created. *)
Theorem new_client_gets_a_working_link
  sql_now n e p company s date_issue sql_issue entropy :
  has_nul n = false -> has_nul e = false -> has_nul p = false ->
  field_has_nul company = false ->
  (List.length n <= 100)%nat -> (List.length e <= 100)%nat ->
  (List.length p <= 20)%nat ->
  (forall t, company = Some t -> (List.length t <= 100)%nat) ->
  (forall c, In c (clients (db s)) -> c_id c <> clients_id_seq s) ->
  NoDup (map c_id (clients (db s))) ->
  List.length entropy = 32%nat ->
  (forall l, In l (client_links (db s)) -> cl_token l <> hex entropy) ->
  let w1 := a_run (post_admin_clients sql_now (Some n) (Some e) (Some p) company) s in
  let row := new_client sql_now n e p company s in
  let w2 := run (post_admin_client_links date_issue sql_issue entropy
                   (Some (c_id row))) (db (a_store (snd w1))) in
  fst w1 = Done (mkAdminResponse 201 (ClientCreated (Some row)))
  /\ fst w2 = Value (issued_response date_issue entropy)
  /\ forall date_later sql_later,
       sql_later < date_issue + 24 * 60 * 60 * 1000 ->
       exists projectName amount dueDate,
         fst (run (get_client_details date_later sql_later (hex entropy))
                (store (snd w2)))
         = Value (mkResponse 200
                    (ClientDetails row n (clients_id_seq s)
                       projectName amount dueDate)).
Proof.
  intros Nn Ne Np Nc Ln Le Lp Lc Fresh ND L Tok w1 row w2. subst w1 w2.
  rewrite post_admin_clients_accepted by assumption. fold row.
  cbn [fst snd a_store db].
  set (d1 := with_clients (clients (db s) ++ [row]) (db s)).
  assert (T : token_taken (hex entropy) d1 = false).
  { apply token_taken_false. exact Tok. }
  assert (C : client_exists (Some (c_id row)) d1 = true).
  { apply client_exists_true. right. exists row. split; [|reflexivity].
    simpl. apply in_or_app. right. now left. }
  rewrite post_admin_client_links_run by lia. rewrite T, C.
  cbn [orb negb fst snd store].
  split; [reflexivity|]. split; [reflexivity|].
  intros date_later sql_later Lt.
  set (link := issued_row date_issue sql_issue entropy (Some (c_id row)) d1).
  set (d2 := add_client_link link (next_client_link_id d1)).
  assert (U : usable_links sql_later (hex entropy) d2 = [link]).
  { apply usable_links_of_new_row with (old := client_links (db s));
      [reflexivity | exact Tok | repeat split; exact Lt]. }
  assert (ND1 : NoDup (map c_id (clients d2))).
  { simpl. rewrite map_app. simpl.
    apply NoDup_app; [exact ND | repeat constructor; intros [] |].
    intros i Hi [<- | []]. apply in_map_iff in Hi.
    destruct Hi as (c & Ec & Hc). now destruct (Fresh c Hc). }
  assert (Cl : filter (fun x => c_id x =? c_id row) (clients d2) = [row]).
  { apply filter_unique_key; [exact ND1|]. simpl. apply in_or_app. right. now left. }
  destruct (details_of_shape date_later row (select_latest_payment (c_id row) d2))
    as (pn & amt & due & Hd).
  exists pn, amt, due.
  assert (Sel : select_client_by_id (cl_client_id link) d2 = [row])
    by exact Cl.
  rewrite get_client_details_run, hex_no_nul, U. cbv beta iota. rewrite Sel.
  cbv beta iota. cbn [fst]. now rewrite Hd.
Qed.

Lemma joins_spec sql_now c l :
  joins sql_now c l = true <->
  cl_client_id l = Some (c_id c) /\ sql_now < cl_expires_at l
  /\ cl_active l = Some true.
Proof.
  unfold joins, opt_is_true. rewrite !andb_true_iff, Z.ltb_lt.
  destruct (cl_client_id l) as [i|], (cl_active l) as [[|]|];
    try rewrite Z.eqb_eq; intuition congruence.
Qed.

Lemma listings_of_in sql_now links c r :
  In r (listings_of sql_now links c) ->
  listed_client r = c
  /\ ((active_token r = None /\ token_expiry r = None /\ token_active r = None
       /\ filter (joins sql_now c) links = [])
      \/ exists l, In l links /\ joins sql_now c l = true
                   /\ active_token r = Some (cl_token l)
                   /\ token_expiry r = Some (cl_expires_at l)
                   /\ token_active r = cl_active l).
Proof.
  unfold listings_of.
  destruct (filter (joins sql_now c) links) as [|l0 ls] eqn:F.
  - intros [<- | []]. split; [reflexivity|]. left. now repeat split.
  - rewrite <- F. intros H. apply in_map_iff in H.
    destruct H as (l & <- & Hl). apply filter_In in Hl. destruct Hl as [Hl J].
    split; [reflexivity|]. right. exists l. now repeat split.
Qed.

(** [GET /api/admin/clients] only reads and answers 200 with rows ordered
    by the creation time of the client, newest first.  Every client is
    listed.  A row without a token means that no link of its client is
    both active and unexpired.  A row with a token shows an active,
    unexpired link of that very client, and that token passes the link
    check of [GET /api/client-details/:token] at the same time.  Every
    active, unexpired link of a client is shown in a row of its own. *)
Theorem client_listing_matches_verification sql_now s :
  exists rows,
    a_run (get_admin_clients sql_now) s
    = (Done (mkAdminResponse 200 (ClientList rows)),
       mkAdminWorld s [SelectClientsWithLinks])
    /\ StronglySorted
         (newest_first (fun r => c_created_at (listed_client r))) rows
    /\ (forall c, In c (clients (db s)) ->
          exists r, In r rows /\ listed_client r = c)
    /\ (forall r, In r rows ->
          In (listed_client r) (clients (db s))
          /\ (active_token r = None ->
              token_expiry r = None /\ token_active r = None
              /\ forall l, In l (client_links (db s)) ->
                   cl_client_id l = Some (c_id (listed_client r)) ->
                   cl_active l = Some true -> cl_expires_at l <= sql_now)
          /\ (forall t, active_token r = Some t ->
                token_active r = Some true
                /\ (exists l, In l (client_links (db s)) /\ cl_token l = t
                              /\ cl_client_id l = Some (c_id (listed_client r))
                              /\ token_expiry r = Some (cl_expires_at l)
                              /\ sql_now < cl_expires_at l)
                /\ forall date_now, verifies (db s) date_now sql_now t))
    /\ (forall c l, In c (clients (db s)) -> In l (client_links (db s)) ->
          cl_client_id l = Some (c_id c) -> cl_active l = Some true ->
          sql_now < cl_expires_at l ->
          exists r, In r rows /\ listed_client r = c
                    /\ active_token r = Some (cl_token l)).
Proof.
  exists (select_clients_with_links sql_now (db s)).
  split; [reflexivity|]. split; [apply order_desc_sorted|].
  unfold select_clients_with_links.
  split; [|split].
  - intros c Hc.
    destruct (listings_of sql_now (client_links (db s)) c) as [|r rs] eqn:E.
    + unfold listings_of in E.
      destruct (filter (joins sql_now c) (client_links (db s))); discriminate.
    + assert (Hr : In r (listings_of sql_now (client_links (db s)) c))
        by (rewrite E; now left).
      exists r. split.
      * apply order_desc_in, in_flat_map. now exists c.
      * now apply listings_of_in in Hr.
  - intros r Hr. apply order_desc_in, in_flat_map in Hr.
    destruct Hr as (c & Hc & Hr). apply listings_of_in in Hr.
    destruct Hr as [<- Hr]. split; [exact Hc|]. split.
    + intros Hnone.
      destruct Hr as [(_ & E & A & F) | (l & _ & _ & T & _)]; [|congruence].
      split; [exact E|]. split; [exact A|].
      intros l Hl Hid Hact.
      rewrite filter_nil_iff in F. specialize (F l Hl).
      destruct (Z.lt_ge_cases sql_now (cl_expires_at l)) as [Lt|Ge]; [|lia].
      assert (J : joins sql_now (listed_client r) l = true)
        by (apply joins_spec; now repeat split).
      congruence.
    + intros t Ht.
      destruct Hr as [(N & _) | (l & Hl & J & T & E & A)]; [congruence|].
      apply joins_spec in J. destruct J as (Hid & Lt & Act).
      assert (t = cl_token l) by congruence. subst t.
      split; [congruence|]. split.
      * exists l. now repeat split.
      * intros date_now.
        destruct (string_has_nul (cl_token l)) eqn:Nul;
          [now apply verifies_nul|].
        apply verifies_iff; [exact Nul|]. exists l.
        split; [exact Hl | now repeat split].
  - intros c l Hc Hl Hid Act Lt.
    assert (J : joins sql_now c l = true) by (apply joins_spec; now repeat split).
    assert (F : In l (filter (joins sql_now c) (client_links (db s))))
      by (apply filter_In; now split).
    exists {| listed_client := c; active_token := Some (cl_token l);
              token_expiry := Some (cl_expires_at l);
              token_active := cl_active l |}.
    split; [|now split].
    apply order_desc_in, in_flat_map. exists c. split; [exact Hc|].
    unfold listings_of.
    destruct (filter (joins sql_now c) (client_links (db s))) as [|l0 ls] eqn:E;
      [destruct F|].
    rewrite <- E in *. apply in_map_iff. now exists l.
Qed.

(** ** Contact submissions *)

Section ContactFacts.

Variable toLocaleString : Z -> string.

(** [GET /api/contacts] only reads and answers 200 with every stored
    submission exactly once, ordered by creation time, newest first; each
    element keeps the columns of its row.  A submission that
    [POST /api/contact/submit] has just stored (201) is in the list. *)
Theorem contacts_are_listed_newest_first s :
  (exists ordered,
      a_run (get_contacts toLocaleString) s
      = (Done (mkAdminResponse 200
                 (ContactList (map (contact_view toLocaleString) ordered))),
         mkAdminWorld s [SelectContacts])
      /\ Permutation (contacts (db s)) ordered
      /\ StronglySorted (newest_first ct_created_at) ordered)
  /\ (forall sql_now f seq msg row,
        fst (run (post_contact_submit sql_now f) (db s))
        = Value (mkResponse 201 (ContactStored msg (Some row))) ->
        exists views,
          fst (a_run (get_contacts toLocaleString)
                 (mkAdminStore
                    (store (snd (run (post_contact_submit sql_now f) (db s)))) seq))
          = Done (mkAdminResponse 200 (ContactList views))
          /\ In (contact_view toLocaleString row) views).
Proof.
  split.
  - exists (order_desc ct_created_at (contacts (db s))).
    split; [reflexivity|]. split; [apply order_desc_perm | apply order_desc_sorted].
  - intros sql_now f seq msg row H.
    eexists. split; [reflexivity|].
    apply in_map. unfold select_contacts. apply order_desc_in. cbn [db].
    revert H. unfold run, post_contact_submit.
    destruct (validate f); [|discriminate].
    unfold try_catch, bind, pool_query, ret, insert_contact. cbn [store sent].
    destruct (name f) as [n|], (email f) as [e|], (phone f) as [p|],
      (subject f) as [sj|], (message f) as [m|]; try discriminate.
    destruct (has_nul n || has_nul e || has_nul p || has_nul sj || has_nul m);
      [discriminate|].
    destruct (varchar 100 n), (varchar 100 e), (varchar 20 p), (varchar 100 sj);
      try discriminate.
    cbn. intros H. inversion H; subst. apply in_or_app. right. now left.
Qed.

End ContactFacts.

(** ** Start-up *)

Lemma holds_token_spec token rows :
  holds_token token rows = true <-> exists r, In r rows /\ pl_token r = token.
Proof.
  unfold holds_token. rewrite existsb_exists.
  split; intros (r & Hin & E); exists r; (split; [exact Hin|]);
    now apply String.eqb_eq.
Qed.

Lemma insert_legacy_row_spec sql_now active t :
  let r := insert_legacy_row sql_now active t in
  plt_has_active (snd r) = plt_has_active t
  /\ (forall x, In x (plt_rows t) -> In x (plt_rows (snd r)))
  /\ (holds_token legacy_token (plt_rows t) = true ->
      fst r = true /\ plt_rows (snd r) = plt_rows t)
  /\ (holds_token legacy_token (plt_rows (snd r)) = true <-> fst r = true)
  /\ (key_taken (plt_id_seq t) (plt_rows t) = false -> fst r = true)
  /\ (holds_token legacy_token (plt_rows t) = false -> fst r = true ->
      plt_rows (snd r)
      = plt_rows t ++ [ {| pl_id := plt_id_seq t; pl_token := legacy_token;
                           pl_active := active; pl_created_at := sql_now |} ]).
Proof.
  unfold insert_legacy_row.
  destruct (holds_token legacy_token (plt_rows t)) eqn:H.
  - cbn [fst snd plt_rows plt_has_active]. rewrite H.
    repeat split; auto; discriminate.
  - destruct (key_taken (plt_id_seq t) (plt_rows t)) eqn:K;
      cbn [fst snd plt_rows plt_has_active].
    + rewrite H. repeat split; auto; discriminate.
    + assert (New : holds_token legacy_token
                      (plt_rows t ++
                       [ {| pl_id := plt_id_seq t; pl_token := legacy_token;
                            pl_active := active; pl_created_at := sql_now |} ])
                    = true).
      { apply holds_token_spec. eexists.
        split; [apply in_or_app; right; now left | reflexivity]. }
      rewrite New.
      repeat split; auto; try discriminate.
      intros x Hx. apply in_or_app. now left.
Qed.

(** Restarting the second revision never alters stored data: every table
    that exists keeps its rows (and [payment_links] keeps or lacks its
    [active] column as before), except that the legacy row is added when
    no row holds the legacy token.  In particular a legacy link that was
    deactivated stays deactivated.  Unless the key drawn for the legacy
    row is taken, all five tables exist after [initializeDb] and a row
    holds the legacy token. *)
Theorem startup_keeps_stored_rows sql_now c :
  let c' := Revision2Init.initializeDb sql_now c in
  (forall x, cat_contacts c = Some x -> cat_contacts c' = Some x)
  /\ (forall x, cat_payment_registrations c = Some x ->
        cat_payment_registrations c' = Some x)
  /\ (forall x, cat_clients c = Some x -> cat_clients c' = Some x)
  /\ (forall x, cat_client_links c = Some x -> cat_client_links c' = Some x)
  /\ (forall t, cat_payment_links c = Some t ->
        exists t', cat_payment_links c' = Some t'
                   /\ plt_has_active t' = plt_has_active t
                   /\ (forall r, In r (plt_rows t) -> In r (plt_rows t'))
                   /\ ((exists r, In r (plt_rows t) /\ pl_token r = legacy_token) ->
                       plt_rows t' = plt_rows t))
  /\ ((forall t, cat_payment_links c = Some t ->
         key_taken (plt_id_seq t) (plt_rows t) = false) ->
      exists d, db_of_catalog c' = Some d
                /\ exists r, In r (payment_links d) /\ pl_token r = legacy_token).
Proof.
  intros c'. subst c'. unfold Revision2Init.initializeDb.
  cbv zeta.
  cbn [cat_contacts cat_payment_registrations cat_clients cat_client_links
       cat_payment_links].
  split; [intros x ->; reflexivity|].
  split; [intros x ->; reflexivity|].
  split; [intros x ->; now destruct (fst _)|].
  split; [intros x ->; now destruct (fst _)|].
  split.
  - intros t ->. cbn [create_if_not_exists]. unfold seed_token_only.
    destruct (insert_legacy_row_spec sql_now
                (if plt_has_active t then Some true else None) t)
      as (Col & Keep & Held & _).
    eexists. split; [reflexivity|]. split; [exact Col|]. split; [exact Keep|].
    intros H. apply Held. now apply holds_token_spec.
  - intros Free.
    set (links := create_if_not_exists
                    {| plt_has_active := false; plt_rows := []; plt_id_seq := 1 |}
                    (cat_payment_links c)).
    assert (K : key_taken (plt_id_seq links) (plt_rows links) = false).
    { subst links. destruct (cat_payment_links c) as [t|]; cbn [create_if_not_exists].
      - now apply Free.
      - reflexivity. }
    unfold seed_token_only.
    destruct (insert_legacy_row_spec sql_now
                (if plt_has_active links then Some true else None) links)
      as (_ & _ & _ & Holds & Acc & _).
    specialize (Acc K). rewrite Acc.
    unfold db_of_catalog.
    cbn [cat_contacts cat_payment_registrations cat_clients cat_client_links
         cat_payment_links].
    destruct (create_if_not_exists ([], 1) (cat_contacts c)) as [cs cseq].
    destruct (create_if_not_exists ([], 1) (cat_payment_registrations c))
      as [prs pseq].
    destruct (create_if_not_exists ([], 1) (cat_clients c)) as [cls clseq].
    destruct (create_if_not_exists ([], 1) (cat_client_links c)) as [ls lseq].
    eexists. split; [reflexivity|]. cbn [payment_links].
    apply holds_token_spec. now apply Holds.
Qed.

(** [initializeDb] of the second revision seeds once: when a row holds
    the legacy token after it, running it again, at any later time,
    changes no row of any table and adds no table. *)
Theorem startup_twice_changes_no_row t1 t2 c :
  let once := Revision2Init.initializeDb t1 c in
  let twice := Revision2Init.initializeDb t2 once in
  holds_token legacy_token (link_rows once) = true ->
  cat_contacts twice = cat_contacts once
  /\ cat_payment_registrations twice = cat_payment_registrations once
  /\ cat_clients twice = cat_clients once
  /\ cat_client_links twice = cat_client_links once
  /\ link_rows twice = link_rows once
  /\ option_map plt_has_active (cat_payment_links twice)
     = option_map plt_has_active (cat_payment_links once).
Proof.
  intros once twice. subst once twice.
  unfold Revision2Init.initializeDb, link_rows. cbv zeta.
  cbn [cat_contacts cat_payment_registrations cat_clients cat_client_links
       cat_payment_links create_if_not_exists option_map].
  set (links := create_if_not_exists
                  {| plt_has_active := false; plt_rows := []; plt_id_seq := 1 |}
                  (cat_payment_links c)).
  unfold seed_token_only. intros Holds.
  destruct (insert_legacy_row_spec t1
              (if plt_has_active links then Some true else None) links)
    as (_ & _ & _ & Acc & _).
  apply Acc in Holds as A1. rewrite A1.
  cbn [create_if_not_exists].
  set (first := snd (insert_legacy_row t1
                       (if plt_has_active links then Some true else None) links))
    in *.
  destruct (insert_legacy_row_spec t2
              (if plt_has_active first then Some true else None) first)
    as (Col & _ & Held & _).
  destruct (Held Holds) as (A2 & Same). rewrite A2.
  repeat split; try reflexivity.
  - exact Same.
  - now rewrite Col.
Qed.

(** Which schema the legacy link gets.  On a database without a
    [payment_links] table the second revision creates it without the
    [active] column, and on the resulting store
    [PUT /api/admin/payment-link/:token] answers 500 for every token and
    flag.  When the first revision has created the table before, the
    second revision keeps the column and the seeded row is active. *)
Theorem second_revision_schema sql_now c :
  cat_payment_links c = None ->
  (forall d token active,
      db_of_catalog (Revision2Init.initializeDb sql_now c) = Some d ->
      payment_links_has_active d = false
      /\ run (put_admin_payment_link token active) d
         = (Value update_failed, mkWorld d [UpdatePaymentLinkActive]))
  /\ (forall later d,
        db_of_catalog
          (Revision2Init.initializeDb later (Revision1Init.initializeDb sql_now c))
        = Some d ->
        payment_links_has_active d = true
        /\ payment_links d
           = [ {| pl_id := 1; pl_token := legacy_token;
                  pl_active := Some true; pl_created_at := sql_now |} ]).
Proof.
  intros None_. split.
  - intros d token active H.
    assert (F : payment_links_has_active d = false).
    { unfold db_of_catalog, Revision2Init.initializeDb in H.
      cbv zeta in H.
      cbn [cat_contacts cat_payment_registrations cat_clients cat_client_links
           cat_payment_links] in H.
      rewrite None_ in H. cbn in H.
      destruct (create_if_not_exists ([], 1) (cat_contacts c)) as [? ?].
      destruct (create_if_not_exists ([], 1) (cat_payment_registrations c))
        as [? ?].
      destruct (create_if_not_exists ([], 1) (cat_clients c)) as [? ?].
      destruct (create_if_not_exists ([], 1) (cat_client_links c)) as [? ?].
      inversion H. reflexivity. }
    split; [exact F|].
    unfold run, put_admin_payment_link, try_catch, bind, pool_query, ret,
      update_payment_link_active. cbn [store sent]. rewrite F. reflexivity.
  - intros later d H.
    unfold db_of_catalog, Revision2Init.initializeDb, Revision1Init.initializeDb in H.
    cbv zeta in H.
    cbn [cat_contacts cat_payment_registrations cat_clients cat_client_links
         cat_payment_links] in H.
    rewrite None_ in H. cbn in H.
    destruct (create_if_not_exists ([], 1) (cat_contacts c)) as [? ?].
    destruct (create_if_not_exists ([], 1) (cat_payment_registrations c)) as [? ?].
    destruct (create_if_not_exists ([], 1) (cat_clients c)) as [? ?].
    destruct (create_if_not_exists ([], 1) (cat_client_links c)) as [? ?].
    inversion H. split; reflexivity.
Qed.

(* ===================================================================== *)
(** * Worked instances of these properties *)
(* ===================================================================== *)

(** The token issued at the sample store from 32 zero bytes. *)
Lemma issued_token_format_witness :
  String.length (hex zero_bytes) = 64%nat
  /\ all_chars is_lower_hex (hex zero_bytes) = true.
Proof.
  destruct (@issued_token_format sample_db 5000 5000 zero_bytes (Some 1)
              ("https://www.zorvixetechnologies.com/payment/" ++ hex zero_bytes)%string
              (hex zero_bytes) (5000 + one_day) eq_refl eq_refl) as (L & C & _).
  split; assumption.
Defined.

(** The suffix cut from the rendering "0.4fzyo82mvyr". *)
Lemma reference_suffix_format_witness :
  all_chars is_upper_alnum (randomString "0.4fzyo82mvyr") = true
  /\ String.length (randomString "0.4fzyo82mvyr") = 6%nat.
Proof.
  exact (@reference_suffix_format "0.4fzyo82mvyr" eq_refl).
Defined.

(** Deactivating the legacy link of the first revision's store. *)
Lemma put_then_get_payment_link_witness :
  fst (run (Revision1.get_payment_link legacy_token)
         (store (snd (run (put_admin_payment_link legacy_token (Some false))
                        legacy_db))))
  = Value (mkResponse 200 (LinkStatus (Some false))).
Proof.
  destruct (@put_then_get_payment_link legacy_db legacy_token (Some false)
              eq_refl eq_refl)
    as (_ & _ & _ & _ & _ & _ & _ & _ & Get).
  apply Get. eexists. split; [now left | reflexivity].
Defined.

(** A link issued at time 5000 verifies at time 6000. *)
Lemma issued_link_lifetime_witness :
  verifies (store (snd (run (post_admin_client_links 5000 5000 zero_bytes (Some 1))
                          sample_db)))
    6000 6000 (hex zero_bytes).
Proof.
  apply (@issued_link_lifetime sample_db 5000 5000 zero_bytes (Some 1)
           ("https://www.zorvixetechnologies.com/payment/" ++ hex zero_bytes)%string
           (hex zero_bytes) (5000 + one_day) eq_refl eq_refl 6000 6000).
  reflexivity.
Defined.

(** The sample store keeps its constraints when a link is issued. *)
Lemma issuance_keeps_constraints_witness :
  NoDup (map cl_token
           (client_links
              (store (snd (run (post_admin_client_links 5000 5000 zero_bytes (Some 1))
                             sample_db))))).
Proof.
  apply (@issuance_keeps_constraints sample_db 5000 5000 zero_bytes (Some 1) eq_refl).
  - repeat constructor; simpl; intuition discriminate.
  - intros l H. right. exists asha. split; [now left|].
    simpl in H. repeat (destruct H as [<- | H]; [reflexivity|]). contradiction.
Defined.

(** The client's page for the live link of the sample store shows the
    registration of that client. *)
Lemma client_details_payment_choice_witness :
  In asha (clients sample_db)
  /\ exists p, In p (payment_registrations sample_db)
               /\ pr_client_id p = decimal (c_id asha).
Proof.
  destruct (@client_details_payment_choice sample_db 100 100 "live" asha
              (c_name asha) (c_id asha) (pr_project_name acme_payment)
              (Numeric (pr_amount acme_payment)) (pr_due_date acme_payment) eq_refl)
    as (Hin & _ & _ & [(_ & _ & A & _) | (p & Hp & Hc & _)]).
  - discriminate A.
  - split; [exact Hin|]. exists p. split; assumption.
Defined.

(** Searching the sample store for "acme". *)
Lemma search_plain_query_is_substring_match_witness :
  exists rows,
    run (get_admin_payments_search ascii_lower (QString (text_of_string "acme")))
      sample_db
    = (Value (mkResponse 200 (Payments rows)), mkWorld sample_db [SearchPayments]).
Proof.
  destruct (@search_plain_query_is_substring_match ascii_lower sample_db
              (text_of_string "acme") eq_refl eq_refl) as (rows & R & _).
  - simpl. lia.
  - exists rows. exact R.
Defined.

(** Searching the sample store for "%%%". *)
Lemma search_percent_query_lists_everything_witness :
  run (get_admin_payments_search ascii_lower (QString (text_of_string "%%%")))
    sample_db
  = (Value (mkResponse 200 (Payments [acme_payment])),
     mkWorld sample_db [SearchPayments]).
Proof.
  apply (@search_percent_query_lists_everything ascii_lower sample_db
           (text_of_string "%%%")).
  - repeat constructor. simpl. tauto.
  - reflexivity.
  - simpl. lia.
Defined.

(** The status "paid" is refused. *)
Lemma put_admin_payment_status_rejects_other_words_witness :
  a_run (put_admin_payment_status "1" (Some (text_of_string "paid")))
    (mkAdminStore sample_db 2)
  = (Done (mkAdminResponse 400 (AFailure "Invalid status value")),
     mkAdminWorld (mkAdminStore sample_db 2) []).
Proof.
  apply put_admin_payment_status_rejects_other_words.
  intros w H. simpl in H.
  repeat (destruct H as [<- | H]; [discriminate|]). contradiction.
Defined.

(** Verifying registration 1 of the sample store. *)
Lemma status_update_effect_witness :
  exists row,
    fst (a_run (put_admin_payment_status "1" (Some (text_of_string "verified")))
           (mkAdminStore sample_db 2))
    = Done (mkAdminResponse 200 (StatusUpdated "Payment status updated" row))
    /\ pr_id row = 1 /\ pr_status row = text_of_string "verified".
Proof.
  destruct (@status_update_effect "1" (text_of_string "verified") 1
              (mkAdminStore sample_db 2))
    as (_ & _ & _ & _ & _ & _ & _ & Ok & _).
  - right. now left.
  - reflexivity.
  - destruct Ok as (row & R & _ & K & S & _).
    + exists acme_payment. split; [now left | reflexivity].
    + exists row. split; [exact R | split; assumption].
Defined.

(** The sample store holds allowed statuses only, also after an update. *)
Lemma statuses_stay_allowed_witness :
  statuses_allowed
    (db (a_store (snd (a_run (put_admin_payment_status "1"
                                (Some (text_of_string "rejected")))
                         (mkAdminStore sample_db 2))))).
Proof.
  apply statuses_stay_allowed.
  constructor; [now left | constructor].
Defined.

(** The first page of the sample store. *)
Lemma payments_page_is_slice_witness :
  exists rows tp,
    a_run (get_admin_payments (Some 1) (Some 10) None) (mkAdminStore sample_db 2)
    = (Done (mkAdminResponse 200 (PaymentPage rows 1 (Some tp) 1 10)),
       mkAdminWorld (mkAdminStore sample_db 2) [SelectPaymentsPage])
    /\ rows = page_slice None 1 10 sample_db.
Proof.
  destruct (@payments_page_is_slice (Some 1) (Some 10) None (mkAdminStore sample_db 2))
    as (rows & tp & R & S & _).
  - repeat constructor. simpl. tauto.
  - unfold js_exact. simpl. lia.
  - reflexivity.
  - simpl. lia.
  - simpl. lia.
  - simpl. lia.
  - exists rows, tp. split; [exact R | exact S].
Defined.

(** The second page of the sample store, which has one registration. *)
Lemma payments_page_past_the_end_witness :
  a_run (get_admin_payments (Some 2) (Some 10) None) (mkAdminStore sample_db 2)
  = (Done (mkAdminResponse 200 (PaymentPage [] 0 (Some 0) 2 10)),
     mkAdminWorld (mkAdminStore sample_db 2) [SelectPaymentsPage]).
Proof.
  apply (@payments_page_past_the_end (Some 2) (Some 10) None
           (mkAdminStore sample_db 2)).
  - unfold js_exact. simpl. lia.
  - reflexivity.
  - simpl. lia.
  - simpl. lia.
  - simpl. lia.
Defined.

(** Page 0 of the sample store. *)
Lemma payments_page_out_of_range_witness :
  a_run (get_admin_payments (Some 0) None None) (mkAdminStore sample_db 2)
  = (Done (mkAdminResponse 500
             (AFailureWith "Failed to fetch payment registrations"
                invalid_row_count_in_result_offset_clause)),
     mkAdminWorld (mkAdminStore sample_db 2) [SelectPaymentsPage]).
Proof.
  destruct (@payments_page_out_of_range (Some 0) None None (mkAdminStore sample_db 2))
    as (Zero & _).
  - unfold js_exact. simpl. lia.
  - reflexivity.
  - apply Zero; simpl; lia.
Defined.

(** Two pages of one row each at the sample store. *)
Lemma payments_pages_concatenate_witness :
  page_rows 1 1 None (mkAdminStore sample_db 2)
  ++ page_rows 2 1 None (mkAdminStore sample_db 2) ++ []
  = firstn 2 (matching_payments None sample_db).
Proof.
  apply (@payments_pages_concatenate 1 None (mkAdminStore sample_db 2) 2%nat).
  - repeat constructor. simpl. tauto.
  - unfold js_exact. simpl. lia.
  - reflexivity.
  - lia.
Defined.

(** A second client for the sample store. *)
Lemma post_admin_clients_creates_witness :
  clients (db (a_store (snd (a_run
     (post_admin_clients 7000 (Some (text_of_string "Ravi Kumar"))
        (Some (text_of_string "ravi@example.com"))
        (Some (text_of_string "9123456780")) None)
     (mkAdminStore sample_db 2)))))
  = [asha;
     {| c_id := 2; c_name := text_of_string "Ravi Kumar";
        c_email := text_of_string "ravi@example.com";
        c_phone := text_of_string "9123456780";
        c_company := None; c_created_at := 7000 |}].
Proof.
  destruct (@post_admin_clients_creates 7000 (text_of_string "Ravi Kumar")
              (text_of_string "ravi@example.com") (text_of_string "9123456780")
              None (mkAdminStore sample_db 2))
    as (_ & Rows & _).
  - reflexivity.
  - reflexivity.
  - reflexivity.
  - reflexivity.
  - simpl. lia.
  - simpl. lia.
  - simpl. lia.
  - discriminate.
  - intros c [<- | []]. discriminate.
  - exact Rows.
Defined.

(** The second client of the sample store gets a link and opens it. *)
Lemma new_client_gets_a_working_link_witness :
  exists projectName amount dueDate,
    fst (run (get_client_details 8000 8000 (hex zero_bytes))
           (store (snd (run (post_admin_client_links 7500 7500 zero_bytes (Some 2))
              (db (a_store (snd (a_run
                 (post_admin_clients 7000 (Some (text_of_string "Ravi Kumar"))
                    (Some (text_of_string "ravi@example.com"))
                    (Some (text_of_string "9123456780")) None)
                 (mkAdminStore sample_db 2)))))))))
    = Value (mkResponse 200
               (ClientDetails
                  (new_client 7000 (text_of_string "Ravi Kumar")
                     (text_of_string "ravi@example.com")
                     (text_of_string "9123456780") None (mkAdminStore sample_db 2))
                  (text_of_string "Ravi Kumar") 2 projectName amount dueDate)).
Proof.
  destruct (@new_client_gets_a_working_link 7000 (text_of_string "Ravi Kumar")
              (text_of_string "ravi@example.com") (text_of_string "9123456780")
              None (mkAdminStore sample_db 2) 7500 7500 zero_bytes)
    as (_ & _ & Open).
  - reflexivity.
  - reflexivity.
  - reflexivity.
  - reflexivity.
  - simpl. lia.
  - simpl. lia.
  - simpl. lia.
  - discriminate.
  - intros c [<- | []]. discriminate.
  - repeat constructor. simpl. tauto.
  - reflexivity.
  - intros l H. simpl in H.
    repeat (destruct H as [<- | H]; [discriminate|]). contradiction.
  - apply (Open 8000 8000). reflexivity.
Defined.

(** Starting the second revision twice on an empty database. *)
Lemma startup_twice_changes_no_row_witness :
  link_rows (Revision2Init.initializeDb 50
               (Revision2Init.initializeDb 0 empty_catalog))
  = link_rows (Revision2Init.initializeDb 0 empty_catalog).
Proof.
  apply (@startup_twice_changes_no_row 0 50 empty_catalog). reflexivity.
Defined.

(** The second revision started on an empty database. *)
Lemma second_revision_schema_witness :
  run (put_admin_payment_link legacy_token (Some false)) fresh_db
  = (Value update_failed, mkWorld fresh_db [UpdatePaymentLinkActive]).
Proof.
  destruct (@second_revision_schema 0 empty_catalog eq_refl) as (Put & _).
  apply (Put fresh_db legacy_token (Some false)). reflexivity.
Defined.

(** Deactivating the legacy link twice at the first revision's store. *)
Lemma set_link_active_idempotent_witness :
  store (snd (run (put_admin_payment_link legacy_token (Some false))
                (store (snd (run (put_admin_payment_link legacy_token (Some false))
                               legacy_db)))))
  = store (snd (run (put_admin_payment_link legacy_token (Some false)) legacy_db)).
Proof.
  destruct (@set_link_active_idempotent legacy_db legacy_token false eq_refl)
    as (Plain & _).
  destruct (Plain eq_refl) as (Known & _).
  destruct Known as (row & _ & _ & Same & _).
  - eexists. split; [now left | reflexivity].
  - exact Same.
Defined.
